(** * cryptosearch: candle series, indicator engine and snapshot fetching

    A shallow embedding of the TypeScript sources
      - [utils/indicators.ts] (kept as [src/unnamed/part_000]):
        calculateEMA, calculateRSI, calculateKDJ, calculateSAR;
      - [types.ts] (kept as [src/unnamed/part_001]): KlineData, TickerData,
        ExchangeType;
      - [services/binanceService.ts] (kept as the second half of
        [services/geminiService.ts]): fetchWithFallback, the ticker adapters
        and fetchers, fetchAvailableTickers, fetchKlines;
      - [App.tsx]: loadData (ticker resolution, bulk replace of the candle
        series, and the stream merge callback),
    together with the properties the specification states about them.

    JavaScript numbers are IEEE-754 binary64 values; they are embedded as
    Rocq's primitive floats, whose operations are the binary64 operations
    (round to nearest, ties to even), so every evaluation below is the
    evaluation a JavaScript engine performs. *)

From Stdlib Require Import ZArith List Bool Lia Ascii String.
From Stdlib Require Import Floats Numbers.Cyclic.Int63.Uint63.
From stdpp Require Import base list strings pretty.

Local Open Scope Z_scope.

(** ** JavaScript numbers and exceptions *)

Module JS.

(** A JavaScript [number]. *)
Definition number := float.

(** An integer-valued number (a loop counter, a period).  The conversion is
    exact below [2^53], which covers every array index. *)
Definition num_of_Z (z : Z) : number :=
  if z <? 0 then PrimFloat.opp (PrimFloat.of_uint63 (Uint63.of_Z (- z)))
  else PrimFloat.of_uint63 (Uint63.of_Z z).

Definition num_of_nat (n : nat) : number := num_of_Z (Z.of_nat n).

(** [a > b], [a < b], [a === b] on numbers: all false on NaN. *)
Definition gt (a b : number) : bool := PrimFloat.ltb b a.
Definition lt (a b : number) : bool := PrimFloat.ltb a b.
Definition strict_eq (a b : number) : bool := PrimFloat.eqb a b.

(** Sign bit, to tell [-0] from [+0] as [Math.min] does. *)
Definition is_neg_zero (a : number) : bool :=
  PrimFloat.is_zero a && PrimFloat.get_sign a.

(** [Math.min(a, b)]: NaN if either argument is NaN, and [-0] below [+0]. *)
Definition Math_min (a b : number) : number :=
  if PrimFloat.is_nan a || PrimFloat.is_nan b then PrimFloat.nan
  else if PrimFloat.ltb a b then a
  else if PrimFloat.ltb b a then b
  else if is_neg_zero a then a else b.

(** [Math.abs]. *)
Definition Math_abs (a : number) : number := PrimFloat.abs a.

(** What a [throw] carries.  [TypeError] is the engine's own error for a
    property read on [undefined] or [null]; the others are the [Error]
    objects the services construct, or a failure of the platform's
    [fetch] / [json()] / [JSON.parse]. *)
Inductive Error : Type :=
| TypeError
| NetworkError (msg : string)
| SyntaxError
| ErrorMsg (msg : string).

(** The outcome of evaluating code that may throw. *)
Inductive Exc (A : Type) : Type :=
| Ok (a : A)
| Throw (e : Error).
Arguments Ok {A} a.
Arguments Throw {A} e.

Definition bind {A B} (m : Exc A) (k : A -> Exc B) : Exc B :=
  match m with
  | Ok a => k a
  | Throw e => Throw e
  end.

(** [try { m } catch (e) { h e }]. *)
Definition try_catch {A} (m : Exc A) (h : Error -> Exc A) : Exc A :=
  match m with
  | Ok a => Ok a
  | Throw e => h e
  end.

Definition succeeds {A} (m : Exc A) : bool :=
  match m with Ok _ => true | Throw _ => false end.

(** [for (let i = start; i < start + n; i++) s = body(i, s)]. *)
Fixpoint for_loop {St} (body : nat -> St -> Exc St) (start n : nat) (s : St)
  : Exc St :=
  match n with
  | O => Ok s
  | S n' => bind (body start s) (for_loop body (S start) n')
  end.

End JS.

Import JS.

(** The services and indicators are written with stdpp's monad notation
    [x ← m; k]. *)
#[global] Instance Exc_ret : MRet Exc := @Ok.
#[global] Instance Exc_bind : MBind Exc := fun A B k m => JS.bind m k.

(** ** The data model ([types.ts]) *)

Inductive ExchangeType : Type := Binance | Bybit | MEXC | Gate | OKX.

(** [types.ts] declares every field, [time] included, as a [number];
    [time] holds epoch-milliseconds. *)
Record KlineData : Type := mkKline {
  time : number;
  open : number;
  high : number;
  low : number;
  close : number;
  volume : number
}.

(** [data[i]] followed by a field read: reading a field of [undefined]
    (an index outside the array) throws a [TypeError]. *)
Definition at_index (data : list KlineData) (i : nat) : Exc KlineData :=
  match data !! i with
  | Some c => Ok c
  | None => Throw TypeError
  end.

(** The same with a computed, possibly negative index. *)
Definition at_indexZ (data : list KlineData) (z : Z) : Exc KlineData :=
  if z <? 0 then Throw TypeError else at_index data (Z.to_nat z).

(** An entry of a [(number | null)[]]: [None] is [null]. *)
Definition cell := option number.

(** [arr[i] = v].  Inside the array this is stdpp's insert; a write past the
    end makes JavaScript extend the array, the skipped slots being holes
    (rendered [None] here).  The indicator scans only write inside. *)
Definition arr_set (i : nat) (v : cell) (arr : list cell) : list cell :=
  if (i <? length arr)%nat then <[i := v]> arr
  else arr ++ replicate (i - length arr) None ++ [v].

(** [arr[i]] used as an operand of arithmetic: [null] converts to [0], and
    [undefined] (outside the array) to NaN. *)
Definition arr_num (arr : list cell) (i : nat) : number :=
  match arr !! i with
  | Some (Some v) => v
  | Some None => PrimFloat.zero
  | None => PrimFloat.nan
  end.

(** ** The indicator engine ([utils/indicators.ts]) *)

Module Indicators.

Local Open Scope float_scope.

(** *** calculateEMA *)

Section EMA.
Variable data : list KlineData.
Variable period : Z.

Definition ema_k : number := PrimFloat.two / (num_of_Z period + PrimFloat.one).

(** The inner loop [for (j = 0; j <= i; j++) sum += data[j].close]. *)
Definition ema_sum_body (j : nat) (sum : number) : Exc number :=
  c ← at_index data j; Ok (sum + close c).

(** One iteration of the outer loop on the state [(ema, emaArray)]. *)
Definition ema_body (i : nat) (st : number * list cell)
  : Exc (number * list cell) :=
  let '(ema, emaArray) := st in
  if (Z.of_nat i <? period - 1)%Z then
    c ← at_index data i;
    Ok ((ema * num_of_nat i + close c) / (num_of_nat i + PrimFloat.one),
        emaArray ++ [None])
  else if (Z.of_nat i =? period - 1)%Z then
    sum ← for_loop ema_sum_body 0 (S i) PrimFloat.zero;
    let ema' := sum / num_of_Z period in
    Ok (ema', emaArray ++ [Some ema'])
  else
    c ← at_index data i;
    let ema' := close c * ema_k + ema * (PrimFloat.one - ema_k) in
    Ok (ema', emaArray ++ [Some ema']).

Definition calculateEMA : Exc (list cell) :=
  c0 ← at_index data 0;
  st ← for_loop ema_body 0 (length data) (close c0, []);
  Ok (snd st).

(** The arithmetic mean of the first [period] closes, the sum taken from
    zero in the order of the series. *)
Definition mean_closes : number :=
  fold_left PrimFloat.add (map close (take (Z.to_nat period) data))
    PrimFloat.zero
  / num_of_Z period.
End EMA.

(** *** calculateRSI *)

Section RSI.
Variable data : list KlineData.
Variable period : Z.

(** [data[i].close - data[i - 1].close], for [i >= 1]. *)
Definition rsi_change (i : nat) : Exc number :=
  c ← at_index data i;
  p ← at_index data (i - 1);
  Ok (close c - close p).

Definition rsi_gain (change : number) : number :=
  if gt change 0 then change else 0.
Definition rsi_loss (change : number) : number :=
  if lt change 0 then Math_abs change else 0.

Definition rsi_value (avgGain avgLoss : number) : number :=
  let rs := avgGain / avgLoss in
  100 - (100 / (1 + rs)).

(** The first loop, on [(gains, losses, rsiArray)]; its array is never
    returned. *)
Definition rsi_first_body (i : nat) (st : number * number * list cell)
  : Exc (number * number * list cell) :=
  let '(gains, losses, rsiArray) := st in
  if (i =? 0)%nat then Ok (gains, losses, rsiArray ++ [None])
  else
    change ← rsi_change i;
    let gain := rsi_gain change in
    let loss := rsi_loss change in
    if (Z.of_nat i <? period)%Z then
      Ok (gains + gain, losses + loss, rsiArray ++ [None])
    else if (Z.of_nat i =? period)%Z then
      let avgGain := gains / num_of_Z period in
      let avgLoss := losses / num_of_Z period in
      Ok (gains, losses, rsiArray ++ [Some (rsi_value avgGain avgLoss)])
    else Ok (gains, losses, rsiArray ++ [None]).

(** The second loop (Wilder smoothing), on [(avgGain, avgLoss, result)]. *)
Definition rsi_body (i : nat) (st : number * number * list cell)
  : Exc (number * number * list cell) :=
  let '(avgGain, avgLoss, result) := st in
  change ← rsi_change i;
  let gain := rsi_gain change in
  let loss := rsi_loss change in
  if (Z.of_nat i <? period)%Z then
    Ok (avgGain + gain, avgLoss + loss, result)
  else if (Z.of_nat i =? period)%Z then
    let avgGain' := avgGain / num_of_Z period in
    let avgLoss' := avgLoss / num_of_Z period in
    Ok (avgGain', avgLoss',
        arr_set i (Some (rsi_value avgGain' avgLoss')) result)
  else
    let avgGain' :=
      (avgGain * (num_of_Z period - 1) + gain) / num_of_Z period in
    let avgLoss' :=
      (avgLoss * (num_of_Z period - 1) + loss) / num_of_Z period in
    Ok (avgGain', avgLoss',
        arr_set i (Some (rsi_value avgGain' avgLoss')) result).

Definition calculateRSI : Exc (list cell) :=
  _ ← for_loop rsi_first_body 0 (length data) (0, 0, []);
  st ← for_loop rsi_body 1 (length data - 1)
         (0, 0, replicate (length data) None);
  Ok (snd st).
End RSI.

(** *** calculateKDJ *)

Record KDJ : Type := mkKDJ { k : list cell; d : list cell; j : list cell }.

Record KdjState : Type := mkKdjState {
  kValue : number;
  dValue : number;
  K : list cell;
  D : list cell;
  J : list cell
}.

Section KDJ.
Variable data : list KlineData.
Variable period : Z.

(** The window scan, on [(low, high)], at offset [j] back from [i]. *)
Definition kdj_window_body (i : nat) (j : nat) (st : number * number)
  : Exc (number * number) :=
  let '(low0, high0) := st in
  c ← at_indexZ data (Z.of_nat i - Z.of_nat j);
  let low1 := if lt (low c) low0 then low c else low0 in
  let high1 := if gt (high c) high0 then high c else high0 in
  Ok (low1, high1).

Definition kdj_body (i : nat) (st : KdjState) : Exc KdjState :=
  if (Z.of_nat i <? period - 1)%Z then
    Ok {| kValue := kValue st; dValue := dValue st;
          K := K st ++ [None]; D := D st ++ [None]; J := J st ++ [None] |}
  else
    c ← at_index data i;
    w ← for_loop (kdj_window_body i) 0 (Z.to_nat period) (low c, high c);
    let '(low0, high0) := w in
    let rsv :=
      if strict_eq high0 low0 then 50
      else ((close c - low0) / (high0 - low0)) * 100 in
    let kValue' := (2 / 3) * kValue st + (1 / 3) * rsv in
    let dValue' := (2 / 3) * dValue st + (1 / 3) * kValue' in
    let jValue := 3 * kValue' - 2 * dValue' in
    Ok {| kValue := kValue'; dValue := dValue';
          K := K st ++ [Some kValue']; D := D st ++ [Some dValue'];
          J := J st ++ [Some jValue] |}.

Definition calculateKDJ : Exc KDJ :=
  st ← for_loop kdj_body 0 (length data)
         {| kValue := 50; dValue := 50; K := []; D := []; J := [] |};
  Ok {| k := K st; d := D st; j := J st |}.
End KDJ.

(** *** calculateSAR *)

(** The variables the scan carries from tick to tick. *)
Record SarState : Type := mkSarState {
  isUptrend : bool;
  ep : number;
  af : number;
  sar : list cell
}.

#[local] Set Warnings "-inexact-float".
(** The default arguments [startAf = 0.02, maxAf = 0.2]. *)
Definition default_startAf : number := 0.02.
Definition default_maxAf : number := 0.2.
#[local] Set Warnings "+inexact-float".

Section SAR.
Variable data : list KlineData.
Variables startAf maxAf : number.

(** The state before the loop; only reached with at least five candles. *)
Definition sar_init : Exc SarState :=
  c0 ← at_index data 0;
  let isUptrend0 := gt (close c0) (open c0) in
  Ok {| isUptrend := isUptrend0;
        ep := if isUptrend0 then high c0 else low c0;
        af := startAf;
        sar := arr_set 0 (Some (if isUptrend0 then low c0 else high c0))
                 (replicate (length data) None) |}.

(** [newSar] after the two-candle clamp of tick [i]. *)
Definition sar_clamped (i : nat) (st : SarState) : Exc number :=
  let prevSar := arr_num (sar st) (i - 1) in
  let newSar := prevSar + af st * (ep st - prevSar) in
  if isUptrend st then
    c1 ← at_index data (i - 1);
    let low1 := low c1 in
    low2 ← (if (1 <? i)%nat
            then c2 ← at_index data (i - 2); Ok (low c2)
            else Ok low1);
    let newSar := if gt newSar low1 then low1 else newSar in
    let newSar := if gt newSar low2 then low2 else newSar in
    Ok newSar
  else
    c1 ← at_index data (i - 1);
    let high1 := high c1 in
    high2 ← (if (1 <? i)%nat
             then c2 ← at_index data (i - 2); Ok (high c2)
             else Ok high1);
    let newSar := if lt newSar high1 then high1 else newSar in
    let newSar := if lt newSar high2 then high2 else newSar in
    Ok newSar.

(** The reversal check of tick [i]: the new state without its [sar]
    write, the new [newSar], and the flag [reversed]. *)
Definition sar_reversal (ci : KlineData) (newSar : number) (st : SarState)
  : SarState * number * bool :=
  if isUptrend st then
    if lt (low ci) newSar then
      ({| isUptrend := false; ep := low ci; af := startAf; sar := sar st |},
       ep st, true)
    else (st, newSar, false)
  else
    if gt (high ci) newSar then
      ({| isUptrend := true; ep := high ci; af := startAf; sar := sar st |},
       ep st, true)
    else (st, newSar, false).

(** The update of [ep] and [af] under [if (!reversed)]. *)
Definition sar_extreme (ci : KlineData) (st : SarState) : SarState :=
  if isUptrend st then
    if gt (high ci) (ep st) then
      {| isUptrend := isUptrend st; ep := high ci;
         af := Math_min (af st + startAf) maxAf; sar := sar st |}
    else st
  else
    if lt (low ci) (ep st) then
      {| isUptrend := isUptrend st; ep := low ci;
         af := Math_min (af st + startAf) maxAf; sar := sar st |}
    else st.

(** One iteration of the loop. *)
Definition sar_body (i : nat) (st : SarState) : Exc SarState :=
  newSar ← sar_clamped i st;
  ci ← at_index data i;
  let '(st1, newSar1, reversed) := sar_reversal ci newSar st in
  let st2 := if negb reversed then sar_extreme ci st1 else st1 in
  Ok {| isUptrend := isUptrend st2; ep := ep st2; af := af st2;
        sar := arr_set i (Some newSar1) (sar st2) |}.

(** The state after ticks [1 .. n] of the loop. *)
Definition sar_scan (n : nat) : Exc SarState :=
  st0 ← sar_init;
  for_loop sar_body 1 n st0.

Definition calculateSAR : Exc (list cell) :=
  if (length data =? 0)%nat then Ok []
  else if (length data <? 5)%nat then Ok (replicate (length data) None)
  else
    st ← sar_scan (length data - 1);
    Ok (sar st).

(** The two events of a tick the specification names, as the loop tests
    them: a breach of the clamped [newSar], and a new extreme point. *)
Definition sar_breach (ci : KlineData) (newSar : number) (st : SarState)
  : bool :=
  if isUptrend st then lt (low ci) newSar else gt (high ci) newSar.

Definition sar_new_extreme (ci : KlineData) (st : SarState) : bool :=
  if isUptrend st then gt (high ci) (ep st) else lt (low ci) (ep st).
End SAR.



End Indicators.

(** ** The candle series ([App.tsx], [loadData]) *)

Module CandleSeries.

(** The bulk replace after a history fetch:
    [setKlineData(klines); klineDataRef.current = klines].  The series is
    the content of [klineDataRef.current], which the React state mirrors. *)
Definition replaceAll (currentData klines : list KlineData)
  : list KlineData := klines.

(** The callback [loadData] hands to [subscribeToKline]: the new content of
    [klineDataRef.current] after the stream delivers [newCandle]. *)
Definition mergeOne (currentData : list KlineData) (newCandle : KlineData)
  : list KlineData :=
  if (length currentData =? 0)%nat then currentData
  else
    let lastCandle := currentData !! (length currentData - 1)%nat in
    let same_time :=
      match lastCandle with
      | Some lastCandle => strict_eq (time newCandle) (time lastCandle)
      | None => false
      end in
    if same_time then
      take (length currentData - 1) currentData ++ [newCandle]
    else if (500 <? length currentData)%nat then
      drop 1 currentData ++ [newCandle]
    else
      currentData ++ [newCandle].

(** The invariant of the data model: time values strictly increasing (so no
    two candles share a time value). *)
Fixpoint all_later (t : number) (l : list KlineData) : bool :=
  match l with
  | [] => true
  | c :: l' => lt t (time c) && all_later t l'
  end.

Fixpoint increasing (l : list KlineData) : bool :=
  match l with
  | [] => true
  | c :: l' => all_later (time c) l' && increasing l'
  end.

End CandleSeries.

(** ** Run-time values and the network *)

Module Net.

(** A JavaScript value as [res.json()] or [JSON.parse] produce it, or
    [undefined] as a property read may. *)
#[local] Unset Elimination Schemes.
Inductive value : Type :=
| VUndefined
| VNull
| VBool (b : bool)
| VNum (n : number)
| VStr (s : string)
| VArr (items : list value)
| VObj (fields : list (string * value)).
#[local] Set Elimination Schemes.

(** What the services use of a [Response]: [ok], [statusText] and the
    outcome of [json()], which rejects when the body is not JSON. *)
Record Response : Type := mkResponse {
  ok : bool;
  statusText : string;
  json : Exc value
}.

(** Truthiness, for [if (v)] and [!v]. *)
Definition truthy (v : value) : bool :=
  match v with
  | VUndefined | VNull => false
  | VBool b => b
  | VNum n => negb (PrimFloat.is_zero n || PrimFloat.is_nan n)
  | VStr s => negb (String.eqb s "")
  | VArr _ | VObj _ => true
  end.

(** The binding of [name] among the fields of an object (the last one, as
    [JSON.parse] keeps it). *)
Fixpoint obj_get (name : string) (fields : list (string * value))
  : option value :=
  match fields with
  | [] => None
  | (key, v) :: rest =>
      match obj_get name rest with
      | Some v' => Some v'
      | None => if String.eqb key name then Some v else None
      end
  end.

(** [v.name]: a [TypeError] on [undefined] and [null]; [length] of arrays
    and strings; [undefined] for a property that is not there. *)
Definition get_prop (v : value) (name : string) : Exc value :=
  match v with
  | VUndefined | VNull => Throw TypeError
  | VObj fields => Ok (default VUndefined (obj_get name fields))
  | VArr items =>
      Ok (if String.eqb name "length" then VNum (num_of_nat (length items))
          else VUndefined)
  | VStr s =>
      Ok (if String.eqb name "length" then VNum (num_of_nat (String.length s))
          else VUndefined)
  | VBool _ | VNum _ => Ok VUndefined
  end.

(** [v[i]] for a literal index [i]. *)
Definition get_index (v : value) (i : nat) : Exc value :=
  match v with
  | VUndefined | VNull => Throw TypeError
  | VArr items => Ok (default VUndefined (items !! i))
  | VObj fields => Ok (default VUndefined (obj_get (pretty i) fields))
  | VStr s =>
      Ok (match String.get i s with
          | Some ch => VStr (String ch EmptyString)
          | None => VUndefined
          end)
  | VBool _ | VNum _ => Ok VUndefined
  end.

(** [Array.isArray(v)]. *)
Definition isArray (v : value) : bool :=
  match v with VArr _ => true | _ => false end.

(** [v === n] and [v === s] against a number or string literal. *)
Definition is_num (v : value) (n : number) : bool :=
  match v with VNum m => strict_eq m n | _ => false end.
Definition is_str (v : value) (s : string) : bool :=
  match v with VStr s' => String.eqb s' s | _ => false end.

(** A value stored where a [number] is declared. *)
Definition as_number (v : value) : number :=
  match v with VNum n => n | _ => PrimFloat.nan end.

(** [s.replace(ch, '')] for a one-character pattern: the first occurrence
    is removed. *)
Fixpoint remove_first (ch : ascii) (s : string) : string :=
  match s with
  | EmptyString => EmptyString
  | String c s' => if Ascii.eqb c ch then s' else String c (remove_first ch s')
  end.

(** [s.endsWith(ch)] for a one-character suffix. *)
Fixpoint ends_with (ch : ascii) (s : string) : bool :=
  match s with
  | EmptyString => false
  | String c EmptyString => Ascii.eqb c ch
  | String _ s' => ends_with ch s'
  end.

(** [v.replace(ch, '')] on a run-time value: only strings have the method. *)
Definition value_remove_first (ch : ascii) (v : value) : Exc value :=
  match v with
  | VStr s => Ok (VStr (remove_first ch s))
  | _ => Throw TypeError
  end.

(** An [async] function seen from outside: it has settled; or it is
    suspended at an [await fetch(url)] and resumes with the outcome of that
    fetch (a rejected [fetch] is a [Throw]); or it is suspended at an await
    that issues no request, the reading of a body in [await res.json()],
    and goes on as [next] once the body is read.  (What the reading yields
    is already part of the [Response].) *)
Inductive Task (A : Type) : Type :=
| Settled (outcome : Exc A)
| Awaiting (url : string) (resume : Exc Response -> Task A)
| Reading (next : Task A).
Arguments Settled {A} outcome.
Arguments Awaiting {A} url resume.
Arguments Reading {A} next.

(** [await fetch(url)], [await res.json()] yielding [m], a synchronous
    step, and [throw]. *)
Definition task_fetch (url : string) : Task Response :=
  Awaiting url (fun outcome => Settled outcome).

Definition task_read {A} (m : Exc A) : Task A := Reading (Settled m).

Definition task_lift {A} (m : Exc A) : Task A := Settled m.

Definition task_throw {A} (e : Error) : Task A := Settled (Throw e).

Fixpoint task_bind {A B} (t : Task A) (k : A -> Task B) : Task B :=
  match t with
  | Settled (Ok a) => k a
  | Settled (Throw e) => Settled (Throw e)
  | Awaiting url resume => Awaiting url (fun r => task_bind (resume r) k)
  | Reading next => Reading (task_bind next k)
  end.

(** [try { t } catch (e) { h e }]. *)
Fixpoint task_try {A} (t : Task A) (h : Error -> Task A) : Task A :=
  match t with
  | Settled (Ok a) => Settled (Ok a)
  | Settled (Throw e) => h e
  | Awaiting url resume => Awaiting url (fun r => task_try (resume r) h)
  | Reading next => Reading (task_try next h)
  end.

Section WithWorld.
(** The state of everything outside the program, and the platform's
    [fetch]: the response to a request depends on that state, which the
    request may change.  A rejected [fetch] is a [Throw]. *)
Context {World : Type}.
Variable fetch_impl : World -> string -> World * Exc Response.

(** The state a service call runs in: the world, and the URLs requested
    so far, oldest first. *)
Record NetState : Type := mkNetState {
  world : World;
  requests : list string
}.

(** An asynchronous computation: it may issue requests and may reject. *)
Definition Net (A : Type) : Type := NetState -> NetState * Exc A.

Definition net_ret {A} (a : A) : Net A := fun st => (st, Ok a).

Definition net_bind {A B} (m : Net A) (k : A -> Net B) : Net B :=
  fun st =>
    match m st with
    | (st', Ok a) => k a st'
    | (st', Throw e) => (st', Throw e)
    end.

Definition throw {A} (e : Error) : Net A := fun st => (st, Throw e).

(** A synchronous step inside an [async] function. *)
Definition lift {A} (m : Exc A) : Net A := fun st => (st, m).

(** [try { m } catch (e) { h e }]. *)
Definition net_try {A} (m : Net A) (h : Error -> Net A) : Net A :=
  fun st =>
    match m st with
    | (st', Ok a) => (st', Ok a)
    | (st', Throw e) => h e st'
    end.

(** [await fetch(url)]. *)
Definition fetch (url : string) : Net Response :=
  fun st =>
    let '(w, r) := fetch_impl (world st) url in
    ({| world := w; requests := requests st ++ [url] |}, r).

(** A task awaited on its own: each await is over before the next step. *)
Fixpoint run_task {A} (t : Task A) : Net A :=
  fun st =>
    match t with
    | Settled outcome => (st, outcome)
    | Awaiting url resume =>
        let '(st1, r) := fetch url st in
        run_task (resume r) st1
    | Reading next => run_task next st
    end.

(** What calling an [async] function does at once: it runs to its first
    [await], whose request goes out. *)
Definition issue {A} (t : Task A) (st : NetState) : NetState :=
  match t with
  | Awaiting url _ => {| world := world st; requests := requests st ++ [url] |}
  | Settled _ | Reading _ => st
  end.

(** What [t] was waiting for happens, the answer to its pending request or
    the end of the reading: [t] resumes and runs to its next [await], whose
    request, if it has one, goes out, or to its end. *)
Definition deliver {A} (t : Task A) (st : NetState) : NetState * Task A :=
  match t with
  | Awaiting url resume =>
      let '(w, r) := fetch_impl (world st) url in
      let t' := resume r in
      (issue t' {| world := w; requests := requests st |}, t')
  | Reading next => (issue next st, next)
  | Settled _ => (st, t)
  end.

(** Things happen in the order the network decides: [schedule] names, one
    after the other, the task that resumes next. *)
Fixpoint deliveries {A} (schedule : list nat) (tasks : list (Task A))
    (st : NetState) : NetState * list (Task A) :=
  match schedule with
  | [] => (st, tasks)
  | i :: rest =>
      match tasks !! i with
      | Some t =>
          let '(st1, t') := deliver t st in
          deliveries rest (<[i := t']> tasks) st1
      | None => deliveries rest tasks st
      end
  end.

(** A suspended task left to finish on its own. *)
Definition finish {A} (t : Task A) (st : NetState) : NetState * Exc A :=
  match t with
  | Settled outcome => (st, outcome)
  | Awaiting url resume =>
      let '(w, r) := fetch_impl (world st) url in
      run_task (resume r) {| world := w; requests := requests st |}
  | Reading next => run_task next st
  end.

Fixpoint drain {A} (tasks : list (Task A)) (st : NetState)
  : NetState * list (Exc A) :=
  match tasks with
  | [] => (st, [])
  | t :: tasks' =>
      let '(st1, r) := finish t st in
      let '(st2, rs) := drain tasks' st1 in
      (st2, r :: rs)
  end.

(** [await Promise.allSettled(ps)], the elements of [ps] being calls of
    [async] functions: the calls run one after the other, each to its first
    [await], so the first request of every task is out before any answer
    is looked at; then the tasks resume as [schedule] says, and whatever
    is still suspended when [schedule] ends finishes task after task.  It
    never rejects, and the outcomes come back in the order of [ps].  Every
    order in which the tasks can resume is that of some [schedule]. *)
Definition allSettled {A} (schedule : list nat) (ps : list (Task A))
  : Net (list (Exc A)) :=
  fun st =>
    let st0 := fold_left (fun st p => issue p st) ps st in
    let '(st1, pending) := deliveries schedule ps st0 in
    let '(st2, results) := drain pending st1 in
    (st2, Ok results).
End WithWorld.

Arguments NetState : clear implicits.
Arguments Net : clear implicits.

#[global] Instance Net_ret {World} : MRet (Net World) :=
  fun A a => net_ret a.
#[global] Instance Net_bind {World} : MBind (Net World) :=
  fun A B k m => net_bind m k.
#[global] Instance Task_ret : MRet Task :=
  fun A a => Settled (Ok a).
#[global] Instance Task_bind : MBind Task :=
  fun A B k t => task_bind t k.

End Net.

(** ** The exchange services ([services/binanceService.ts]) *)

Module Services.
Import Net.

Definition BINANCE_API : string := "https://api.binance.com/api/v3".
Definition BYBIT_API : string := "https://api.bybit.com/v5/market".
Definition MEXC_API : string := "https://api.mexc.com/api/v3".
Definition GATE_API : string := "https://api.gateio.ws/api/v4".
Definition OKX_API : string := "https://www.okx.com/api/v5/market".
Definition PROXY_URL : string := "https://api.allorigins.win/get?url=".

(** The name of an exchange, which is its value at run time. *)
Definition exchange_name (e : ExchangeType) : string :=
  match e with
  | Binance => "Binance"
  | Bybit => "Bybit"
  | MEXC => "MEXC"
  | Gate => "Gate"
  | OKX => "OKX"
  end.

(** [TickerData]: the text fields hold whatever the exchange sent. *)
Record TickerData : Type := mkTicker {
  symbol : value;
  priceChange : value;
  priceChangePercent : value;
  lastPrice : value;
  highPrice : value;
  lowPrice : value;
  volume : value;
  exchange : ExchangeType
}.

(** What the services take from the platform: the network behind [fetch],
    and the built-ins they call, left uninterpreted ([to_string] is the
    conversion [JSON.parse] applies to its argument, [num_toString] and
    [toFixed2] are [Number.prototype.toString] and [toFixed(2)]). *)
Class Platform (World : Type) : Type := {
  fetch_impl : World -> string -> World * Exc Response;
  encodeURIComponent : string -> string;
  JSON_parse : string -> Exc value;
  to_string : value -> string;
  toUpperCase : string -> string;
  parseFloat : value -> number;
  parseInt : value -> number;
  num_toString : number -> string;
  toFixed2 : number -> string
}.

Section WithPlatform.
Context {World : Type} {platform : Platform World}.

#[local] Abbreviation Net := (Net World).
#[local] Abbreviation fetch := (fetch fetch_impl).

(** The direct attempt: the body of the outer [try]. *)
Definition direct_attempt (url : string) : Net value :=
  res ← fetch url;
  if ok res then lift (json res)
  else throw (ErrorMsg "Direct fetch failed").

(** The relay attempt: the body of the inner [try]. *)
Definition relay_attempt (url : string) : Net value :=
  let proxyUrl := PROXY_URL +:+ encodeURIComponent url in
  res ← fetch proxyUrl;
  if negb (ok res)
  then throw (ErrorMsg ("Proxy fetch failed: " +:+ statusText res))
  else
    proxyData ← lift (json res);
    contents ← lift (get_prop proxyData "contents");
    if truthy contents then
      lift (try_catch (JSON_parse (to_string contents))
                      (fun parseError => Ok contents))
    else throw (ErrorMsg "Proxy response missing contents").

Definition fetchWithFallback (url : string) : Net value :=
  net_try (direct_attempt url)
    (fun err =>
       net_try (relay_attempt url)
         (fun proxyErr => throw proxyErr)).

(** The specification's reading of the two attempts, on the responses
    alone.  The direct attempt fails on a transport error, on a non-success
    status, and when the body of a successful response is not JSON. *)
Definition direct_fails (direct : Exc Response) : bool :=
  match direct with
  | Throw _ => true
  | Ok res => negb (ok res) || negb (succeeds (json res))
  end.

(** What a direct attempt that does not fail returns: the parsed body. *)
Definition direct_outcome (direct : Exc Response) : Exc value :=
  res ← direct; json res.

(** What the relay attempt yields: the envelope's [contents] parsed as
    JSON, or raw when that parse fails; or the failure of the attempt
    (transport error, non-success status, an envelope that is not JSON or
    has no [contents]). *)
Definition relay_outcome (relay : Exc Response) : Exc value :=
  match relay with
  | Throw transportError => Throw transportError
  | Ok res =>
      if ok res then
        match json res with
        | Throw e => Throw e
        | Ok envelope =>
            match get_prop envelope "contents" with
            | Throw e => Throw e
            | Ok contents =>
                if truthy contents then
                  match JSON_parse (to_string contents) with
                  | Ok parsed => Ok parsed
                  | Throw _ => Ok contents
                  end
                else Throw (ErrorMsg "Proxy response missing contents")
            end
        end
      else Throw (ErrorMsg ("Proxy fetch failed: " +:+ statusText res))
  end.

(** [getExchangeSymbol]; [exchange] is the run-time string. *)
Definition getExchangeSymbol (symbol exchange : string) : string :=
  let s := toUpperCase symbol in
  if String.eqb exchange "Gate" then s +:+ "_USDT"
  else if String.eqb exchange "OKX" then s +:+ "-USDT"
  else s +:+ "USDT".

(** *** Ticker adapters *)

Definition mapBinanceTicker (data : value) : Exc TickerData :=
  symbol ← get_prop data "symbol";
  priceChange ← get_prop data "priceChange";
  priceChangePercent ← get_prop data "priceChangePercent";
  lastPrice ← get_prop data "lastPrice";
  highPrice ← get_prop data "highPrice";
  lowPrice ← get_prop data "lowPrice";
  quoteVolume ← get_prop data "quoteVolume";
  Ok (mkTicker symbol priceChange priceChangePercent lastPrice highPrice
        lowPrice quoteVolume Binance).

Definition mapBybitTicker (data : value) : Exc TickerData :=
  result ← get_prop data "result";
  list ← get_prop result "list";
  t ← get_index list 0;
  symbol ← get_prop t "symbol";
  prevPrice24h ← get_prop t "prevPrice24h";
  lastPrice ← get_prop t "lastPrice";
  let priceChange :=
    if truthy prevPrice24h
    then VStr (num_toString
                 (PrimFloat.sub (parseFloat lastPrice)
                                (parseFloat prevPrice24h)))
    else VStr "0" in
  price24hPcnt ← get_prop t "price24hPcnt";
  let priceChangePercent :=
    VStr (toFixed2 (PrimFloat.mul (parseFloat price24hPcnt) 100)) in
  highPrice24h ← get_prop t "highPrice24h";
  lowPrice24h ← get_prop t "lowPrice24h";
  turnover24h ← get_prop t "turnover24h";
  Ok (mkTicker symbol priceChange priceChangePercent lastPrice
        highPrice24h lowPrice24h turnover24h Bybit).

Definition mapMexcTicker (data : value) : Exc TickerData :=
  symbol ← get_prop data "symbol";
  priceChange ← get_prop data "priceChange";
  priceChangePercent ← get_prop data "priceChangePercent";
  lastPrice ← get_prop data "lastPrice";
  highPrice ← get_prop data "highPrice";
  lowPrice ← get_prop data "lowPrice";
  quoteVolume ← get_prop data "quoteVolume";
  Ok (mkTicker symbol priceChange priceChangePercent lastPrice highPrice
        lowPrice quoteVolume MEXC).

Definition mapGateTicker (data : value) : Exc TickerData :=
  currency_pair ← get_prop data "currency_pair";
  symbol ← value_remove_first "_" currency_pair;
  last ← get_prop data "last";
  change_percentage ← get_prop data "change_percentage";
  let priceChange :=
    VStr (toFixed2
            (PrimFloat.sub (parseFloat last)
               (PrimFloat.div (parseFloat last)
                  (PrimFloat.add 1
                     (PrimFloat.div (parseFloat change_percentage) 100)))))
  in
  high_24h ← get_prop data "high_24h";
  low_24h ← get_prop data "low_24h";
  quote_volume ← get_prop data "quote_volume";
  Ok (mkTicker symbol priceChange change_percentage last high_24h low_24h
        quote_volume Gate).

Definition mapOkxTicker (data : value) : Exc TickerData :=
  rows ← get_prop data "data";
  t ← get_index rows 0;
  last ← get_prop t "last";
  open24h ← get_prop t "open24h";
  let change := PrimFloat.sub (parseFloat last) (parseFloat open24h) in
  let percent :=
    PrimFloat.mul (PrimFloat.div change (parseFloat open24h)) 100 in
  instId ← get_prop t "instId";
  symbol ← value_remove_first "-" instId;
  high24h ← get_prop t "high24h";
  low24h ← get_prop t "low24h";
  volCcy24h ← get_prop t "volCcy24h";
  Ok (mkTicker symbol (VStr (num_toString change)) (VStr (toFixed2 percent))
        last high24h low24h volCcy24h OKX).

(** *** Individual fetchers *)

Definition fetchBinanceTicker (symbol : string) : Net TickerData :=
  let formatted := getExchangeSymbol symbol "Binance" in
  data ← fetchWithFallback
           (BINANCE_API +:+ "/ticker/24hr?symbol=" +:+ formatted);
  lift (mapBinanceTicker data).

Definition fetchBybitTicker (symbol : string) : Net TickerData :=
  let formatted := getExchangeSymbol symbol "Bybit" in
  data ← fetchWithFallback
           (BYBIT_API +:+ "/tickers?category=spot&symbol=" +:+ formatted);
  missing ← lift (
    retCode ← get_prop data "retCode";
    if negb (is_num retCode 0%float) then Ok true
    else
      result ← get_prop data "result";
      list ← get_prop result "list";
      if negb (truthy list) then Ok true
      else
        len ← get_prop list "length";
        Ok (is_num len 0%float));
  if missing : bool then throw (ErrorMsg "Bybit not found")
  else lift (mapBybitTicker data).

Definition fetchMexcTicker (symbol : string) : Net TickerData :=
  let formatted := getExchangeSymbol symbol "MEXC" in
  data ← fetchWithFallback
           (MEXC_API +:+ "/ticker/24hr?symbol=" +:+ formatted);
  sym ← lift (get_prop data "symbol");
  if negb (truthy sym) then throw (ErrorMsg "MEXC invalid data")
  else lift (mapMexcTicker data).

Definition fetchGateTicker (symbol : string) : Net TickerData :=
  let formatted := getExchangeSymbol symbol "Gate" in
  data ← fetchWithFallback
           (GATE_API +:+ "/spot/tickers?currency_pair=" +:+ formatted);
  missing ← lift (
    if negb (truthy data) then Ok true
    else len ← get_prop data "length"; Ok (is_num len 0%float));
  if missing : bool then throw (ErrorMsg "Gate not found")
  else
    first ← lift (get_index data 0);
    lift (mapGateTicker first).

Definition fetchOkxTicker (symbol : string) : Net TickerData :=
  let formatted := getExchangeSymbol symbol "OKX" in
  data ← fetchWithFallback
           (OKX_API +:+ "/ticker?instId=" +:+ formatted);
  missing ← lift (
    code ← get_prop data "code";
    if negb (is_str code "0") then Ok true
    else
      rows ← get_prop data "data";
      if negb (truthy rows) then Ok true
      else
        len ← get_prop rows "length";
        Ok (is_num len 0%float));
  if missing : bool then throw (ErrorMsg "OKX not found")
  else lift (mapOkxTicker data).

(** *** Public actions *)

Definition fetchTicker (symbol exchange : string) : Net TickerData :=
  if String.eqb exchange "Binance" then fetchBinanceTicker symbol
  else if String.eqb exchange "Bybit" then fetchBybitTicker symbol
  else if String.eqb exchange "MEXC" then fetchMexcTicker symbol
  else if String.eqb exchange "Gate" then fetchGateTicker symbol
  else if String.eqb exchange "OKX" then fetchOkxTicker symbol
  else throw (ErrorMsg "Unknown Exchange").

(** *** The probes of [fetchAvailableTickers]

    [Promise.allSettled] interleaves the five fetchers, so each is written
    once more as the sequence of its awaits: the same code as above, over
    [Task]. *)

Definition direct_attempt_task (url : string) : Task value :=
  res ← task_fetch url;
  if ok res then task_read (json res)
  else task_throw (ErrorMsg "Direct fetch failed").

Definition relay_attempt_task (url : string) : Task value :=
  let proxyUrl := PROXY_URL +:+ encodeURIComponent url in
  res ← task_fetch proxyUrl;
  if negb (ok res)
  then task_throw (ErrorMsg ("Proxy fetch failed: " +:+ statusText res))
  else
    proxyData ← task_read (json res);
    contents ← task_lift (get_prop proxyData "contents");
    if truthy contents then
      task_lift (try_catch (JSON_parse (to_string contents))
                           (fun parseError => Ok contents))
    else task_throw (ErrorMsg "Proxy response missing contents").

Definition fetchWithFallback_task (url : string) : Task value :=
  task_try (direct_attempt_task url)
    (fun err =>
       task_try (relay_attempt_task url)
         (fun proxyErr => task_throw proxyErr)).

Definition fetchBinanceTicker_task (symbol : string) : Task TickerData :=
  let formatted := getExchangeSymbol symbol "Binance" in
  data ← fetchWithFallback_task
           (BINANCE_API +:+ "/ticker/24hr?symbol=" +:+ formatted);
  task_lift (mapBinanceTicker data).

Definition fetchBybitTicker_task (symbol : string) : Task TickerData :=
  let formatted := getExchangeSymbol symbol "Bybit" in
  data ← fetchWithFallback_task
           (BYBIT_API +:+ "/tickers?category=spot&symbol=" +:+ formatted);
  missing ← task_lift (
    retCode ← get_prop data "retCode";
    if negb (is_num retCode 0%float) then Ok true
    else
      result ← get_prop data "result";
      list ← get_prop result "list";
      if negb (truthy list) then Ok true
      else
        len ← get_prop list "length";
        Ok (is_num len 0%float));
  if missing : bool then task_throw (ErrorMsg "Bybit not found")
  else task_lift (mapBybitTicker data).

Definition fetchMexcTicker_task (symbol : string) : Task TickerData :=
  let formatted := getExchangeSymbol symbol "MEXC" in
  data ← fetchWithFallback_task
           (MEXC_API +:+ "/ticker/24hr?symbol=" +:+ formatted);
  sym ← task_lift (get_prop data "symbol");
  if negb (truthy sym) then task_throw (ErrorMsg "MEXC invalid data")
  else task_lift (mapMexcTicker data).

Definition fetchGateTicker_task (symbol : string) : Task TickerData :=
  let formatted := getExchangeSymbol symbol "Gate" in
  data ← fetchWithFallback_task
           (GATE_API +:+ "/spot/tickers?currency_pair=" +:+ formatted);
  missing ← task_lift (
    if negb (truthy data) then Ok true
    else len ← get_prop data "length"; Ok (is_num len 0%float));
  if missing : bool then task_throw (ErrorMsg "Gate not found")
  else
    first ← task_lift (get_index data 0);
    task_lift (mapGateTicker first).

Definition fetchOkxTicker_task (symbol : string) : Task TickerData :=
  let formatted := getExchangeSymbol symbol "OKX" in
  data ← fetchWithFallback_task
           (OKX_API +:+ "/ticker?instId=" +:+ formatted);
  missing ← task_lift (
    code ← get_prop data "code";
    if negb (is_str code "0") then Ok true
    else
      rows ← get_prop data "data";
      if negb (truthy rows) then Ok true
      else
        len ← get_prop rows "length";
        Ok (is_num len 0%float));
  if missing : bool then task_throw (ErrorMsg "OKX not found")
  else task_lift (mapOkxTicker data).

(** The five probes, in the order [Promise.allSettled] receives them. *)
Definition ticker_probes (symbol : string) : list (Task TickerData) :=
  [ fetchBinanceTicker_task symbol;
    fetchBybitTicker_task symbol;
    fetchMexcTicker_task symbol;
    fetchGateTicker_task symbol;
    fetchOkxTicker_task symbol ].

(** [results.forEach(res => { if fulfilled, tickers.push(res.value) })]. *)
Fixpoint fulfilled {A} (results : list (Exc A)) : list A :=
  match results with
  | [] => []
  | Ok a :: rest => a :: fulfilled rest
  | Throw _ :: rest => fulfilled rest
  end.

(** [schedule] is the order in which the answers to the probes' requests
    arrive. *)
Definition fetchAvailableTickers (schedule : list nat) (symbol : string)
  : Net (list TickerData) :=
  results ← allSettled fetch_impl schedule (ticker_probes symbol);
  mret (fulfilled results).

(** *** Unified kline fetch *)

(** The row callbacks of the five [map] calls. *)
Definition binance_row (d : value) : Exc KlineData :=
  d0 ← get_index d 0; d1 ← get_index d 1; d2 ← get_index d 2;
  d3 ← get_index d 3; d4 ← get_index d 4; d5 ← get_index d 5;
  Ok (mkKline (as_number d0) (parseFloat d1) (parseFloat d2)
        (parseFloat d3) (parseFloat d4) (parseFloat d5)).

Definition bybit_row (d : value) : Exc KlineData :=
  d0 ← get_index d 0; d1 ← get_index d 1; d2 ← get_index d 2;
  d3 ← get_index d 3; d4 ← get_index d 4; d5 ← get_index d 5;
  Ok (mkKline (parseInt d0) (parseFloat d1) (parseFloat d2)
        (parseFloat d3) (parseFloat d4) (parseFloat d5)).

Definition gate_row (d : value) : Exc KlineData :=
  d0 ← get_index d 0; d5 ← get_index d 5; d3 ← get_index d 3;
  d4 ← get_index d 4; d2 ← get_index d 2; d1 ← get_index d 1;
  Ok (mkKline (PrimFloat.mul (parseInt d0) 1000) (parseFloat d5)
        (parseFloat d3) (parseFloat d4) (parseFloat d2) (parseFloat d1)).

Definition okx_row (d : value) : Exc KlineData :=
  d0 ← get_index d 0; d1 ← get_index d 1; d2 ← get_index d 2;
  d3 ← get_index d 3; d4 ← get_index d 4; d6 ← get_index d 6;
  Ok (mkKline (parseInt d0) (parseFloat d1) (parseFloat d2)
        (parseFloat d3) (parseFloat d4) (parseFloat d6)).

(** [if (!Array.isArray(v)) throw new Error(msg); return v.map(row)],
    over [v] reversed when the exchange sends the newest candle first. *)
Definition map_rows (msg : string) (newest_first : bool)
    (row : value -> Exc KlineData) (v : value) : Exc (list KlineData) :=
  match v with
  | VArr items => mapM row (if newest_first then reverse items else items)
  | _ => Throw (ErrorMsg msg)
  end.

Definition bybit_interval (interval : string) : string :=
  let bybitInterval := interval in
  let bybitInterval :=
    if ends_with "m" interval then remove_first "m" interval
    else bybitInterval in
  let bybitInterval :=
    if String.eqb interval "1h" then "60" else bybitInterval in
  let bybitInterval :=
    if String.eqb interval "4h" then "240" else bybitInterval in
  let bybitInterval :=
    if String.eqb interval "1d" then "D" else bybitInterval in
  let bybitInterval :=
    if String.eqb interval "1w" then "W" else bybitInterval in
  if String.eqb interval "1M" then "M" else bybitInterval.

Definition okx_interval (interval : string) : string :=
  let okxInterval := interval in
  let okxInterval :=
    if String.eqb interval "1h" then "1H" else okxInterval in
  let okxInterval :=
    if String.eqb interval "4h" then "4H" else okxInterval in
  if String.eqb interval "1d" then "1D" else okxInterval.

(** The [try] block of [fetchKlines]: [Some] is a [return] inside it,
    [None] is falling out of it (no branch matched [exchange]). *)
Definition fetchKlines_try (formattedSymbol interval : string) (limit : Z)
    (exchange : string) : Net (option (list KlineData)) :=
  if String.eqb exchange "Binance" then
    data ← fetchWithFallback
           (BINANCE_API +:+ "/klines?symbol=" +:+ formattedSymbol
            +:+ "&interval=" +:+ interval +:+ "&limit=" +:+ pretty limit);
    klines ← lift (map_rows "Invalid Binance Data" false binance_row data);
    mret (Some klines)
  else if String.eqb exchange "Bybit" then
    data ← fetchWithFallback
           (BYBIT_API +:+ "/kline?category=spot&symbol=" +:+ formattedSymbol
            +:+ "&interval=" +:+ bybit_interval interval
            +:+ "&limit=" +:+ pretty limit);
    klines ← lift (
      result ← get_prop data "result";
      list ← match result with
             | VUndefined | VNull => Ok VUndefined
             | _ => get_prop result "list"
             end;
      map_rows "Invalid Bybit Data" true bybit_row list);
    mret (Some klines)
  else if String.eqb exchange "MEXC" then
    data ← fetchWithFallback
           (MEXC_API +:+ "/klines?symbol=" +:+ formattedSymbol
            +:+ "&interval=" +:+ interval +:+ "&limit=" +:+ pretty limit);
    klines ← lift (map_rows "Invalid MEXC Data" false binance_row data);
    mret (Some klines)
  else if String.eqb exchange "Gate" then
    data ← fetchWithFallback
           (GATE_API +:+ "/spot/candlesticks?currency_pair="
            +:+ formattedSymbol
            +:+ "&interval=" +:+ interval +:+ "&limit=" +:+ pretty limit);
    klines ← lift (map_rows "Invalid Gate Data" false gate_row data);
    mret (Some klines)
  else if String.eqb exchange "OKX" then
    data ← fetchWithFallback
           (OKX_API +:+ "/candles?instId=" +:+ formattedSymbol
            +:+ "&bar=" +:+ okx_interval interval
            +:+ "&limit=" +:+ pretty limit);
    klines ← lift (
      rows ← get_prop data "data";
      if negb (truthy rows) then Throw (ErrorMsg "Invalid OKX Data")
      else map_rows "Invalid OKX Data" true okx_row rows);
    mret (Some klines)
  else mret None.

Definition fetchKlines (symbol interval : string) (limit : Z)
    (exchange : string) : Net (list KlineData) :=
  let formattedSymbol := getExchangeSymbol symbol exchange in
  r ← net_try (fetchKlines_try formattedSymbol interval limit exchange)
        (fun error => mret (Some []));
  match r with
  | Some klines => mret klines
  | None => mret []
  end.
End WithPlatform.

End Services.

(** ** Ticker resolution in [loadData] ([App.tsx]) *)

Module Orchestrator.
Import Net Services.

(** How the first half of [loadData] ends when it does not throw. *)
Inductive Resolution : Type :=
| Cancelled
    (* [if (abortController.signal.aborted) return] *)
| FastPath (targetExchange : ExchangeType) (currentTicker : TickerData)
| SlowPath (targetExchange : ExchangeType) (currentTicker : TickerData)
    (availableExchanges : list ExchangeType).

Section WithPlatform.
Context {World : Type} {platform : Platform World}.

(** [loadData] up to the choice of [targetExchange] and [currentTicker].
    [aborted] is the abort signal as read after the awaited fetch; a
    [Throw] reaches the outer [catch], which sets the status to [ERROR].
    The availability check the fast path starts without awaiting it only
    feeds the list of exchanges shown, and is left out.  [schedule] is the
    order in which the answers arrive on the slow path. *)
Definition loadData_resolve (schedule : list nat) (symbol : string)
    (forceExchange : option ExchangeType) (aborted : bool)
  : Net World Resolution :=
  let normalizedSymbol := toUpperCase symbol in
  let targetExchange := default Binance forceExchange in
  fast ← net_try
           (currentTicker ← fetchTicker normalizedSymbol
                              (exchange_name targetExchange);
            mret (Some currentTicker))
           (fun err =>
              match forceExchange with
              | Some _ => throw err
              | None => mret None
              end);
  match fast with
  | Some currentTicker =>
      if aborted then mret Cancelled
      else mret (FastPath targetExchange currentTicker)
  | None =>
      availableTickers ← fetchAvailableTickers schedule normalizedSymbol;
      if aborted then mret Cancelled
      else
        match availableTickers with
        | [] => throw (ErrorMsg "Not found")
        | first :: _ =>
            mret (SlowPath (exchange first) first
                    (map exchange availableTickers))
        end
  end.
End WithPlatform.

End Orchestrator.

(** ** What the indicator loops maintain *)

Module IndicatorInvariants.
Import Indicators.
Local Open Scope float_scope.

Section EMA.
Variable data : list KlineData.
Variable period : Z.

(** After [i] iterations of the loop of [calculateEMA]: one entry per
    iteration, [null] before index [period - 1] and a number from there on,
    the running [ema] being the last number pushed, and each number after
    the first obtained from the one before it by the smoothing step. *)
Definition ema_inv (i : nat) (st : number * list cell) : Prop :=
  let '(ema, arr) := st in
  length arr = i
  /\ (forall n, (n < i)%nat -> (Z.of_nat n < period - 1)%Z ->
        arr !! n = Some None)
  /\ (forall n, (n < i)%nat -> (period - 1 <= Z.of_nat n)%Z ->
        exists v, arr !! n = Some (Some v))
  /\ (forall n, i = S n -> (period - 1 <= Z.of_nat n)%Z ->
        arr !! n = Some (Some ema))
  /\ (forall n, (S n < i)%nat -> (period - 1 <= Z.of_nat n)%Z ->
        exists prev c,
          arr !! n = Some (Some prev) /\ data !! S n = Some c
          /\ arr !! S n =
             Some (Some (close c * ema_k period
                         + prev * (PrimFloat.one - ema_k period)))).
End EMA.

Section RSI.
Variable data : list KlineData.
Variable period : Z.

(** [data[i].close - data[i - 1].close] as a total function of [i]. *)
Definition close_diff (i : nat) : number :=
  match data !! i, data !! (i - 1)%nat with
  | Some c, Some prev => close c - close prev
  | _, _ => PrimFloat.nan
  end.

(** The gains, and the losses, of the changes at indices [1 .. n], added up
    from zero in that order. *)
Definition gain_sum (n : nat) : number :=
  fold_left (fun acc i => acc + rsi_gain (close_diff i)) (seq 1 n)
    PrimFloat.zero.

Definition loss_sum (n : nat) : number :=
  fold_left (fun acc i => acc + rsi_loss (close_diff i)) (seq 1 n)
    PrimFloat.zero.

(** Before iteration [i] of the second loop of [calculateRSI]. *)
Definition rsi_inv (i : nat) (st : number * number * list cell) : Prop :=
  let '(g, l, res) := st in
  length res = length data
  /\ ((Z.of_nat i <= period)%Z ->
        g = gain_sum (i - 1) /\ l = loss_sum (i - 1))
  /\ (forall n, (1 <= n < i)%nat -> (period <= Z.of_nat n)%Z ->
        exists v, res !! n = Some (Some v))
  /\ (forall n, (n < length data)%nat ->
        (i <= n)%nat \/ n = 0%nat \/ (Z.of_nat n < period)%Z ->
        res !! n = Some None)
  /\ (forall n, (1 <= n < i)%nat -> Z.of_nat n = period ->
        res !! n =
        Some (Some (rsi_value (gain_sum (n - 1) / num_of_Z period)
                              (loss_sum (n - 1) / num_of_Z period)))).
End RSI.

Section KDJ.
Variable period : Z.

(** The [D] value a defined index [n] smooths from: the entry before it, or
    the seed 50 when [n] is the first defined index. *)
Definition kdj_prev_D (Ds : list cell) (n : nat) : number :=
  match n with
  | O => 50
  | S m => if (period - 1 <=? Z.of_nat m)%Z then arr_num Ds m else 50
  end.

(** After [i] iterations of the loop of [calculateKDJ]. *)
Definition kdj_inv (i : nat) (st : KdjState) : Prop :=
  length (K st) = i /\ length (D st) = i /\ length (J st) = i
  /\ (forall n, (n < i)%nat -> (Z.of_nat n < period - 1)%Z ->
        K st !! n = Some None /\ D st !! n = Some None
        /\ J st !! n = Some None)
  /\ (forall n, (n < i)%nat -> (period - 1 <= Z.of_nat n)%Z ->
        exists kv dv,
          K st !! n = Some (Some kv) /\ D st !! n = Some (Some dv)
          /\ J st !! n = Some (Some (3 * kv - 2 * dv))
          /\ dv = (2 / 3) * kdj_prev_D (D st) n + (1 / 3) * kv)
  /\ (forall m, i = S m -> (period - 1 <= Z.of_nat m)%Z ->
        D st !! m = Some (Some (dValue st)))
  /\ ((forall n, (n < i)%nat -> (Z.of_nat n < period - 1)%Z) ->
        dValue st = 50).
End KDJ.

Section SAR.
Variable data : list KlineData.

(** Before tick [i] of the scan of [calculateSAR]: the array is as long as
    the series, filled below [i] and [null] from [i] on. *)
Definition sar_inv (i : nat) (st : SarState) : Prop :=
  length (sar st) = length data
  /\ (forall n, (n < i)%nat -> exists v, sar st !! n = Some (Some v))
  /\ (forall n, (i <= n < length data)%nat -> sar st !! n = Some None).
End SAR.

End IndicatorInvariants.

(** ** Top coins ([services/binanceService.ts], [fetchTopCoins]) *)

Module TopCoins.
Import Net Services.

(** [s.endsWith(suffix)]. *)
Definition string_ends_with (suffix s : string) : bool :=
  if (String.length s <? String.length suffix)%nat then false
  else String.eqb
         (substring (String.length s - String.length suffix)
            (String.length suffix) s)
         suffix.

(** The stablecoin pairs left out of the list. *)
Definition excluded_pairs : list string :=
  ["USDCUSDT"; "FDUSDUSDT"; "TUSDUSDT"; "USDPUSDT"; "DAIUSDT"].

(** The callback of [data.filter]: [t.symbol.endsWith('USDT')] throws when
    [t.symbol] is not a string. *)
Definition top_coin_filter (t : value) : Exc bool :=
  sym ← get_prop t "symbol";
  match sym with
  | VStr s =>
      Ok (string_ends_with "USDT" s
          && negb (existsb (String.eqb s) excluded_pairs))
  | _ => Throw TypeError
  end.

(** [items.filter(keep)] with a callback that may throw. *)
Fixpoint filterM {A} (keep : A -> Exc bool) (items : list A) : Exc (list A) :=
  match items with
  | [] => Ok []
  | x :: rest =>
      b ← keep x;
      kept ← filterM keep rest;
      Ok (if b : bool then x :: kept else kept)
  end.

Section WithPlatform.
Context {World : Type} {platform : Platform World}.
(** [Array.prototype.sort] with a comparator, left uninterpreted. *)
Variable Array_sort :
  (value -> value -> Exc number) -> list value -> Exc (list value).

(** The comparator [parseFloat(b.quoteVolume) - parseFloat(a.quoteVolume)]. *)
Definition by_volume_desc (a b : value) : Exc number :=
  vb ← get_prop b "quoteVolume";
  va ← get_prop a "quoteVolume";
  Ok (PrimFloat.sub (parseFloat vb) (parseFloat va)).

Definition fetchTopCoins : Net World (list TickerData) :=
  net_try
    (data ← fetchWithFallback (BINANCE_API +:+ "/ticker/24hr");
     match data with
     | VArr items =>
         filtered ← lift (filterM top_coin_filter items);
         sorted ← lift (Array_sort by_volume_desc filtered);
         lift (mapM mapBinanceTicker (take 50 sorted))
     | _ => mret []
     end)
    (fun error => mret []).
End WithPlatform.

End TopCoins.

(** ** The kline stream ([services/binanceStream.ts]) *)

Module Stream.
Import Net Services.

(** What the module does to the outside, in order. *)
Inductive Effect : Type :=
| Opened (id : nat) (url : string)       (* [new WebSocket(url)] *)
| Closed (id : nat)                      (* [ws.close()] *)
| Sent (id : nat) (payload : string)     (* [ws.send(payload)] *)
| TimerSet (timer : nat) (ms : Z)        (* [setInterval(..., ms)] *)
| TimerCleared (timer : nat)             (* [clearInterval(timer)] *)
| Delivered (candle : KlineData).        (* [callback(candle)] *)

(** What the handlers of a socket have captured. *)
Record Subscription : Type := mkSubscription {
  sub_exchange : string;
  sub_interval : string;
  sub_symbol : string
}.

(** The two module variables [ws] and [pingInterval] (a socket and a timer
    are named by the number the browser gave them), and the browser's side:
    the sockets created whose connection is neither closed nor lost, those
    of them that are open, the timers set and not cleared with the exchange
    whose ping they send, the next fresh number, and the effects so far,
    oldest first. *)
Record StreamState : Type := mkStreamState {
  ws : option nat;
  pingInterval : option nat;
  sockets : list (nat * Subscription);
  ready : list nat;
  timers : list (nat * string);
  next_id : nat;
  effects : list Effect
}.

Definition idle : StreamState :=
  {| ws := None; pingInterval := None; sockets := []; ready := [];
     timers := []; next_id := 1; effects := [] |}.

(** [clearInterval(timer)] and [socket.close()] on the browser's side. *)
Definition clear_timer (timer : nat) (st : StreamState) : StreamState :=
  {| ws := ws st; pingInterval := pingInterval st; sockets := sockets st;
     ready := ready st;
     timers := filter (fun e => negb (Nat.eqb (fst e) timer)) (timers st);
     next_id := next_id st;
     effects := effects st ++ [TimerCleared timer] |}.

Definition close_socket (id : nat) (st : StreamState) : StreamState :=
  {| ws := ws st; pingInterval := pingInterval st;
     sockets := filter (fun e => negb (Nat.eqb (fst e) id)) (sockets st);
     ready := filter (fun i => negb (Nat.eqb i id)) (ready st);
     timers := timers st; next_id := next_id st;
     effects := effects st ++ [Closed id] |}.

Definition closeWebSocket (st : StreamState) : StreamState :=
  let st1 :=
    match pingInterval st with
    | Some timer =>
        let st' := clear_timer timer st in
        {| ws := ws st'; pingInterval := None; sockets := sockets st';
           ready := ready st'; timers := timers st'; next_id := next_id st';
           effects := effects st' |}
    | None => st
    end in
  match ws st1 with
  | Some id =>
      let st' := close_socket id st1 in
      {| ws := None; pingInterval := pingInterval st'; sockets := sockets st';
         ready := ready st'; timers := timers st'; next_id := next_id st';
         effects := effects st' |}
  | None => st1
  end.

Definition unsubscribeKline (st : StreamState) : StreamState :=
  closeWebSocket st.

(** [ws = new WebSocket(url)], the handlers capturing [sub]. *)
Definition new_socket (url : string) (sub : Subscription) (st : StreamState)
  : StreamState :=
  let id := next_id st in
  {| ws := Some id; pingInterval := pingInterval st;
     sockets := sockets st ++ [(id, sub)]; ready := ready st;
     timers := timers st; next_id := S id;
     effects := effects st ++ [Opened id url] |}.

(** The interval tokens of the Bybit, MEXC and OKX streams. *)
Definition bybit_stream_interval (interval : string) : string :=
  let bybitInterval := interval in
  let bybitInterval :=
    if ends_with "m" interval then remove_first "m" interval
    else bybitInterval in
  let bybitInterval :=
    if String.eqb interval "1h" then "60" else bybitInterval in
  if String.eqb interval "1d" then "D" else bybitInterval.

Definition mexc_stream_interval (interval : string) : string :=
  let mexcInterval := "Min15" in
  let mexcInterval :=
    if String.eqb interval "1m" then "Min1" else mexcInterval in
  let mexcInterval :=
    if String.eqb interval "5m" then "Min5" else mexcInterval in
  let mexcInterval :=
    if String.eqb interval "15m" then "Min15" else mexcInterval in
  let mexcInterval :=
    if String.eqb interval "30m" then "Min30" else mexcInterval in
  let mexcInterval :=
    if String.eqb interval "1h" then "Min60" else mexcInterval in
  let mexcInterval :=
    if String.eqb interval "4h" then "Min240" else mexcInterval in
  if String.eqb interval "1d" then "Day1" else mexcInterval.

Definition okx_stream_interval (interval : string) : string :=
  let okxInterval := interval in
  let okxInterval :=
    if String.eqb interval "1h" then "1H" else okxInterval in
  let okxInterval :=
    if String.eqb interval "4h" then "4H" else okxInterval in
  if String.eqb interval "1d" then "1D" else okxInterval.

Section WithPlatform.
Context {World : Type} {platform : Platform World}.
(** More built-ins, left uninterpreted: [String.prototype.toLowerCase],
    [JSON.stringify], and the conversion to a number that [>] applies to a
    string or an object. *)
Variable toLowerCase : string -> string.
Variable JSON_stringify : value -> string.
Variable ToNumber : value -> number.

Definition subscribeToKline (symbol interval exchange : string)
    (st : StreamState) : StreamState :=
  let st := match ws st with Some _ => closeWebSocket st | None => st end in
  let formattedSymbol := getExchangeSymbol symbol exchange in
  let sub := mkSubscription exchange interval formattedSymbol in
  if String.eqb exchange "Binance" then
    let streamName :=
      toLowerCase formattedSymbol +:+ "@kline_" +:+ interval in
    new_socket ("wss://stream.binance.com:9443/ws/" +:+ streamName) sub st
  else if String.eqb exchange "Bybit" then
    new_socket "wss://stream.bybit.com/v5/public/spot" sub st
  else if String.eqb exchange "MEXC" then
    new_socket "wss://wbs.mexc.com/ws" sub st
  else if String.eqb exchange "Gate" then
    new_socket "wss://api.gateio.ws/ws/v4/" sub st
  else if String.eqb exchange "OKX" then
    new_socket "wss://ws.okx.com:8443/ws/v5/public" sub st
  else st.

(** [ws?.send(payload)] on the current socket: nothing without a socket, an
    [InvalidStateError] while the socket is still connecting, and nothing
    sent on a socket whose connection is gone. *)
Definition ws_send (payload : string) (st : StreamState)
  : StreamState * Exc unit :=
  match ws st with
  | None => (st, Ok tt)
  | Some id =>
      if existsb (Nat.eqb id) (ready st) then
        ({| ws := ws st; pingInterval := pingInterval st;
            sockets := sockets st; ready := ready st; timers := timers st;
            next_id := next_id st;
            effects := effects st ++ [Sent id payload] |}, Ok tt)
      else if existsb (fun e => Nat.eqb (fst e) id) (sockets st) then
        (st, Throw (ErrorMsg "InvalidStateError"))
      else (st, Ok tt)
  end.

(** [pingInterval = setInterval(ping, ms)], the ping being that of
    [exchange]. *)
Definition start_ping (exchange : string) (ms : Z) (st : StreamState)
  : StreamState :=
  let timer := next_id st in
  {| ws := ws st; pingInterval := Some timer; sockets := sockets st;
     ready := ready st; timers := timers st ++ [(timer, exchange)];
     next_id := S timer;
     effects := effects st ++ [TimerSet timer ms] |}.

(** The subscribe request an [onopen] handler sends; [now] is
    [Math.floor(Date.now() / 1000)] as the handler evaluates it. *)
Definition subscribe_payload (sub : Subscription) (now : number) : string :=
  let exchange := sub_exchange sub in
  if String.eqb exchange "Bybit" then
    JSON_stringify
      (VObj [("op", VStr "subscribe");
             ("args",
              VArr [VStr ("kline." +:+ bybit_stream_interval (sub_interval sub)
                          +:+ "." +:+ sub_symbol sub)])])
  else if String.eqb exchange "MEXC" then
    JSON_stringify
      (VObj [("method", VStr "SUBSCRIPTION");
             ("params",
              VArr [VStr ("spot@public.kline.v3.api@" +:+ sub_symbol sub
                          +:+ "@" +:+ mexc_stream_interval (sub_interval sub))])])
  else if String.eqb exchange "Gate" then
    JSON_stringify
      (VObj [("time", VNum now);
             ("channel", VStr "spot.candlesticks");
             ("event", VStr "subscribe");
             ("payload",
              VArr [VStr (sub_interval sub); VStr (sub_symbol sub)])])
  else
    JSON_stringify
      (VObj [("op", VStr "subscribe");
             ("args",
              VArr [VObj [("channel",
                           VStr ("candle"
                                 +:+ okx_stream_interval (sub_interval sub)));
                          ("instId", VStr (sub_symbol sub))]])]).

(** The period of the keep-alive timer of an exchange. *)
Definition ping_period (exchange : string) : Z :=
  if String.eqb exchange "Bybit" then 20000
  else if String.eqb exchange "MEXC" then 30000
  else if String.eqb exchange "Gate" then 30000
  else 20000.

(** The [onopen] handler of a socket subscribed with [sub]: the Binance
    branch sets none; the others send the request and, unless the send
    threw, start the keep-alive timer. *)
Definition onopen_handler (sub : Subscription) (now : number)
    (st : StreamState) : StreamState :=
  let exchange := sub_exchange sub in
  if String.eqb exchange "Binance" then st
  else
    match ws_send (subscribe_payload sub now) st with
    | (st1, Ok _) => start_ping exchange (ping_period exchange) st1
    | (st1, Throw _) => st1
    end.

(** The keep-alive message of an exchange. *)
Definition ping_payload (exchange : string) (now : number) : string :=
  if String.eqb exchange "Bybit" then
    JSON_stringify (VObj [("op", VStr "ping")])
  else if String.eqb exchange "MEXC" then
    JSON_stringify (VObj [("method", VStr "PING")])
  else if String.eqb exchange "Gate" then
    JSON_stringify (VObj [("time", VNum now); ("channel", VStr "spot.pong")])
  else "ping".

(** A tick of a keep-alive timer:
    [if (ws?.readyState === WebSocket.OPEN) ws.send(ping)]. *)
Definition ping_tick (exchange : string) (now : number) (st : StreamState)
  : StreamState :=
  match ws st with
  | Some id =>
      if existsb (Nat.eqb id) (ready st)
      then fst (ws_send (ping_payload exchange now) st)
      else st
  | None => st
  end.

(** [v.startsWith(prefix)] on a run-time value: only strings have the
    method. *)
Definition value_starts_with (prefix : string) (v : value) : Exc bool :=
  match v with
  | VStr s => Ok (String.prefix prefix s)
  | _ => Throw TypeError
  end.

(** [v > 0]. *)
Definition value_positive (v : value) : bool :=
  match v with
  | VNum n => gt n 0%float
  | VUndefined | VNull => false
  | VBool b => b
  | VStr _ | VArr _ | VObj _ => gt (ToNumber v) 0%float
  end.

(** The candle object the handlers build from the fields of [k]. *)
Definition candle_of (time_of : value -> number)
    (kt ko kh kl kc kv : string) (k : value) : Exc KlineData :=
  t ← get_prop k kt;
  o ← get_prop k ko;
  h ← get_prop k kh;
  l ← get_prop k kl;
  c ← get_prop k kc;
  v ← get_prop k kv;
  Ok (mkKline (time_of t) (parseFloat o) (parseFloat h) (parseFloat l)
        (parseFloat c) (parseFloat v)).

(** The [onmessage] handlers: the candle handed to the callback, if any. *)
Definition binance_message (data : string) : Exc (option KlineData) :=
  message ← JSON_parse data;
  e ← get_prop message "e";
  if is_str e "kline" then
    k ← get_prop message "k";
    candle ← candle_of as_number "t" "o" "h" "l" "c" "v" k;
    Ok (Some candle)
  else Ok None.

Definition bybit_message (data : string) : Exc (option KlineData) :=
  message ← JSON_parse data;
  topic ← get_prop message "topic";
  if negb (truthy topic) then Ok None
  else
    is_kline ← value_starts_with "kline" topic;
    if negb is_kline then Ok None
    else
      rows ← get_prop message "data";
      if negb (truthy rows) then Ok None
      else
        k ← get_index rows 0;
        candle ←
          candle_of as_number "start" "open" "high" "low" "close" "volume" k;
        Ok (Some candle).

Definition mexc_message (data : string) : Exc (option KlineData) :=
  message ← JSON_parse data;
  d ← get_prop message "d";
  if negb (truthy d) then Ok None
  else
    c ← get_prop message "c";
    if negb (truthy c) then Ok None
    else
      is_kline ← value_starts_with "spot@public.kline" c;
      if negb is_kline then Ok None
      else
        k ← get_prop d "k";
        candle ← candle_of as_number "t" "o" "h" "l" "c" "v" k;
        Ok (Some candle).

Definition gate_message (data : string) : Exc (option KlineData) :=
  message ← JSON_parse data;
  event ← get_prop message "event";
  if negb (is_str event "update") then Ok None
  else
    result ← get_prop message "result";
    if negb (truthy result) then Ok None
    else
      candle ←
        candle_of (fun t => PrimFloat.mul (parseInt t) 1000)
          "t" "o" "h" "l" "c" "v" result;
      Ok (Some candle).

Definition okx_message (data : string) : Exc (option KlineData) :=
  if String.eqb data "pong" then Ok None
  else
    message ← JSON_parse data;
    rows ← get_prop message "data";
    if negb (truthy rows) then Ok None
    else
      len ← get_prop rows "length";
      if negb (value_positive len) then Ok None
      else
        k ← get_index rows 0;
        candle ← candle_of parseInt "ts" "o" "h" "l" "c" "volCcy" k;
        Ok (Some candle).

Definition parse_message (exchange data : string)
  : Exc (option KlineData) :=
  if String.eqb exchange "Binance" then binance_message data
  else if String.eqb exchange "Bybit" then bybit_message data
  else if String.eqb exchange "MEXC" then mexc_message data
  else if String.eqb exchange "Gate" then gate_message data
  else okx_message data.

(** The [onmessage] handler of a socket subscribed with [sub]: the callback
    is called with the candle of the message, if it has one; a handler that
    throws has called nothing. *)
Definition onmessage_handler (sub : Subscription) (data : string)
    (st : StreamState) : StreamState :=
  match parse_message (sub_exchange sub) data with
  | Ok (Some candle) =>
      {| ws := ws st; pingInterval := pingInterval st;
         sockets := sockets st; ready := ready st; timers := timers st;
         next_id := next_id st;
         effects := effects st ++ [Delivered candle] |}
  | Ok None | Throw _ => st
  end.

(** What can happen to the module: a call of one of its two exports, the
    browser running one of its handlers, or a connection ending from the
    other side (no handler is set for that). *)
Inductive Event : Type :=
| Subscribe (symbol interval exchange : string)
| Unsubscribe
| SocketOpen (id : nat) (now : number)
| SocketLost (id : nat)
| Tick (timer : nat) (now : number)
| Message (id : nat) (data : string).

Definition lookup_id {A} (id : nat) (table : list (nat * A)) : option A :=
  snd <$> find (fun e => Nat.eqb (fst e) id) table.

(** One event.  The browser opens a socket once, and only one whose
    connection has not ended; it ticks only timers that are set; it delivers
    messages only on open sockets.  An event it cannot produce changes
    nothing. *)
Definition step (st : StreamState) (ev : Event) : StreamState :=
  match ev with
  | Subscribe symbol interval exchange =>
      subscribeToKline symbol interval exchange st
  | Unsubscribe => unsubscribeKline st
  | SocketOpen id now =>
      match lookup_id id (sockets st) with
      | Some sub =>
          if existsb (Nat.eqb id) (ready st) then st
          else
            onopen_handler sub now
              {| ws := ws st; pingInterval := pingInterval st;
                 sockets := sockets st; ready := ready st ++ [id];
                 timers := timers st; next_id := next_id st;
                 effects := effects st |}
      | None => st
      end
  | SocketLost id =>
      {| ws := ws st; pingInterval := pingInterval st;
         sockets := filter (fun e => negb (Nat.eqb (fst e) id)) (sockets st);
         ready := filter (fun i => negb (Nat.eqb i id)) (ready st);
         timers := timers st; next_id := next_id st;
         effects := effects st |}
  | Tick timer now =>
      match lookup_id timer (timers st) with
      | Some exchange => ping_tick exchange now st
      | None => st
      end
  | Message id data =>
      match lookup_id id (sockets st) with
      | Some sub =>
          if existsb (Nat.eqb id) (ready st)
          then onmessage_handler sub data st
          else st
      | None => st
      end
  end.

Definition run (events : list Event) (st : StreamState) : StreamState :=
  fold_left step events st.

(** What holds between the module variables and the browser's side after
    any run: the only socket still connected is the one [ws] names, the only
    timer set is the one [pingInterval] names, and a timer is set only after
    the socket [ws] names has opened. *)
Definition consistent (st : StreamState) : Prop :=
  match ws st with
  | Some id =>
      ((sockets st = [] /\ ready st = [])
       \/ (exists sub, sockets st = [(id, sub)])
          /\ (ready st = [] \/ ready st = [id]))
      /\ (id < next_id st)%nat
  | None => sockets st = [] /\ ready st = []
  end
  /\ match pingInterval st with
     | Some timer =>
         (exists exchange, timers st = [(timer, exchange)])
         /\ is_Some (ws st)
         /\ (sockets st = [] \/ ready st <> [])
         /\ (timer < next_id st)%nat
     | None => timers st = []
     end.
End WithPlatform.

End Stream.

(** ** Vocabulary of the service properties *)

Module ServiceVocabulary.
Import Net Services.

(** Whether [s] holds the character [ch]. *)
Fixpoint has_char (ch : ascii) (s : string) : bool :=
  match s with
  | EmptyString => false
  | String c s' => Ascii.eqb c ch || has_char ch s'
  end.

(** The requests a call added: [st'] has those of [st], then between [lo]
    and [hi] more. *)
Definition grows {World : Type} (lo hi : nat) (st st' : NetState World)
  : Prop :=
  exists new,
    requests st' = requests st ++ new /\ (lo <= length new <= hi)%nat.

(** A task that issues at most [n] requests from where it stands. *)
Fixpoint awaits_le {A} (n : nat) (t : Task A) {struct t} : Prop :=
  match t with
  | Settled _ => True
  | Awaiting _ resume =>
      match n with
      | O => False
      | S m => forall r, awaits_le m (resume r)
      end
  | Reading next => awaits_le n next
  end.

(** A suspended task that issues at most [c] requests after the one, if
    any, it is waiting on. *)
Definition owes {A} (c : nat) (t : Task A) : Prop :=
  match t with
  | Settled _ => True
  | Awaiting _ resume => forall r, awaits_le c (resume r)
  | Reading next => awaits_le c next
  end.

(** A task that, whatever the answers, settles with an outcome in [P]. *)
Fixpoint settles_with {A} (P : Exc A -> Prop) (t : Task A) : Prop :=
  match t with
  | Settled outcome => P outcome
  | Awaiting _ resume => forall r, settles_with P (resume r)
  | Reading next => settles_with P next
  end.

(** An outcome that, when it is a ticker, is one of the exchange [e]. *)
Definition tagged (e : ExchangeType) (r : Exc TickerData) : Prop :=
  forall t, r = Ok t -> exchange t = e.

(** The outcome of a task awaited on its own in the world [w]. *)
Definition outcome_alone {World : Type}
    (fetch_impl : World -> string -> World * Exc Response)
    {A} (w : World) (t : Task A) : Exc A :=
  snd (run_task fetch_impl t {| world := w; requests := [] |}).

(** A world whose answers do not depend on what was asked before. *)
Definition stateless {World : Type}
    (fetch_impl : World -> string -> World * Exc Response) : Prop :=
  forall w url, fst (fetch_impl w url) = w.

Section WithPlatform.
Context {World : Type} {platform : Platform World}.

(** The request of the historical candle batch, exchange by exchange; none
    for a name that is none of the five. *)
Definition klines_endpoint (symbol interval : string) (limit : Z)
    (exchange : string) : option string :=
  let pair := getExchangeSymbol symbol exchange in
  if String.eqb exchange "Binance" then
    Some (BINANCE_API +:+ "/klines?symbol=" +:+ pair
          +:+ "&interval=" +:+ interval +:+ "&limit=" +:+ pretty limit)
  else if String.eqb exchange "Bybit" then
    Some (BYBIT_API +:+ "/kline?category=spot&symbol=" +:+ pair
          +:+ "&interval=" +:+ bybit_interval interval
          +:+ "&limit=" +:+ pretty limit)
  else if String.eqb exchange "MEXC" then
    Some (MEXC_API +:+ "/klines?symbol=" +:+ pair
          +:+ "&interval=" +:+ interval +:+ "&limit=" +:+ pretty limit)
  else if String.eqb exchange "Gate" then
    Some (GATE_API +:+ "/spot/candlesticks?currency_pair=" +:+ pair
          +:+ "&interval=" +:+ interval +:+ "&limit=" +:+ pretty limit)
  else if String.eqb exchange "OKX" then
    Some (OKX_API +:+ "/candles?instId=" +:+ pair
          +:+ "&bar=" +:+ okx_interval interval
          +:+ "&limit=" +:+ pretty limit)
  else None.

(** The array of rows in a well-formed answer of the exchange: the answer
    itself, [result.list] for Bybit, [data] for OKX.  [None] is a malformed
    or non-array answer. *)
Definition klines_rows (exchange : string) (data : value)
  : option (list value) :=
  if String.eqb exchange "Bybit" then
    match get_prop data "result" with
    | Ok result =>
        match get_prop result "list" with
        | Ok (VArr rows) => Some rows
        | _ => None
        end
    | Throw _ => None
    end
  else if String.eqb exchange "OKX" then
    match get_prop data "data" with
    | Ok (VArr rows) => Some rows
    | _ => None
    end
  else
    match data with
    | VArr rows => Some rows
    | _ => None
    end.

(** The first requests of the five probes of [fetchAvailableTickers]: the
    direct ticker requests, in the order of the probes. *)
Definition probe_urls (symbol : string) : list string :=
  [ BINANCE_API +:+ "/ticker/24hr?symbol="
    +:+ getExchangeSymbol symbol "Binance";
    BYBIT_API +:+ "/tickers?category=spot&symbol="
    +:+ getExchangeSymbol symbol "Bybit";
    MEXC_API +:+ "/ticker/24hr?symbol=" +:+ getExchangeSymbol symbol "MEXC";
    GATE_API +:+ "/spot/tickers?currency_pair="
    +:+ getExchangeSymbol symbol "Gate";
    OKX_API +:+ "/ticker?instId=" +:+ getExchangeSymbol symbol "OKX" ].

(** The candle of a row, exchange by exchange. *)
Definition kline_row (exchange : string) : value -> Exc KlineData :=
  if String.eqb exchange "Bybit" then bybit_row
  else if String.eqb exchange "Gate" then gate_row
  else if String.eqb exchange "OKX" then okx_row
  else binance_row.
End WithPlatform.

End ServiceVocabulary.

(** ** The trend effect ([App.tsx]) *)

Module Trend.
Import Indicators.

Inductive Trend : Type := Up | Down.

(** The effect that follows every change of [klineData]: the new value of
    the [trend] state ([None] is its initial [null]).  [calculateSAR] is
    called with its default arguments; an entry read outside the array
    would be [undefined], which [!== null] lets through and [>] compares as
    NaN. *)
Definition trend_effect (klineData : list KlineData) (trend : option Trend)
  : Exc (option Trend) :=
  if (0 <? length klineData)%nat then
    sar ← calculateSAR klineData default_startAf default_maxAf;
    if (0 <? length sar)%nat then
      let lastSar := sar !! (length sar - 1)%nat in
      lastCandle ← at_index klineData (length klineData - 1);
      let lastClose := close lastCandle in
      match lastSar with
      | Some None => Ok trend
      | Some (Some v) => Ok (Some (if gt lastClose v then Up else Down))
      | None => Ok (Some (if gt lastClose PrimFloat.nan then Up else Down))
      end
    else Ok trend
  else Ok trend.

End Trend.

(** ** Sample series *)

Module Samples.

(** A candle at time [t] whose prices are all [px]. *)
Definition candle_at (t px : number) : KlineData :=
  mkKline t px px px px 1%float.
Arguments candle_at (t px)%_float.

(** [n] candles at times [0 .. n-1]. *)
Definition series (n : nat) : list KlineData :=
  map (fun i => candle_at (num_of_nat i) 1%float) (seq 0 n).

(** Fifteen candles closing at the same price. *)
Definition flat15 : list KlineData := replicate 15 (candle_at 0 10).

(** Four rising candles, then a fall through the stop, then a new low. *)
Definition rise_then_fall : list KlineData :=
  [ mkKline 0 10 12 9 11 1; mkKline 1 11 13 10 12 1; mkKline 2 12 14 11 13 1;
    mkKline 3 13 15 12 14 1; mkKline 4 14 16 5 6 1; mkKline 5 6 7 4 5 1 ]%float.

(** A world without state in which the direct ticker endpoint of OKX
    answers and every other request is rejected. *)
Definition okx_body : Net.value :=
  Net.VObj
    [ ("code", Net.VStr "0");
      ("data",
       Net.VArr
         [ Net.VObj
             [ ("instId", Net.VStr "BTC-USDT"); ("last", Net.VStr "2");
               ("open24h", Net.VStr "1"); ("high24h", Net.VStr "3");
               ("low24h", Net.VStr "1"); ("volCcy24h", Net.VStr "9") ] ]) ].

Definition only_okx : Services.Platform unit := {|
  Services.fetch_impl := fun w url =>
    if String.prefix Services.OKX_API url
    then (w, Ok (Net.mkResponse true "OK" (Ok okx_body)))
    else (w, Throw (NetworkError "Failed to fetch"));
  Services.encodeURIComponent := fun s => s;
  Services.JSON_parse := fun _ => Throw SyntaxError;
  Services.to_string := fun _ => "";
  Services.toUpperCase := fun s => s;
  Services.parseFloat := fun _ => PrimFloat.nan;
  Services.parseInt := fun _ => PrimFloat.nan;
  Services.num_toString := fun _ => "";
  Services.toFixed2 := fun _ => ""
|}.


(** The state before any request. *)
Definition fresh : Net.NetState unit :=
  {| Net.world := tt; Net.requests := [] |}.

(** Two kline rows, the first the later one, and a Gate ticker. *)
Definition two_rows : list Net.value :=
  [ Net.VArr [ Net.VNum 120000; Net.VStr "2"; Net.VStr "3"; Net.VStr "1";
               Net.VStr "2"; Net.VStr "9"; Net.VStr "18" ];
    Net.VArr [ Net.VNum 60000; Net.VStr "1"; Net.VStr "2"; Net.VStr "1";
               Net.VStr "2"; Net.VStr "7"; Net.VStr "14" ] ]%float.

Definition gate_ticker : Net.value :=
  Net.VObj
    [ ("currency_pair", Net.VStr "BTC_USDT"); ("last", Net.VStr "2");
      ("change_percentage", Net.VStr "1"); ("high_24h", Net.VStr "3");
      ("low_24h", Net.VStr "1"); ("quote_volume", Net.VStr "9") ].

(** A world without state in which Binance answers every request with the
    two rows, Bybit with the two rows under [result.list], and every other
    request is rejected. *)
Definition klines_world : Services.Platform unit := {|
  Services.fetch_impl := fun w url =>
    if String.prefix Services.BINANCE_API url
    then (w, Ok (Net.mkResponse true "OK" (Ok (Net.VArr two_rows))))
    else if String.prefix Services.BYBIT_API url
    then (w, Ok (Net.mkResponse true "OK"
                   (Ok (Net.VObj
                          [("result",
                            Net.VObj [("list", Net.VArr two_rows)])]))))
    else (w, Throw (NetworkError "Failed to fetch"));
  Services.encodeURIComponent := fun s => s;
  Services.JSON_parse := fun _ => Throw SyntaxError;
  Services.to_string := fun _ => "";
  Services.toUpperCase := fun s => s;
  Services.parseFloat := fun _ => PrimFloat.nan;
  Services.parseInt := Net.as_number;
  Services.num_toString := fun _ => "";
  Services.toFixed2 := fun _ => ""
|}.

(** A Bybit ticker answer. *)
Definition bybit_body : Net.value :=
  Net.VObj
    [ ("retCode", Net.VNum 0);
      ("result",
       Net.VObj
         [ ("list",
            Net.VArr
              [ Net.VObj
                  [ ("symbol", Net.VStr "btcUSDT");
                    ("lastPrice", Net.VStr "2");
                    ("prevPrice24h", Net.VStr "1");
                    ("price24hPcnt", Net.VStr "1");
                    ("highPrice24h", Net.VStr "3");
                    ("lowPrice24h", Net.VStr "1");
                    ("turnover24h", Net.VStr "9") ] ]) ]) ]%float.

(** A world without state in which the direct ticker endpoints of Bybit
    and OKX answer and every other request is rejected. *)
Definition bybit_and_okx : Services.Platform unit := {|
  Services.fetch_impl := fun w url =>
    if String.prefix Services.BYBIT_API url
    then (w, Ok (Net.mkResponse true "OK" (Ok bybit_body)))
    else if String.prefix Services.OKX_API url
    then (w, Ok (Net.mkResponse true "OK" (Ok okx_body)))
    else (w, Throw (NetworkError "Failed to fetch"));
  Services.encodeURIComponent := fun s => s;
  Services.JSON_parse := fun _ => Throw SyntaxError;
  Services.to_string := fun _ => "";
  Services.toUpperCase := fun s => s;
  Services.parseFloat := fun _ => PrimFloat.nan;
  Services.parseInt := fun _ => PrimFloat.nan;
  Services.num_toString := fun _ => "";
  Services.toFixed2 := fun _ => ""
|}.

(** A world whose state counts the requests answered: only the first two
    answers carry a ticker, whatever is asked. *)
Definition first_two_answered : Services.Platform nat := {|
  Services.fetch_impl := fun w url =>
    if (w <? 2)%nat
    then (S w, Ok (Net.mkResponse true "OK"
                     (Ok (Net.VObj [("symbol", Net.VStr "btcUSDT")]))))
    else (S w, Throw (NetworkError "Failed to fetch"));
  Services.encodeURIComponent := fun s => s;
  Services.JSON_parse := fun _ => Throw SyntaxError;
  Services.to_string := fun _ => "";
  Services.toUpperCase := fun s => s;
  Services.parseFloat := fun _ => PrimFloat.nan;
  Services.parseInt := fun _ => PrimFloat.nan;
  Services.num_toString := fun _ => "";
  Services.toFixed2 := fun _ => ""
|}.

End Samples.

(** * Properties *)

(** ** Order of numbers *)

Module NumberOrder.

Lemma SFltb_trans (a b c : spec_float) :
  SFltb a b = true -> SFltb b c = true -> SFltb a c = true.
Proof.
  unfold SFltb.
  destruct a as [sa|sa| |sa ma ea], b as [sb|sb| |sb mb eb],
           c as [sc|sc| |sc mc ec];
    cbn; try discriminate; try reflexivity;
    repeat match goal with s : bool |- _ => destruct s end;
    cbn; try discriminate; try reflexivity;
    change (Pos.compare_cont Eq) with Pos.compare;
    destruct (Z.compare_spec ea eb), (Z.compare_spec eb ec),
             (Z.compare_spec ea ec);
      subst; try lia; try discriminate; try reflexivity;
    destruct (Pos.compare_spec ma mb), (Pos.compare_spec mb mc),
             (Pos.compare_spec ma mc);
      subst; cbn; try lia; try discriminate; try reflexivity.
Qed.

Lemma SFltb_SFeqb (a b c : spec_float) :
  SFltb a b = true -> SFeqb c b = true -> SFltb a c = true.
Proof.
  unfold SFltb, SFeqb.
  destruct a as [sa|sa| |sa ma ea], b as [sb|sb| |sb mb eb],
           c as [sc|sc| |sc mc ec];
    cbn; try discriminate; try reflexivity;
    repeat match goal with s : bool |- _ => destruct s end;
    cbn; try discriminate; try reflexivity;
    change (Pos.compare_cont Eq) with Pos.compare;
    destruct (Z.compare_spec ea eb), (Z.compare_spec ec eb),
             (Z.compare_spec ea ec);
      subst; try lia; try discriminate; try reflexivity;
    destruct (Pos.compare_spec ma mb), (Pos.compare_spec mc mb),
             (Pos.compare_spec ma mc);
      subst; cbn; try lia; try discriminate; try reflexivity.
Qed.

(** [<] on numbers is transitive. *)
Lemma lt_trans (a b c : number) :
  lt a b = true -> lt b c = true -> lt a c = true.
Proof. unfold lt. rewrite !FloatAxioms.ltb_spec. apply SFltb_trans. Qed.

(** What is below [b] is below every number [===] to [b]. *)
Lemma lt_strict_eq (a b c : number) :
  lt a b = true -> strict_eq c b = true -> lt a c = true.
Proof.
  unfold lt, strict_eq.
  rewrite !FloatAxioms.ltb_spec, FloatAxioms.eqb_spec. apply SFltb_SFeqb.
Qed.

End NumberOrder.

(** ** Loops and array reads *)

Module LoopFacts.

Lemma at_index_lookup data i c : data !! i = Some c -> at_index data i = Ok c.
Proof. unfold at_index. intros ->. reflexivity. Qed.

(** A read inside the array does not throw. *)
Lemma at_index_in_range data i :
  (i < length data)%nat ->
  exists c, data !! i = Some c /\ at_index data i = Ok c.
Proof.
  intros Hi. destruct (lookup_lt_is_Some_2 data i Hi) as [c Hc].
  exists c. split; [exact Hc | apply at_index_lookup, Hc].
Qed.

(** The last iteration of a loop, split off. *)
Lemma for_loop_snoc {St} (body : nat -> St -> Exc St) n : forall start s,
  for_loop body start (S n) s =
  JS.bind (for_loop body start n s) (body (start + n)%nat).
Proof.
  induction n as [|n IH]; intros start s.
  - cbn. rewrite Nat.add_0_r. destruct (body start s); reflexivity.
  - cbn [for_loop].
    destruct (body start s) as [s1|e]; cbn [JS.bind]; [|reflexivity].
    specialize (IH (S start) s1). cbn [for_loop] in IH. rewrite IH.
    replace (S start + n)%nat with (start + S n)%nat by lia.
    reflexivity.
Qed.

(** A loop whose body returns on every index it visits, carrying an
    invariant from each index to the next, returns with the invariant. *)
Lemma for_loop_total {St} (P : nat -> St -> Prop) (body : nat -> St -> Exc St)
    n :
  forall start s,
    (forall i s0, (start <= i < start + n)%nat -> P i s0 ->
                  exists s1, body i s0 = Ok s1 /\ P (S i) s1) ->
    P start s ->
    exists s', for_loop body start n s = Ok s' /\ P (start + n)%nat s'.
Proof.
  induction n as [|n IH]; intros start s Hbody Hs.
  - exists s. rewrite Nat.add_0_r. split; [reflexivity | exact Hs].
  - destruct (Hbody start s) as (s1 & H1 & HP1); [lia | exact Hs |].
    destruct (IH (S start) s1) as (s' & Hl & HP'); [|exact HP1|].
    + intros i s0 Hi. apply Hbody. lia.
    + exists s'. cbn [for_loop]. rewrite H1.
      replace (start + S n)%nat with (S start + n)%nat by lia.
      split; [exact Hl | exact HP'].
Qed.

Lemma length_arr_set i v arr :
  (i < length arr)%nat -> length (arr_set i v arr) = length arr.
Proof.
  intros Hi. unfold arr_set.
  replace (i <? length arr)%nat with true by (symmetry; apply Nat.ltb_lt, Hi).
  apply length_insert.
Qed.

End LoopFacts.

(** ** The indicator engine *)

Module IndicatorFacts.
Import Indicators Samples LoopFacts.

(** *** EMA *)

Lemma ema_sum_loop data n : forall start acc,
  (start + n <= length data)%nat ->
  for_loop (ema_sum_body data) start n acc =
  Ok (fold_left PrimFloat.add (map close (take n (drop start data))) acc).
Proof.
  induction n as [|n IH]; intros start acc Hlen.
  - reflexivity.
  - destruct (at_index_in_range data start) as (c & Hc & Hat); [lia|].
    cbn [for_loop]. unfold ema_sum_body at 1. rewrite Hat.
    cbn [JS.bind mbind Exc_bind].
    rewrite IH by lia.
    rewrite (drop_S _ _ _ Hc). reflexivity.
Qed.

(** An iteration inside the series pushes one entry; at [i = period - 1]
    the entry is the mean of the first [period] closes. *)
Lemma ema_body_push data p i ema arr :
  (i < length data)%nat ->
  exists ema' x,
    ema_body data p i (ema, arr) = Ok (ema', arr ++ [x]) /\
    (Z.of_nat i = (p - 1)%Z -> x = Some (mean_closes data p)).
Proof.
  intros Hi. unfold ema_body.
  destruct (at_index_in_range data i Hi) as (c & Hc & Hat).
  destruct (Z.ltb_spec (Z.of_nat i) (p - 1)).
  - rewrite Hat. cbn. eexists _, _. split; [reflexivity | lia].
  - destruct (Z.eqb_spec (Z.of_nat i) (p - 1)) as [Heq|Hne].
    + rewrite ema_sum_loop by (cbn; lia). cbn [JS.bind mbind Exc_bind].
      eexists _, _. split; [reflexivity|]. intros _.
      unfold mean_closes. rewrite drop_0.
      replace (Z.to_nat p) with (S i) by lia. reflexivity.
    + rewrite Hat. cbn. eexists _, _. split; [reflexivity | lia].
Qed.

Lemma ema_loop_pushes data p n : forall start ema arr,
  (start + n <= length data)%nat ->
  exists ema' suffix,
    for_loop (ema_body data p) start n (ema, arr) = Ok (ema', arr ++ suffix) /\
    length suffix = n /\
    forall k, (k < n)%nat -> Z.of_nat (start + k) = (p - 1)%Z ->
              suffix !! k = Some (Some (mean_closes data p)).
Proof.
  induction n as [|n IH]; intros start ema arr Hlen.
  - exists ema, []. rewrite app_nil_r.
    split; [reflexivity | split; [reflexivity | intros; lia]].
  - destruct (ema_body_push data p start ema arr)
      as (ema1 & x & Hbody & Hx); [lia|].
    destruct (IH (S start) ema1 (arr ++ [x]))
      as (ema2 & suffix & Hloop & Hlen' & Hk); [lia|].
    exists ema2, (x :: suffix). cbn [for_loop]. rewrite Hbody. cbn [JS.bind].
    rewrite Hloop, <- app_assoc.
    split; [reflexivity | split].
    + cbn. lia.
    + intros [|k] Hlt Hidx; cbn.
      * rewrite Hx; [reflexivity | lia].
      * apply Hk; lia.
Qed.

(** C6: for a period [p >= 1] and a series of at least [p] candles,
    [calculateEMA] returns one entry per candle, and the entry at index
    [p - 1] is the arithmetic mean of the first [p] closes. *)
Theorem calculateEMA_seed_is_mean (data : list KlineData) (p : Z) :
  (1 <= p)%Z -> (p <= Z.of_nat (length data))%Z ->
  exists out,
    calculateEMA data p = Ok out /\
    length out = length data /\
    out !! Z.to_nat (p - 1) = Some (Some (mean_closes data p)).
Proof.
  intros Hp Hlen. unfold calculateEMA.
  destruct (at_index_in_range data 0) as (c0 & _ & Hat); [lia|].
  rewrite Hat. cbn [mbind Exc_bind JS.bind].
  destruct (ema_loop_pushes data p (length data) 0 (close c0) [])
    as (ema' & suffix & Hloop & Hl & Hk); [lia|].
  rewrite Hloop. cbn. exists suffix.
  split; [reflexivity | split; [exact Hl|]].
  apply Hk; lia.
Qed.

Lemma calculateEMA_seed_is_mean_witness :
  exists out,
    calculateEMA rise_then_fall 3 = Ok out /\
    length out = length rise_then_fall /\
    out !! 2%nat = Some (Some (mean_closes rise_then_fall 3)).
Proof.
  apply (calculateEMA_seed_is_mean rise_then_fall 3); cbn; lia.
Defined.

(** *** Empty input *)

(** [calculateEMA] reads [data[0].close] before its loop, so on the empty
    sequence it throws a [TypeError] whatever the period. *)
Lemma calculateEMA_empty_throws (period : Z) :
  calculateEMA [] period = Throw TypeError.
Proof. reflexivity. Qed.





(** *** RSI *)

(** C2: on fifteen candles closing at the same price, with the default
    period, both averages are zero and the entry at index 14 is [0 / 0]
    carried through the formula: NaN, which is neither 100 nor inside
    [0, 100]. *)
Theorem calculateRSI_flat_is_nan :
  exists v,
    calculateRSI flat15 14 = Ok (replicate 14 None ++ [Some v])
    /\ PrimFloat.is_nan v = true
    /\ PrimFloat.eqb v 100 = false
    /\ PrimFloat.leb 0 v = false
    /\ PrimFloat.leb v 100 = false.
Proof. exists PrimFloat.nan. repeat split; vm_compute; reflexivity. Qed.

(** With gains and no losses the division by zero gives infinity and the
    formula does reach 100. *)
Lemma calculateRSI_rising_is_100 :
  calculateRSI (map (fun i => candle_at 0 (num_of_nat i)) (seq 1 4)) 2
  = Ok [None; None; Some 100%float; Some 100%float].
Proof. vm_compute. reflexivity. Qed.

(** *** Parabolic SAR *)




Section Scan.
Variable data : list KlineData.
Variables startAf maxAf : number.

Lemma sar_clamped_ok i st :
  (1 <= i < length data)%nat ->
  exists newSar, sar_clamped data i st = Ok newSar.
Proof.
  intros Hi. unfold sar_clamped.
  destruct (at_index_in_range data (i - 1)) as (c1 & _ & H1); [lia|].
  rewrite H1. cbn [mbind Exc_bind JS.bind].
  destruct (1 <? i)%nat eqn:Hgt.
  - destruct (at_index_in_range data (i - 2)) as (c2 & _ & H2); [lia|].
    rewrite H2. cbn [mbind Exc_bind JS.bind].
    destruct (isUptrend st); eexists; reflexivity.
  - cbn [mbind Exc_bind JS.bind].
    destruct (isUptrend st); eexists; reflexivity.
Qed.



Lemma sar_scan_succ n :
  sar_scan data startAf maxAf (S n) =
  JS.bind (sar_scan data startAf maxAf n) (sar_body data startAf maxAf (S n)).
Proof.
  unfold sar_scan. destruct (sar_init data startAf) as [st0|e]; [|reflexivity].
  cbn [mbind Exc_bind JS.bind]. rewrite for_loop_snoc. reflexivity.
Qed.
End Scan.


(** With five candles or more [calculateSAR] is its scan run to the end. *)
Lemma calculateSAR_is_scan data startAf maxAf :
  (5 <= length data)%nat ->
  calculateSAR data startAf maxAf =
  (st ← sar_scan data startAf maxAf (length data - 1); Ok (sar st)).
Proof.
  intros Hlen. unfold calculateSAR.
  replace (length data =? 0)%nat with false
    by (symmetry; apply Nat.eqb_neq; lia).
  replace (length data <? 5)%nat with false
    by (symmetry; apply Nat.ltb_ge; lia).
  reflexivity.
Qed.



(** *** Totality *)

(** Apart from [calculateEMA] on the empty sequence, the four functions
    return on every sequence, with one entry per candle. *)




Lemma at_indexZ_ok data z :
  (0 <= z < Z.of_nat (length data))%Z -> exists c, at_indexZ data z = Ok c.
Proof.
  intros Hz. unfold at_indexZ.
  replace (z <? 0)%Z with false by (symmetry; apply Z.ltb_ge; lia).
  destruct (at_index_in_range data (Z.to_nat z)) as (c & _ & Hc); [lia|].
  eauto.
Qed.

Lemma kdj_window_ok data p i lo hi :
  (i < length data)%nat -> (p - 1 <= Z.of_nat i)%Z ->
  exists w, for_loop (kdj_window_body data i) 0 (Z.to_nat p) (lo, hi) = Ok w.
Proof.
  intros Hi Hp.
  destruct (for_loop_total (fun _ _ => True) (kdj_window_body data i)
              (Z.to_nat p) 0 (lo, hi)) as (w & Hw & _); [|exact I|eauto].
  intros jj [lo0 hi0] Hj _. unfold kdj_window_body.
  destruct (at_indexZ_ok data (Z.of_nat i - Z.of_nat jj)) as [c Hc]; [lia|].
  rewrite Hc. eexists. split; [reflexivity | exact I].
Qed.




(** *** Totality *)



End IndicatorFacts.

(** ** The candle series *)

Module CandleSeriesFacts.
Import CandleSeries Samples NumberOrder.

Lemma all_later_Forall t l :
  all_later t l = true <-> Forall (fun c => lt t (time c) = true) l.
Proof.
  induction l as [|c l IH]; cbn.
  - split; [constructor | reflexivity].
  - rewrite andb_true_iff, IH, Forall_cons. reflexivity.
Qed.

(** A series stays increasing under a candle at its end exactly when the
    candle is later than all of it. *)
Lemma increasing_snoc l c :
  increasing (l ++ [c]) = true <->
  increasing l = true /\ Forall (fun x => lt (time x) (time c) = true) l.
Proof.
  induction l as [|x l IH]; cbn.
  - split; [intros _; split; [reflexivity | constructor] | reflexivity].
  - rewrite !andb_true_iff, IH, !all_later_Forall, Forall_app, !Forall_cons,
      Forall_nil.
    unfold lt. tauto.
Qed.

Lemma increasing_drop l n : increasing l = true -> increasing (drop n l) = true.
Proof.
  revert n; induction l as [|x l IH]; intros [|n]; cbn; auto.
  rewrite andb_true_iff. intros [_ H]. apply IH, H.
Qed.

(** [mergeOne] on a series seen from its last candle. *)
Lemma mergeOne_snoc init lastCandle c :
  mergeOne (init ++ [lastCandle]) c =
  if strict_eq (time c) (time lastCandle) then init ++ [c]
  else if (500 <? length (init ++ [lastCandle]))%nat
       then drop 1 (init ++ [lastCandle]) ++ [c]
       else (init ++ [lastCandle]) ++ [c].
Proof.
  unfold mergeOne.
  rewrite length_app; cbn [length].
  replace (length init + 1 =? 0)%nat with false
    by (symmetry; apply Nat.eqb_neq; lia).
  replace (length init + 1 - 1)%nat with (length init) by lia.
  rewrite list_lookup_middle by reflexivity.
  rewrite take_app_length. reflexivity.
Qed.

(** A series with a last candle is that candle after the rest. *)
Lemma last_candle_split (s : list KlineData) lastCandle :
  s !! (length s - 1)%nat = Some lastCandle ->
  s = take (length s - 1) s ++ [lastCandle].
Proof.
  destruct s as [|x init _] using rev_ind; [discriminate|].
  rewrite length_app; cbn [length].
  replace (length init + 1 - 1)%nat with (length init) by lia.
  rewrite list_lookup_middle by reflexivity.
  intros [= ->]. rewrite take_app_length. reflexivity.
Qed.

(** C10: a candle streamed while the series is empty is discarded; the
    series stays empty. *)
Theorem mergeOne_empty_discards (newCandle : KlineData) :
  mergeOne [] newCandle = [].
Proof. reflexivity. Qed.

(** C1, as stated, fails twice: a candle streamed into the empty series is
    not appended, and a candle with a new time streamed into a series of
    500 candles is appended without eviction, leaving 501. *)
Lemma mergeOne_cap_counterexample :
  mergeOne [] (candle_at 0 1) = []
  /\ length (series 500) = 500%nat
  /\ length (mergeOne (series 500) (candle_at 500 1)) = 501%nat.
Proof. repeat split; vm_compute; reflexivity. Qed.

(** C1, amended: an empty series is left as it is; on a series with a last
    candle, an incoming candle of the same time replaces it (length
    unchanged), and one of another time is appended (length + 1) as long as
    the series holds fewer than 500 candles. *)
Theorem mergeOne_replace_or_append (s : list KlineData) (c : KlineData) :
  (s = [] -> mergeOne s c = [])
  /\ (forall lastCandle,
        s !! (length s - 1)%nat = Some lastCandle ->
        strict_eq (time c) (time lastCandle) = true ->
        mergeOne s c = take (length s - 1) s ++ [c]
        /\ length (mergeOne s c) = length s)
  /\ (forall lastCandle,
        s !! (length s - 1)%nat = Some lastCandle ->
        strict_eq (time c) (time lastCandle) = false ->
        (length s < 500)%nat ->
        mergeOne s c = s ++ [c]
        /\ length (mergeOne s c) = S (length s)).
Proof.
  split; [intros ->; reflexivity|].
  split; intros lastCandle Hlast Htime.
  - pose proof (last_candle_split s lastCandle Hlast) as Hs.
    assert (Hm : mergeOne s c = take (length s - 1) s ++ [c]).
    { rewrite Hs at 1. rewrite mergeOne_snoc, Htime. reflexivity. }
    split; [exact Hm|].
    pose proof (lookup_lt_Some _ _ _ Hlast) as Hlen.
    rewrite Hm, length_app, length_take. cbn. lia.
  - intros Hcap.
    pose proof (last_candle_split s lastCandle Hlast) as Hs.
    assert (Hm : mergeOne s c = s ++ [c]).
    { rewrite Hs at 1. rewrite mergeOne_snoc, Htime, <- Hs.
      replace (500 <? length s)%nat with false
        by (symmetry; apply Nat.ltb_ge; lia).
      reflexivity. }
    split; [exact Hm|].
    rewrite Hm, length_app. cbn. lia.
Qed.

Lemma mergeOne_replace_or_append_witness :
  mergeOne (series 3) (candle_at 2 7) = take 2 (series 3) ++ [candle_at 2 7]
  /\ mergeOne (series 3) (candle_at 3 7) = series 3 ++ [candle_at 3 7].
Proof.
  split.
  - apply (proj1 (proj2 (mergeOne_replace_or_append (series 3) (candle_at 2 7)))
             (candle_at 2 1)); reflexivity.
  - apply (proj2 (proj2 (mergeOne_replace_or_append (series 3) (candle_at 3 7)))
             (candle_at 2 1)); [reflexivity | reflexivity | cbn; lia].
Defined.

(** C4, as stated, fails: nothing orders what arrives.  A streamed candle
    older than the last one is appended after it, and a fetched batch is
    stored in the order received. *)
Lemma series_order_counterexample :
  increasing (series 2) = true
  /\ increasing (mergeOne (series 2) (candle_at 0 1)) = false
  /\ increasing (replaceAll (series 2) [candle_at 1 1; candle_at 0 1]) = false.
Proof. repeat split; vm_compute; reflexivity. Qed.

(** C4, amended: the bulk replace stores the fetched batch as it is,
    whatever the series held, so that the series is increasing exactly when
    the batch is; and [mergeOne] keeps a series increasing whenever the
    streamed candle is not older than the last one stored (later, or of the
    same time). *)
Theorem series_order_preserved (s klines : list KlineData) (c : KlineData) :
  replaceAll s klines = klines
  /\ increasing (replaceAll s klines) = increasing klines
  /\ (increasing s = true ->
      (forall lastCandle,
         s !! (length s - 1)%nat = Some lastCandle ->
         lt (time lastCandle) (time c) = true
         \/ strict_eq (time c) (time lastCandle) = true) ->
      increasing (mergeOne s c) = true).
Proof.
  split; [reflexivity|]. split; [reflexivity|].
  intros Hinc Horder.
  destruct s as [|x init _] using rev_ind; [reflexivity|].
  specialize (Horder x).
  rewrite length_app in Horder; cbn [length] in Horder.
  replace (length init + 1 - 1)%nat with (length init) in Horder by lia.
  rewrite list_lookup_middle in Horder by reflexivity.
  specialize (Horder eq_refl).
  rewrite mergeOne_snoc.
  pose proof Hinc as Hinc'.
  apply increasing_snoc in Hinc' as [Hinit Hall].
  destruct (strict_eq (time c) (time x)) eqn:Heq.
  - apply increasing_snoc. split; [exact Hinit|].
    eapply Forall_impl; [exact Hall|]. cbn. intros y Hy.
    eapply lt_strict_eq; eauto.
  - destruct Horder as [Hlt | Hc]; [|discriminate].
    assert (Hfull : Forall (fun y => lt (time y) (time c) = true) (init ++ [x])).
    { apply Forall_app. split.
      - eapply Forall_impl; [exact Hall|]. cbn. intros y Hy.
        eapply lt_trans; eauto.
      - apply Forall_singleton. exact Hlt. }
    destruct (500 <? length (init ++ [x]))%nat.
    + apply increasing_snoc. split.
      * apply increasing_drop, Hinc.
      * apply Forall_drop, Hfull.
    + apply increasing_snoc. split; assumption.
Qed.

Lemma series_order_preserved_witness :
  replaceAll (series 2) [candle_at 1 1; candle_at 0 1]
  = [candle_at 1 1; candle_at 0 1]
  /\ increasing (mergeOne (series 3) (candle_at 3 1)) = true.
Proof.
  destruct (series_order_preserved (series 3) (series 3) (candle_at 3 1))
    as (_ & _ & Hmerge).
  split.
  - apply (series_order_preserved (series 2)
             [candle_at 1 1; candle_at 0 1] (candle_at 0 1)).
  - apply Hmerge.
    + reflexivity.
    + intros lastCandle [= <-]. left. reflexivity.
Defined.

End CandleSeriesFacts.

(** ** Tasks and their interleaving *)

Module AsyncFacts.
Import Net ServiceVocabulary.

(** *** A task awaited on its own *)

Section WithWorld.
Context {World : Type}.
Variable fetch_impl : World -> string -> World * Exc Response.

#[local] Abbreviation run_task := (run_task fetch_impl).
#[local] Abbreviation deliver := (deliver fetch_impl).
#[local] Abbreviation deliveries := (deliveries fetch_impl).
#[local] Abbreviation finish := (finish fetch_impl).
#[local] Abbreviation drain := (drain fetch_impl).
#[local] Abbreviation allSettled := (allSettled fetch_impl).

(** Awaiting a task built with [task_bind], [task_try] and [task_fetch] is
    running the [async] function built with their counterparts. *)
Lemma run_task_fetch (url : string) (st : NetState World) :
  run_task (task_fetch url) st = fetch fetch_impl url st.
Proof.
  cbn. destruct (fetch fetch_impl url st) as [st1 r]. reflexivity.
Qed.

Lemma run_task_bind {A B} (t : Task A) (k : A -> Task B) (st : NetState World) :
  run_task (task_bind t k) st
  = net_bind (run_task t) (fun a => run_task (k a)) st.
Proof.
  revert st. induction t as [[a|e]|url resume IH|next IH]; intros st.
  - reflexivity.
  - reflexivity.
  - cbn [task_bind Net.run_task]. unfold net_bind. cbn [Net.run_task].
    destruct (fetch fetch_impl url st) as [st1 r].
    rewrite IH. reflexivity.
  - cbn [task_bind Net.run_task]. rewrite IH. reflexivity.
Qed.

Lemma run_task_try {A} (t : Task A) (h : Error -> Task A) (st : NetState World) :
  run_task (task_try t h) st
  = net_try (run_task t) (fun e => run_task (h e)) st.
Proof.
  revert st. induction t as [[a|e]|url resume IH|next IH]; intros st.
  - reflexivity.
  - reflexivity.
  - cbn [task_try Net.run_task]. unfold net_try. cbn [Net.run_task].
    destruct (fetch fetch_impl url st) as [st1 r].
    rewrite IH. reflexivity.
  - cbn [task_try Net.run_task]. rewrite IH. reflexivity.
Qed.

(** The request log is only written: what a task does is decided by the
    world alone. *)
Lemma run_task_log {A} (t : Task A) (st : NetState World) :
  run_task t st
  = let r := run_task t {| world := world st; requests := [] |} in
    ({| world := world (fst r);
        requests := requests st ++ requests (fst r) |}, snd r).
Proof.
  revert st. induction t as [outcome|url resume IH|next IH]; intros st.
  - cbn. rewrite app_nil_r. destruct st; reflexivity.
  - cbn [Net.run_task]. unfold fetch. cbn [world requests].
    destruct (fetch_impl (world st) url) as [w r].
    rewrite (IH r {| world := w; requests := requests st ++ [url] |}).
    rewrite (IH r {| world := w; requests := [] ++ [url] |}).
    cbn [world requests fst snd app]. rewrite <- app_assoc. reflexivity.
  - cbn [Net.run_task]. apply IH.
Qed.

Lemma outcome_alone_run {A} (t : Task A) (st : NetState World) :
  snd (run_task t st) = outcome_alone fetch_impl (world st) t.
Proof. rewrite run_task_log. reflexivity. Qed.

(** *** What every interleaving keeps *)

Lemma length_deliveries {A} (schedule : list nat) (tasks : list (Task A)) st :
  length (snd (deliveries schedule tasks st)) = length tasks.
Proof.
  revert tasks st. induction schedule as [|i rest IH]; intros tasks st;
    [reflexivity|].
  cbn [Net.deliveries]. destruct (tasks !! i) as [t|]; [|apply IH].
  destruct (deliver t st) as [st1 t']. rewrite IH. apply length_insert.
Qed.

Lemma length_drain {A} (tasks : list (Task A)) st :
  length (snd (drain tasks st)) = length tasks.
Proof.
  revert st. induction tasks as [|t tasks IH]; intros st; [reflexivity|].
  cbn [Net.drain]. destruct (finish t st) as [st1 r].
  specialize (IH st1). destruct (drain tasks st1) as [st2 rs].
  cbn in *. rewrite IH. reflexivity.
Qed.

(** Outcomes: a task keeps settling in [P] however it is resumed. *)
Lemma settles_run {A} (P : Exc A -> Prop) (t : Task A) st :
  settles_with P t -> P (snd (run_task t st)).
Proof.
  revert st. induction t as [outcome|url resume IH|next IH]; intros st H.
  - exact H.
  - cbn [Net.run_task]. destruct (fetch fetch_impl url st) as [st1 r].
    apply IH, H.
  - cbn [Net.run_task]. apply IH, H.
Qed.

Lemma settles_deliver {A} (P : Exc A -> Prop) (t : Task A) st :
  settles_with P t -> settles_with P (snd (deliver t st)).
Proof.
  destruct t as [outcome|url resume|next]; intros H; [exact H | | exact H].
  cbn. destruct (fetch_impl (world st) url) as [w r]. apply H.
Qed.

Lemma settles_finish {A} (P : Exc A -> Prop) (t : Task A) st :
  settles_with P t -> P (snd (finish t st)).
Proof.
  destruct t as [outcome|url resume|next]; intros H;
    [exact H | | exact (settles_run P next st H)].
  cbn. destruct (fetch_impl (world st) url) as [w r].
  apply settles_run, H.
Qed.

Lemma settles_deliveries {A} (schedule : list nat) (tasks : list (Task A))
    (Ps : list (Exc A -> Prop)) st :
  Forall2 (fun t P => settles_with P t) tasks Ps ->
  Forall2 (fun t P => settles_with P t) (snd (deliveries schedule tasks st)) Ps.
Proof.
  revert tasks st. induction schedule as [|i rest IH]; intros tasks st H;
    [exact H|].
  cbn [Net.deliveries]. destruct (tasks !! i) as [t|] eqn:Ht; [|apply IH, H].
  destruct (Forall2_lookup_l _ _ _ _ _ H Ht) as (P & HP & Hs).
  pose proof (settles_deliver P t st Hs) as Hd.
  destruct (deliver t st) as [st1 t']. apply IH.
  rewrite <- (list_insert_id Ps i P HP).
  apply Forall2_insert; [exact H | exact Hd].
Qed.

Lemma settles_drain {A} (tasks : list (Task A)) (Ps : list (Exc A -> Prop)) st :
  Forall2 (fun t P => settles_with P t) tasks Ps ->
  Forall2 (fun r P => P r) (snd (drain tasks st)) Ps.
Proof.
  intros H. revert st. induction H as [|t P tasks Ps Ht _ IH]; intros st;
    [constructor|].
  cbn [Net.drain]. pose proof (settles_finish P t st Ht) as Hf.
  destruct (finish t st) as [st1 r].
  specialize (IH st1). destruct (drain tasks st1) as [st2 rs].
  constructor; assumption.
Qed.

(** Requests: a task issues no more than its bound allows. *)
Lemma grows_refl (st : NetState World) n : grows 0 n st st.
Proof. exists []. rewrite app_nil_r. split; [reflexivity | cbn; lia]. Qed.

Lemma grows_weaken a b c d (st st' : NetState World) :
  (c <= a)%nat -> (b <= d)%nat -> grows a b st st' -> grows c d st st'.
Proof. intros Hca Hbd (new & Hn & Hl). exists new. split; [exact Hn | lia]. Qed.

Lemma grows_chain a b c d (st st1 st2 : NetState World) :
  grows a b st st1 -> grows c d st1 st2 -> grows (a + c) (b + d) st st2.
Proof.
  intros (n1 & H1 & Hl1) (n2 & H2 & Hl2). exists (n1 ++ n2).
  rewrite H2, H1, <- app_assoc, length_app. split; [reflexivity | lia].
Qed.

Lemma awaits_le_mono {A} (t : Task A) n m :
  (n <= m)%nat -> awaits_le n t -> awaits_le m t.
Proof.
  revert n m. induction t as [outcome|url resume IH|next IH]; intros n m Hnm H;
    [exact I | | exact (IH n m Hnm H)].
  destruct n as [|n]; [destruct H|]. destruct m as [|m]; [lia|].
  cbn in *. intros r. apply (IH r n m); [lia | apply H].
Qed.

Lemma run_task_grows {A} (t : Task A) n st :
  awaits_le n t -> grows 0 n st (fst (run_task t st)).
Proof.
  revert n st. induction t as [outcome|url resume IH|next IH]; intros n st H.
  - apply grows_refl.
  - destruct n as [|n]; [destruct H|].
    cbn [Net.run_task]. unfold fetch.
    destruct (fetch_impl (world st) url) as [w r].
    apply (grows_chain 0 1 0 n _ {| world := w; requests := requests st ++ [url] |}).
    + exists [url]. split; [reflexivity | cbn; lia].
    + apply IH, H.
  - cbn [Net.run_task]. apply IH, H.
Qed.

(** A task that resumes issues its next request, if it has one, and owes
    that one less. *)
Lemma issue_owes {A} (t : Task A) c (st : NetState World) :
  awaits_le c t ->
  exists c' new,
    owes c' t
    /\ requests (issue t st) = requests st ++ new
    /\ (length new + c' <= c)%nat.
Proof.
  destruct t as [outcome|url resume|next]; intros H.
  - exists c, []. cbn. rewrite app_nil_r.
    split; [exact I|]. split; [reflexivity | lia].
  - destruct c as [|c]; [destruct H|].
    exists c, [url]. cbn. split; [exact H|]. split; [reflexivity | lia].
  - exists c, []. cbn. rewrite app_nil_r.
    split; [exact H|]. split; [reflexivity | lia].
Qed.

Lemma deliver_grows {A} (t : Task A) c st :
  owes c t ->
  exists c' new,
    owes c' (snd (deliver t st))
    /\ requests (fst (deliver t st)) = requests st ++ new
    /\ (length new + c' <= c)%nat.
Proof.
  destruct t as [outcome|url resume|next]; intros H.
  - exists c, []. cbn. rewrite app_nil_r. split; [exact I|]. split; [reflexivity | lia].
  - cbn in H. cbn [Net.deliver].
    destruct (fetch_impl (world st) url) as [w r].
    exact (issue_owes (resume r) c {| world := w; requests := requests st |}
             (H r)).
  - exact (issue_owes next c st H).
Qed.

Lemma finish_grows {A} (t : Task A) c st :
  owes c t -> grows 0 c st (fst (finish t st)).
Proof.
  destruct t as [outcome|url resume|next]; intros H.
  - apply grows_refl.
  - cbn in H. cbn [Net.finish].
    destruct (fetch_impl (world st) url) as [w r].
    destruct (run_task_grows (resume r) c
                {| world := w; requests := requests st |} (H r))
      as (new & Hn & Hl).
    exists new. split; [exact Hn | exact Hl].
  - exact (run_task_grows next c st H).
Qed.

Lemma sum_list_insert (l : list nat) i x y :
  l !! i = Some y -> (sum_list (<[i := x]> l) + y = sum_list l + x)%nat.
Proof.
  revert i. induction l as [|z l IH]; intros [|i] H; try discriminate.
  - injection H as ->. cbn. lia.
  - specialize (IH i H). change (<[S i := x]> (z :: l)) with (z :: <[i := x]> l).
    cbn [sum_list]. lia.
Qed.

Lemma deliveries_grows {A} (schedule : list nat) (tasks : list (Task A))
    (credits : list nat) st :
  Forall2 (fun t c => owes c t) tasks credits ->
  exists credits' new,
    Forall2 (fun t c => owes c t)
      (snd (deliveries schedule tasks st)) credits'
    /\ requests (fst (deliveries schedule tasks st)) = requests st ++ new
    /\ (length new + sum_list credits' <= sum_list credits)%nat.
Proof.
  revert tasks credits st.
  induction schedule as [|i rest IH]; intros tasks credits st H.
  - exists credits, []. cbn. rewrite app_nil_r.
    split; [exact H|]. split; [reflexivity | lia].
  - cbn [Net.deliveries]. destruct (tasks !! i) as [t|] eqn:Ht; [|apply IH, H].
    destruct (Forall2_lookup_l _ _ _ _ _ H Ht) as (c & Hc & Hle).
    destruct (deliver_grows t c st Hle) as (c' & new & Hle' & Hnew & Hlen).
    destruct (deliver t st) as [st1 t']. cbn [fst snd] in *.
    destruct (IH (<[i := t']> tasks) (<[i := c']> credits) st1)
      as (credits' & new' & HF & Hnew' & Hlen').
    { apply Forall2_insert; assumption. }
    exists credits', (new ++ new'). split; [exact HF|].
    split; [rewrite Hnew', Hnew, <- app_assoc; reflexivity|].
    pose proof (sum_list_insert credits i c' c Hc). rewrite length_app. lia.
Qed.

Lemma drain_grows {A} (tasks : list (Task A)) (credits : list nat) st :
  Forall2 (fun t c => owes c t) tasks credits ->
  grows 0 (sum_list credits) st (fst (drain tasks st)).
Proof.
  intros H. revert st. induction H as [|t c tasks credits Ht _ IH]; intros st.
  - apply grows_refl.
  - cbn [Net.drain sum_list]. pose proof (finish_grows t c st Ht) as Hf.
    destruct (finish t st) as [st1 r]. cbn [fst] in Hf.
    specialize (IH st1). destruct (drain tasks st1) as [st2 rs].
    cbn [fst] in *. exact (grows_chain _ _ _ _ _ _ _ Hf IH).
Qed.

(** *** A world without state *)

Section Stateless.
Hypothesis Hstateless : stateless fetch_impl.

Lemma run_task_world {A} (t : Task A) st :
  world (fst (run_task t st)) = world st.
Proof.
  revert st. induction t as [outcome|url resume IH|next IH]; intros st;
    [reflexivity | | apply IH].
  cbn [Net.run_task]. unfold fetch.
  pose proof (Hstateless (world st) url) as Hw.
  destruct (fetch_impl (world st) url) as [w r]. cbn in Hw. subst w.
  rewrite IH. reflexivity.
Qed.

Lemma issue_world {A} (t : Task A) (st : NetState World) :
  world (issue t st) = world st.
Proof. destruct t; reflexivity. Qed.

Lemma deliver_alone {A} (t : Task A) st :
  world (fst (deliver t st)) = world st
  /\ outcome_alone fetch_impl (world st) (snd (deliver t st))
     = outcome_alone fetch_impl (world st) t.
Proof.
  destruct t as [outcome|url resume|next]; [split; reflexivity | |].
  2:{ cbn [Net.deliver fst snd]. split; [apply issue_world | reflexivity]. }
  unfold outcome_alone. cbn [Net.deliver Net.run_task]. unfold fetch.
  cbn [world requests].
  pose proof (Hstateless (world st) url) as Hw.
  destruct (fetch_impl (world st) url) as [w r]. cbn in Hw. subst w.
  cbn [fst snd]. split.
  - rewrite issue_world. reflexivity.
  - rewrite (run_task_log (resume r)
               {| world := world st; requests := [] ++ [url] |}).
    reflexivity.
Qed.

Lemma finish_alone {A} (t : Task A) st :
  world (fst (finish t st)) = world st
  /\ snd (finish t st) = outcome_alone fetch_impl (world st) t.
Proof.
  destruct t as [outcome|url resume|next]; [split; reflexivity | |].
  2:{ cbn [Net.finish]. split; [apply run_task_world|].
      unfold outcome_alone. cbn [Net.run_task].
      rewrite (run_task_log next st). reflexivity. }
  unfold outcome_alone. cbn [Net.finish Net.run_task]. unfold fetch.
  cbn [world requests].
  pose proof (Hstateless (world st) url) as Hw.
  destruct (fetch_impl (world st) url) as [w r]. cbn in Hw. subst w.
  split.
  - rewrite run_task_world. reflexivity.
  - rewrite (run_task_log (resume r)
               {| world := world st; requests := [] ++ [url] |}).
    rewrite (run_task_log (resume r)
               {| world := world st; requests := requests st |}).
    reflexivity.
Qed.

Lemma deliveries_alone {A} (schedule : list nat) (tasks : list (Task A)) st :
  world (fst (deliveries schedule tasks st)) = world st
  /\ map (outcome_alone fetch_impl (world st))
       (snd (deliveries schedule tasks st))
     = map (outcome_alone fetch_impl (world st)) tasks.
Proof.
  revert tasks st. induction schedule as [|i rest IH]; intros tasks st;
    [split; reflexivity|].
  cbn [Net.deliveries]. destruct (tasks !! i) as [t|] eqn:Ht; [|apply IH].
  destruct (deliver_alone t st) as [Hw Ho].
  destruct (deliver t st) as [st1 t']. cbn [fst snd] in *.
  destruct (IH (<[i := t']> tasks) st1) as [Hw' Ho'].
  rewrite Hw in Hw', Ho'. split; [exact Hw'|]. rewrite Ho'.
  change (map ?f ?l) with (f <$> l).
  rewrite list_fmap_insert, Ho. apply list_insert_id.
  rewrite list_lookup_fmap, Ht. reflexivity.
Qed.

Lemma drain_alone {A} (tasks : list (Task A)) st :
  snd (drain tasks st) = map (outcome_alone fetch_impl (world st)) tasks.
Proof.
  revert st. induction tasks as [|t tasks IH]; intros st; [reflexivity|].
  cbn [Net.drain map]. destruct (finish_alone t st) as [Hw Ho].
  destruct (finish t st) as [st1 r]. cbn [fst snd] in *.
  specialize (IH st1). destruct (drain tasks st1) as [st2 rs].
  cbn [snd] in *. rewrite Ho, IH, Hw. reflexivity.
Qed.

Lemma issue_all_world {A} (tasks : list (Task A)) (st : NetState World) :
  world (fold_left (fun st p => issue p st) tasks st) = world st.
Proof.
  revert st. induction tasks as [|t tasks IH]; intros st; [reflexivity|].
  cbn [fold_left]. rewrite IH. apply issue_world.
Qed.

(** In a world without state every order of arrival gives each task the
    outcome it has when awaited on its own. *)
Lemma allSettled_alone {A} (schedule : list nat) (tasks : list (Task A)) st :
  snd (allSettled schedule tasks st)
  = Ok (map (outcome_alone fetch_impl (world st)) tasks).
Proof.
  unfold Net.allSettled.
  set (st0 := fold_left _ tasks st).
  assert (Hw0 : world st0 = world st) by apply issue_all_world.
  destruct (deliveries_alone schedule tasks st0) as [Hw1 Ho1].
  destruct (deliveries schedule tasks st0) as [st1 pending].
  cbn [fst snd] in *.
  pose proof (drain_alone pending st1) as Hd.
  destruct (drain pending st1) as [st2 results]. cbn [snd] in *.
  rewrite Hd, Hw1, Ho1, Hw0. reflexivity.
Qed.
End Stateless.

End WithWorld.

End AsyncFacts.

(** ** The exchange services and the orchestrator *)

Module ServiceFacts.
Import Net Services Orchestrator ServiceVocabulary Samples AsyncFacts.

(** Case analysis on every [match] of a hypothesis, dropping the branches
    it refutes. *)
Ltac split_matches H :=
  repeat match type of H with
         | context [match ?m with _ => _ end] =>
             let E := fresh "E" in destruct m eqn:E; try discriminate H
         end.

Ltac unfold_net H :=
  unfold mbind, mret, Net_bind, Net_ret, net_bind, net_ret, lift, throw,
    Exc_bind, Exc_ret, JS.bind in H.

Ltac unfold_net_goal :=
  unfold mbind, mret, Net_bind, Net_ret, net_bind, net_ret, net_try, lift,
    throw, fetch, Exc_bind, Exc_ret, JS.bind, try_catch.

(** [fulfilled] keeps the successes, all of them, in their order. *)
Lemma fulfilled_app {A} (rs1 rs2 : list (Exc A)) :
  fulfilled (rs1 ++ rs2) = fulfilled rs1 ++ fulfilled rs2.
Proof.
  induction rs1 as [|[a|e] rs1 IH]; cbn; [reflexivity | | exact IH].
  rewrite IH. reflexivity.
Qed.

Lemma elem_of_fulfilled {A} (rs : list (Exc A)) (a : A) :
  a ∈ fulfilled rs <-> Ok a ∈ rs.
Proof.
  induction rs as [|[a'|e] rs IH]; cbn.
  - rewrite !elem_of_nil. reflexivity.
  - rewrite !elem_of_cons, IH. split; intros [H|H]; auto; left; congruence.
  - rewrite elem_of_cons, IH. split; [auto | intros [H|H]; [discriminate | exact H]].
Qed.

Lemma fulfilled_nil {A} (rs : list (Exc A)) :
  fulfilled rs = [] <-> Forall (fun r => succeeds r = false) rs.
Proof.
  induction rs as [|[a|e] rs IH]; cbn.
  - split; [constructor | reflexivity].
  - split; [discriminate | intros H; inversion H; discriminate].
  - rewrite IH, Forall_cons. cbn. tauto.
Qed.

(** [fulfilled] against the library's [filter]: the successes, each once,
    in the order of the outcomes. *)
Lemma fulfilled_filter {A} (rs : list (Exc A)) :
  map Ok (fulfilled rs) = List.filter succeeds rs.
Proof.
  induction rs as [|[a|e] rs IH]; cbn; [reflexivity | | exact IH].
  rewrite IH. reflexivity.
Qed.

(** [mapM] in the exception monad: all rows, or none when one throws. *)
Lemma mapM_Ok_Forall2 {A B} (f : A -> Exc B) (l : list A) (l' : list B) :
  mapM f l = Ok l' -> Forall2 (fun a b => f a = Ok b) l l'.
Proof.
  revert l'. induction l as [|a l IH]; intros l'; cbn.
  - intros [= <-]. constructor.
  - unfold mbind, Exc_bind, JS.bind, mret, Exc_ret.
    destruct (f a) as [b|e] eqn:Hfa; [|discriminate].
    destruct (mapM f l) as [bs|e]; [|discriminate].
    intros [= <-]. constructor; [exact Hfa | apply IH; reflexivity].
Qed.

Lemma mapM_Throw_Exists {A B} (f : A -> Exc B) (l : list A) (e : Error) :
  mapM f l = Throw e -> Exists (fun a => succeeds (f a) = false) l.
Proof.
  revert e. induction l as [|a l IH]; intros e; cbn; [discriminate|].
  unfold mbind, Exc_bind, JS.bind, mret, Exc_ret.
  destruct (f a) as [b|e'] eqn:Hfa.
  - destruct (mapM f l) as [bs|e'']; [discriminate|].
    intros _. right. apply (IH e''). reflexivity.
  - intros _. left. rewrite Hfa. reflexivity.
Qed.

Lemma mapM_Exists_Throw {A B} (f : A -> Exc B) (l : list A) :
  Exists (fun a => succeeds (f a) = false) l -> exists e, mapM f l = Throw e.
Proof.
  intros H. destruct (mapM f l) as [l'|e] eqn:Hm; [|eauto].
  exfalso. apply mapM_Ok_Forall2 in Hm.
  induction Hm as [|a b l l' Hab _ IH]; inversion H; subst.
  - rewrite Hab in *. discriminate.
  - auto.
Qed.

Lemma mapM_Forall_Ok {A B} (f : A -> Exc B) (l : list A) :
  Forall (fun a => succeeds (f a) = true) l ->
  exists l', mapM f l = Ok l' /\ Forall2 (fun a b => f a = Ok b) l l'.
Proof.
  intros H. destruct (mapM f l) as [l'|e] eqn:Hm.
  - exists l'. split; [reflexivity | apply mapM_Ok_Forall2, Hm].
  - exfalso. apply mapM_Throw_Exists in Hm.
    induction H as [|a l Ha _ IH]; inversion Hm; subst; [congruence | auto].
Qed.

Section Facts.
Context {World : Type} {platform : Platform World}.

(** *** fetchWithFallback *)

(** The direct attempt issues one request, for [url]. *)
Lemma direct_attempt_run (url : string) (st : NetState World) :
  let d := fetch_impl (world st) url in
  exists r,
    direct_attempt url st =
      ({| world := fst d; requests := requests st ++ [url] |}, r)
    /\ succeeds r = negb (direct_fails (snd d))
    /\ (direct_fails (snd d) = false -> r = direct_outcome (snd d)).
Proof.
  cbn zeta. unfold direct_attempt, direct_fails, direct_outcome.
  unfold_net_goal.
  destruct (fetch_impl (world st) url) as [w1 [res|e]]; cbn.
  - destruct (ok res); cbn.
    + destruct (json res); cbn; eexists; repeat split; intros; discriminate.
    + eexists; repeat split; intros; discriminate.
  - eexists; repeat split; intros; discriminate.
Qed.

(** The relay attempt issues one request, for the relay URL. *)
Lemma relay_attempt_run (url : string) (st : NetState World) :
  let proxyUrl := PROXY_URL +:+ encodeURIComponent url in
  let r := fetch_impl (world st) proxyUrl in
  relay_attempt url st =
    ({| world := fst r; requests := requests st ++ [proxyUrl] |},
     relay_outcome (snd r)).
Proof.
  cbn zeta. unfold relay_attempt, relay_outcome. unfold_net_goal.
  destruct (fetch_impl (world st) _) as [w2 [res|e]]; cbn; [|reflexivity].
  destruct (ok res); cbn; [|reflexivity].
  destruct (json res) as [envelope|e]; cbn; [|reflexivity].
  destruct (get_prop envelope "contents") as [contents|e]; cbn; [|reflexivity].
  destruct (truthy contents); cbn; [|reflexivity].
  destruct (JSON_parse (to_string contents)); reflexivity.
Qed.



(** *** fetchKlines *)

(** Case analysis on the exchange name, as the chain of [if]s does it. *)
Ltac by_exchange exchange :=
  repeat match goal with
         | |- context [String.eqb exchange ?name] =>
             destruct (String.eqb_spec exchange name) as [->|?];
             cbn [String.eqb Ascii.eqb Bool.eqb]
         end.

(** What [fetchKlines] makes of the rows of a well-formed answer. *)
Lemma rows_to_klines (msg : string) (newest_first : bool)
    (row : value -> Exc KlineData) (rows : list value) :
  exists klines,
    match map_rows msg newest_first row (VArr rows) with
    | Ok ks => ks
    | Throw _ => []
    end = klines
    /\ (Exists (fun r => succeeds (row r) = false) rows -> klines = []).
Proof.
  cbn [map_rows].
  set (ordered := if newest_first then reverse rows else rows).
  destruct (mapM row ordered) as [ks|e] eqn:Hm.
  - exists ks. split; [reflexivity|]. intros Hex. exfalso.
    assert (Hex' : Exists (fun r => succeeds (row r) = false) ordered).
    { subst ordered. destruct newest_first; [|exact Hex].
      apply Exists_exists in Hex as (r & Hin & Hr).
      apply Exists_exists. exists r. split; [|exact Hr].
      apply elem_of_reverse, Hin. }
    apply mapM_Exists_Throw in Hex' as [e He]. congruence.
  - exists []. split; reflexivity.
Qed.

(** C9: whatever the arguments and the network, [fetchKlines] returns a
    list and never throws.  The list is empty, with no request issued, when
    the exchange is none of the five; otherwise the one call of
    [fetchWithFallback] for the exchange's endpoint is all it requests, and
    the list is empty when that call fails (both attempts failed), when the
    answer is malformed or holds no array of rows, and when a row cannot be
    mapped. *)
Theorem fetchKlines_never_throws
    (symbol interval : string) (limit : Z) (exchange : string)
    (st : NetState World) :
  exists st' klines,
    fetchKlines symbol interval limit exchange st = (st', Ok klines)
    /\ match klines_endpoint symbol interval limit exchange with
       | None => st' = st /\ klines = []
       | Some url =>
           st' = fst (fetchWithFallback url st)
           /\ match snd (fetchWithFallback url st) with
              | Throw _ => klines = []
              | Ok data =>
                  match klines_rows exchange data with
                  | None => klines = []
                  | Some rows =>
                      Exists (fun row =>
                                succeeds (kline_row exchange row) = false)
                        rows ->
                      klines = []
                  end
              end
       end
    /\ (exchange ∉ map exchange_name [Binance; Bybit; MEXC; Gate; OKX] ->
        st' = st /\ klines = []).
Proof.
  unfold fetchKlines, fetchKlines_try, klines_endpoint, klines_rows, kline_row.
  unfold_net_goal.
  by_exchange exchange;
    try (destruct (fetchWithFallback _ st) as [st1 [data|e]]; cbn [fst snd]).
  all: try (eexists _, []; split; [reflexivity|]; split;
            [split; reflexivity|]; intros Hnot; try (split; reflexivity);
            exfalso; apply Hnot; cbn; repeat constructor).
  all: try match goal with
           | |- context [get_prop ?d ?name] =>
               destruct (get_prop d name) as [field|?]
           end.
  all: try match goal with
           | |- context [match ?r with VUndefined => _ | _ => _ end] =>
               destruct r
           end.
  all: cbn [get_prop].
  all: try match goal with
           | |- context [get_prop ?d "list"] =>
               destruct (get_prop d "list") as [list|?]
           end.
  all: repeat match goal with
              | |- context [map_rows _ _ _ ?v] =>
                  lazymatch v with
                  | VArr _ => fail
                  | VUndefined => fail
                  | VNull => fail
                  | VBool _ => fail
                  | VNum _ => fail
                  | VStr _ => fail
                  | VObj _ => fail
                  | _ => destruct v
                  end
              end.
  all: cbn [truthy negb].
  all: repeat match goal with
              | |- context [if ?c then _ else _] => destruct c
              end.
  all: try (eexists _, []; split; [reflexivity|]; split;
            [split; reflexivity|]; intros Hnot;
            exfalso; apply Hnot; cbn; repeat constructor).
  all: match goal with
       | |- context [map_rows ?msg ?b ?row (VArr ?rows)] =>
           destruct (rows_to_klines msg b row rows) as (klines & Hk & Hempty);
           exists st1, klines; rewrite <- Hk;
           split;
           [ destruct (map_rows msg b row (VArr rows)); reflexivity
           | split;
             [ split; [reflexivity | rewrite Hk; exact Hempty]
             | intros Hnot; exfalso; apply Hnot; cbn; repeat constructor ] ]
       end.
Qed.

(** *** Ticker probes *)

Lemma mapBinanceTicker_exchange data t :
  mapBinanceTicker data = Ok t -> exchange t = Binance.
Proof.
  unfold mapBinanceTicker. intros H. unfold_net H.
  split_matches H; injection H as <-; reflexivity.
Qed.

Lemma mapBybitTicker_exchange data t :
  mapBybitTicker data = Ok t -> exchange t = Bybit.
Proof.
  unfold mapBybitTicker. intros H. unfold_net H.
  split_matches H; injection H as <-; reflexivity.
Qed.

Lemma mapMexcTicker_exchange data t :
  mapMexcTicker data = Ok t -> exchange t = MEXC.
Proof.
  unfold mapMexcTicker. intros H. unfold_net H.
  split_matches H; injection H as <-; reflexivity.
Qed.

Lemma mapGateTicker_exchange data t :
  mapGateTicker data = Ok t -> exchange t = Gate.
Proof.
  unfold mapGateTicker. intros H. unfold_net H.
  split_matches H; injection H as <-; reflexivity.
Qed.

Lemma mapOkxTicker_exchange data t :
  mapOkxTicker data = Ok t -> exchange t = OKX.
Proof.
  unfold mapOkxTicker. intros H. unfold_net H.
  split_matches H; injection H as <-; reflexivity.
Qed.

(** A fetcher that has run the adapter [mapper] returns what it returned. *)
Ltac by_mapper mapper lemma H :=
  unfold_net H;
  match type of H with
  | context [fetchWithFallback ?url ?st] =>
      destruct (fetchWithFallback url st) as [? [?|?]]; [|discriminate H]
  end;
  match type of H with
  | context [mapper ?d] =>
      let Hmap := fresh "Hmap" in
      destruct (mapper d) eqn:Hmap;
      [ apply lemma in Hmap; split_matches H; injection H as _ <-; exact Hmap
      | split_matches H; try discriminate H ]
  end.

Lemma fetchBinanceTicker_exchange symbol (st st' : NetState World) t :
  fetchBinanceTicker symbol st = (st', Ok t) -> exchange t = Binance.
Proof.
  unfold fetchBinanceTicker. intros H.
  by_mapper mapBinanceTicker mapBinanceTicker_exchange H.
Qed.

Lemma fetchBybitTicker_exchange symbol (st st' : NetState World) t :
  fetchBybitTicker symbol st = (st', Ok t) -> exchange t = Bybit.
Proof.
  unfold fetchBybitTicker. intros H.
  by_mapper mapBybitTicker mapBybitTicker_exchange H.
Qed.

Lemma fetchMexcTicker_exchange symbol (st st' : NetState World) t :
  fetchMexcTicker symbol st = (st', Ok t) -> exchange t = MEXC.
Proof.
  unfold fetchMexcTicker. intros H.
  by_mapper mapMexcTicker mapMexcTicker_exchange H.
Qed.

Lemma fetchGateTicker_exchange symbol (st st' : NetState World) t :
  fetchGateTicker symbol st = (st', Ok t) -> exchange t = Gate.
Proof.
  unfold fetchGateTicker. intros H. unfold_net H.
  destruct (fetchWithFallback _ st) as [st1 [data|e]]; [|discriminate].
  split_matches H; injection H as _ H;
    eapply mapGateTicker_exchange, H.
Qed.

Lemma fetchOkxTicker_exchange symbol (st st' : NetState World) t :
  fetchOkxTicker symbol st = (st', Ok t) -> exchange t = OKX.
Proof.
  unfold fetchOkxTicker. intros H.
  by_mapper mapOkxTicker mapOkxTicker_exchange H.
Qed.

(** *** The probes as tasks *)

(** Case analysis along a task, and along the synchronous steps that decide
    how it goes on. *)
Ltac task_cases :=
  repeat (cbn [task_bind task_try task_fetch task_lift task_throw task_read
               mbind mret Task_bind Task_ret awaits_le settles_with
               Net.run_task negb];
          intros;
          try match goal with
              | |- context [match ?m with _ => _ end] => destruct m
              | |- context [if ?b then _ else _] => destruct b
              end).

(** A task in its two forms: awaited on its own it is the [async] function
    it was written from. *)
Lemma fetchWithFallback_task_run (url : string) (st : NetState World) :
  run_task fetch_impl (fetchWithFallback_task url) st
  = fetchWithFallback url st.
Proof.
  unfold fetchWithFallback_task, fetchWithFallback.
  rewrite run_task_try. unfold net_try.
  assert (Hd : run_task fetch_impl (direct_attempt_task url) st
               = direct_attempt url st).
  { unfold direct_attempt_task, direct_attempt, mbind, Task_bind, Net_bind.
    rewrite run_task_bind. unfold net_bind. rewrite run_task_fetch.
    destruct (Net.fetch fetch_impl url st) as [st1 [res|e]]; [|reflexivity].
    destruct (ok res); reflexivity. }
  rewrite Hd. destruct (direct_attempt url st) as [st1 [v|e]]; [reflexivity|].
  rewrite run_task_try. unfold net_try.
  assert (Hr : run_task fetch_impl (relay_attempt_task url) st1
               = relay_attempt url st1).
  { unfold relay_attempt_task, relay_attempt, mbind, Task_bind, Net_bind.
    cbv zeta. rewrite run_task_bind. unfold net_bind. rewrite run_task_fetch.
    destruct (Net.fetch fetch_impl _ st1) as [st2 [res|e']]; [|reflexivity].
    unfold task_lift, task_throw, task_read, lift, throw.
    destruct (ok res); cbn [negb]; [|reflexivity].
    cbn [task_bind Net.run_task].
    destruct (json res) as [proxyData|e']; [|reflexivity].
    cbn [task_bind Net.run_task].
    destruct (get_prop proxyData "contents") as [contents|e']; [|reflexivity].
    cbn [task_bind Net.run_task].
    destruct (truthy contents); reflexivity. }
  rewrite Hr. destruct (relay_attempt url st1) as [st2 [v|e']]; reflexivity.
Qed.

(** A probe is [fetchWithFallback] followed by synchronous steps. *)
Ltac probe_run :=
  unfold mbind, Task_bind, Net_bind;
  cbv zeta; rewrite run_task_bind; unfold net_bind; rewrite fetchWithFallback_task_run;
  match goal with
  | |- context [fetchWithFallback ?url ?st] =>
      destruct (fetchWithFallback url st) as [? [?|?]]; [|reflexivity]
  end;
  unfold task_lift, task_throw, lift, throw;
  repeat (cbn [task_bind Net.run_task negb];
          try match goal with
              | |- context [task_bind (Settled ?m) _] => destruct m
              | |- context [run_task _ (match ?m with _ => _ end)] =>
                  destruct m
              | |- context [if ?b then _ else _] => destruct b
              end);
  reflexivity.

Lemma fetchBinanceTicker_task_run (symbol : string) (st : NetState World) :
  run_task fetch_impl (fetchBinanceTicker_task symbol) st
  = fetchBinanceTicker symbol st.
Proof.
  unfold fetchBinanceTicker_task, fetchBinanceTicker.
  probe_run.
Qed.

Lemma fetchBybitTicker_task_run (symbol : string) (st : NetState World) :
  run_task fetch_impl (fetchBybitTicker_task symbol) st
  = fetchBybitTicker symbol st.
Proof.
  unfold fetchBybitTicker_task, fetchBybitTicker.
  probe_run.
Qed.

Lemma fetchMexcTicker_task_run (symbol : string) (st : NetState World) :
  run_task fetch_impl (fetchMexcTicker_task symbol) st
  = fetchMexcTicker symbol st.
Proof.
  unfold fetchMexcTicker_task, fetchMexcTicker.
  probe_run.
Qed.

Lemma fetchGateTicker_task_run (symbol : string) (st : NetState World) :
  run_task fetch_impl (fetchGateTicker_task symbol) st
  = fetchGateTicker symbol st.
Proof.
  unfold fetchGateTicker_task, fetchGateTicker.
  probe_run.
Qed.

Lemma fetchOkxTicker_task_run (symbol : string) (st : NetState World) :
  run_task fetch_impl (fetchOkxTicker_task symbol) st
  = fetchOkxTicker symbol st.
Proof.
  unfold fetchOkxTicker_task, fetchOkxTicker.
  probe_run.
Qed.

(** [fetchWithFallback] issues its direct request, and at most one more. *)
Lemma fetchWithFallback_task_shape (url : string) :
  exists resume,
    fetchWithFallback_task url = Awaiting url resume
    /\ forall r, awaits_le 1 (resume r).
Proof.
  eexists. split; [reflexivity|].
  intros r. unfold direct_attempt_task, relay_attempt_task. task_cases;
    exact I.
Qed.

(** Steps after the fetch that issue no request and keep the outcomes in
    [P]. *)
Lemma probe_shape {A} (P : Exc A -> Prop) (url : string)
    (after : value -> Task A) :
  (forall data, awaits_le 0 (after data) /\ settles_with P (after data)) ->
  (forall e, P (Throw e)) ->
  exists resume,
    task_bind (fetchWithFallback_task url) after = Awaiting url resume
    /\ awaits_le 2 (task_bind (fetchWithFallback_task url) after)
    /\ settles_with P (task_bind (fetchWithFallback_task url) after).
Proof.
  intros Hafter Hthrow.
  assert (Hbind : forall t : Task value,
            (forall n, awaits_le n t -> awaits_le n (task_bind t after))
            /\ settles_with P (task_bind t after)).
  { induction t as [[data|e]|u resume IH|next IH].
    - split; [|apply Hafter]. intros n _.
      apply (awaits_le_mono (after data) 0 n); [lia | apply Hafter].
    - split; [intros; exact I | apply Hthrow].
    - split.
      + intros [|n] H; [destruct H|]. cbn. intros r. apply IH, H.
      + cbn. intros r. apply IH.
    - split.
      + intros n H. cbn. apply IH, H.
      + cbn. apply IH. }
  destruct (fetchWithFallback_task_shape url) as (resume & Heq & Hle).
  rewrite Heq. eexists. split; [reflexivity|]. split.
  - apply Hbind. cbn. exact Hle.
  - apply Hbind.
Qed.

Ltac probe_after lemma :=
  intros data; split; task_cases; try exact I;
  match goal with
  | H : _ = Ok _ |- _ => first [discriminate H | eapply lemma; exact H]
  end.

Lemma fetchBinanceTicker_task_shape (symbol : string) :
  exists resume,
    fetchBinanceTicker_task symbol
    = Awaiting (BINANCE_API +:+ "/ticker/24hr?symbol="
                +:+ getExchangeSymbol symbol "Binance") resume
    /\ awaits_le 2 (fetchBinanceTicker_task symbol)
    /\ settles_with (tagged Binance) (fetchBinanceTicker_task symbol).
Proof.
  apply probe_shape; [|intros e t Ht; discriminate Ht].
  unfold tagged. probe_after mapBinanceTicker_exchange.
Qed.

Lemma fetchBybitTicker_task_shape (symbol : string) :
  exists resume,
    fetchBybitTicker_task symbol
    = Awaiting (BYBIT_API +:+ "/tickers?category=spot&symbol="
                +:+ getExchangeSymbol symbol "Bybit") resume
    /\ awaits_le 2 (fetchBybitTicker_task symbol)
    /\ settles_with (tagged Bybit) (fetchBybitTicker_task symbol).
Proof.
  apply probe_shape; [|intros e t Ht; discriminate Ht].
  unfold tagged. probe_after mapBybitTicker_exchange.
Qed.

Lemma fetchMexcTicker_task_shape (symbol : string) :
  exists resume,
    fetchMexcTicker_task symbol
    = Awaiting (MEXC_API +:+ "/ticker/24hr?symbol="
                +:+ getExchangeSymbol symbol "MEXC") resume
    /\ awaits_le 2 (fetchMexcTicker_task symbol)
    /\ settles_with (tagged MEXC) (fetchMexcTicker_task symbol).
Proof.
  apply probe_shape; [|intros e t Ht; discriminate Ht].
  unfold tagged. probe_after mapMexcTicker_exchange.
Qed.

Lemma fetchGateTicker_task_shape (symbol : string) :
  exists resume,
    fetchGateTicker_task symbol
    = Awaiting (GATE_API +:+ "/spot/tickers?currency_pair="
                +:+ getExchangeSymbol symbol "Gate") resume
    /\ awaits_le 2 (fetchGateTicker_task symbol)
    /\ settles_with (tagged Gate) (fetchGateTicker_task symbol).
Proof.
  apply probe_shape; [|intros e t Ht; discriminate Ht].
  unfold tagged. probe_after mapGateTicker_exchange.
Qed.

Lemma fetchOkxTicker_task_shape (symbol : string) :
  exists resume,
    fetchOkxTicker_task symbol
    = Awaiting (OKX_API +:+ "/ticker?instId="
                +:+ getExchangeSymbol symbol "OKX") resume
    /\ awaits_le 2 (fetchOkxTicker_task symbol)
    /\ settles_with (tagged OKX) (fetchOkxTicker_task symbol).
Proof.
  apply probe_shape; [|intros e t Ht; discriminate Ht].
  unfold tagged. probe_after mapOkxTicker_exchange.
Qed.

(** Whatever the order of arrival: the five direct requests go out first,
    at most five requests follow, and the five outcomes come back in the
    order of the probes, each a ticker of its own exchange or a failure. *)
Lemma allSettled_probes (schedule : list nat) (symbol : string)
    (st : NetState World) :
  exists st' results new,
    allSettled fetch_impl schedule (ticker_probes symbol) st
    = (st', Ok results)
    /\ Forall2 (fun r e => tagged e r) results
         [Binance; Bybit; MEXC; Gate; OKX]
    /\ requests st' = requests st ++ probe_urls symbol ++ new
    /\ (length new <= 5)%nat.
Proof.
  destruct (fetchBinanceTicker_task_shape symbol) as (kB & HB & HBle & HBtag).
  destruct (fetchBybitTicker_task_shape symbol) as (kY & HY & HYle & HYtag).
  destruct (fetchMexcTicker_task_shape symbol) as (kM & HM & HMle & HMtag).
  destruct (fetchGateTicker_task_shape symbol) as (kG & HG & HGle & HGtag).
  destruct (fetchOkxTicker_task_shape symbol) as (kO & HO & HOle & HOtag).
  unfold allSettled.
  set (st0 := fold_left _ (ticker_probes symbol) st).
  assert (Hst0 : requests st0 = requests st ++ probe_urls symbol).
  { subst st0. unfold ticker_probes. cbn [fold_left].
    rewrite HB, HY, HM, HG, HO. cbn [issue world requests].
    rewrite <- !app_assoc. reflexivity. }
  assert (Hle : Forall2 (fun t c => owes c t)
                  (ticker_probes symbol) [1; 1; 1; 1; 1]%nat).
  { unfold ticker_probes. rewrite HB in HBle. rewrite HY in HYle.
    rewrite HM in HMle. rewrite HG in HGle. rewrite HO in HOle.
    rewrite HB, HY, HM, HG, HO. repeat constructor; assumption. }
  assert (Htag : Forall2 (fun t P => settles_with P t)
                   (ticker_probes symbol)
                   (map tagged [Binance; Bybit; MEXC; Gate; OKX])).
  { repeat constructor; assumption. }
  destruct (deliveries_grows fetch_impl schedule _ _ st0 Hle)
    as (credits & new1 & Hle1 & Hnew1 & Hlen1).
  pose proof (settles_deliveries fetch_impl schedule _ _ st0 Htag) as Htag1.
  destruct (deliveries fetch_impl schedule (ticker_probes symbol) st0)
    as [st1 pending]. cbn [fst snd] in *.
  destruct (drain_grows fetch_impl pending credits st1 Hle1)
    as (new2 & Hnew2 & Hlen2).
  pose proof (settles_drain fetch_impl pending _ st1 Htag1) as Htag2.
  destruct (drain fetch_impl pending st1) as [st2 results].
  cbn [fst snd] in *.
  exists st2, results, (new1 ++ new2). split; [reflexivity|]. split.
  - apply Forall2_fmap_r in Htag2. exact Htag2.
  - split.
    + rewrite Hnew2, Hnew1, Hst0, <- !app_assoc. reflexivity.
    + rewrite length_app. cbn in Hlen1. lia.
Qed.

(** C8: whatever the order in which the answers arrive,
    [Promise.allSettled] hands back the five outcomes in the order Binance,
    Bybit, MEXC, Gate, OKX, a success being a ticker of the exchange at its
    position, and [fetchAvailableTickers] returns exactly the successes
    among them, each once and in that order (none exactly when all five
    failed).  In a world without state each outcome is the one the probe
    has when run on its own, so that no probe gains or loses by what
    happens to another.  When the fast path against Binance has failed and
    no exchange was forced, the orchestrator, unless cancelled, selects the
    first ticker of that list, and fails with "Not found" only when the
    list is empty. *)
Theorem slow_path_selects_first_success
    (schedule : list nat) (sym : string) (st : NetState World) :
  exists st' results tickers,
    allSettled fetch_impl schedule (ticker_probes sym) st = (st', Ok results)
    /\ fetchAvailableTickers schedule sym st = (st', Ok tickers)
    /\ Forall2 (fun r e => forall t, r = Ok t -> exchange t = e)
         results [Binance; Bybit; MEXC; Gate; OKX]
    /\ map Ok tickers = List.filter succeeds results
    /\ (tickers = [] <-> Forall (fun r => succeeds r = false) results)
    /\ (stateless fetch_impl ->
        results = [ snd (fetchBinanceTicker sym st);
                    snd (fetchBybitTicker sym st);
                    snd (fetchMexcTicker sym st);
                    snd (fetchGateTicker sym st);
                    snd (fetchOkxTicker sym st) ])
    /\ (forall (symbol : string) (st0 : NetState World) (err : Error),
          toUpperCase symbol = sym ->
          fetchTicker sym (exchange_name Binance) st0 = (st, Throw err) ->
          loadData_resolve schedule symbol None false st0
          = (st',
             match tickers with
             | [] => Throw (ErrorMsg "Not found")
             | first :: _ =>
                 Ok (SlowPath (exchange first) first (map exchange tickers))
             end)).
Proof.
  destruct (allSettled_probes schedule sym st)
    as (st' & results & new & Hrun & Htag & _ & _).
  assert (Havail : fetchAvailableTickers schedule sym st
                   = (st', Ok (fulfilled results))).
  { unfold fetchAvailableTickers. unfold_net_goal. rewrite Hrun. reflexivity. }
  exists st', results, (fulfilled results).
  split; [exact Hrun|]. split; [exact Havail|]. split; [exact Htag|].
  split; [apply fulfilled_filter|]. split; [apply fulfilled_nil|]. split.
  - intros Hstateless.
    pose proof (allSettled_alone fetch_impl Hstateless schedule
                  (ticker_probes sym) st) as Halone.
    rewrite Hrun in Halone. injection Halone as ->.
    unfold ticker_probes. cbn [map].
    rewrite <- !outcome_alone_run.
    rewrite fetchBinanceTicker_task_run, fetchBybitTicker_task_run,
      fetchMexcTicker_task_run, fetchGateTicker_task_run,
      fetchOkxTicker_task_run.
    reflexivity.
  - intros symbol st0 err <- Hfast.
    unfold loadData_resolve. unfold_net_goal. cbv beta zeta.
    change (default Binance None) with Binance.
    rewrite Hfast. cbv beta iota. rewrite Havail. cbv beta iota.
    destruct (fulfilled results); reflexivity.
Qed.

End Facts.

Lemma slow_path_selects_first_success_witness :
  exists st' bybit okx,
    exchange bybit = Bybit /\ exchange okx = OKX
    /\ loadData_resolve (platform := bybit_and_okx)
         [4; 1; 0; 3; 2; 0; 2; 3]%nat "btc" None false fresh
       = (st', Ok (SlowPath Bybit bybit [Bybit; OKX])).
Proof.
  pose (st := fst (fetchTicker (platform := bybit_and_okx) "btc"
                     (exchange_name Binance) fresh)).
  destruct (slow_path_selects_first_success (platform := bybit_and_okx)
              [4; 1; 0; 3; 2; 0; 2; 3]%nat "btc" st)
    as (st' & results & tickers & _ & Havail & _ & Hkept & _ & Halone & Hres).
  assert (Hstateless : stateless (fetch_impl (Platform := bybit_and_okx))).
  { intros [] url. cbn.
    repeat match goal with
           | |- context [if ?c then _ else _] => destruct c
           end; reflexivity. }
  rewrite (Halone Hstateless) in Hkept.
  vm_compute in Hkept.
  destruct tickers as [|bybit [|okx [|extra tickers]]]; try discriminate Hkept.
  injection Hkept as Hb Ho.
  exists st', bybit, okx.
  rewrite (Hres "btc"%string fresh (NetworkError "Failed to fetch"));
    [| reflexivity | vm_compute; reflexivity].
  rewrite Hb, Ho. split; [reflexivity|]. split; reflexivity.
Defined.

(** In a world with state the outcomes do depend on the order of arrival:
    where only the first two requests answered carry a ticker, Binance is
    found when its answer comes first, and nothing is when the answers to
    OKX and Gate, which cannot use that ticker, come first. *)
Lemma arrival_order_matters :
  (exists t,
     snd (fetchAvailableTickers (platform := first_two_answered) [] "btc"
            {| world := 0%nat; requests := [] |}) = Ok [t]
     /\ exchange t = Binance)
  /\ snd (fetchAvailableTickers (platform := first_two_answered)
            [4; 3]%nat "btc" {| world := 0%nat; requests := [] |}) = Ok [].
Proof.
  split; [|vm_compute; reflexivity].
  vm_compute. eexists. split; reflexivity.
Qed.

End ServiceFacts.

(** ** More on the indicator engine *)

Module IndicatorExtras.
Import Indicators IndicatorInvariants Samples LoopFacts IndicatorFacts NumberOrder.
Local Open Scope float_scope.

(** *** Arrays and order *)

Lemma arr_set_lookup_eq i v (arr : list cell) :
  (i < length arr)%nat -> arr_set i v arr !! i = Some v.
Proof.
  intros Hi. unfold arr_set.
  replace (i <? length arr)%nat with true by (symmetry; apply Nat.ltb_lt, Hi).
  apply list_lookup_insert_eq, Hi.
Qed.

Lemma arr_set_lookup_ne i n v (arr : list cell) :
  (i < length arr)%nat -> i <> n -> arr_set i v arr !! n = arr !! n.
Proof.
  intros Hi Hne. unfold arr_set.
  replace (i <? length arr)%nat with true by (symmetry; apply Nat.ltb_lt, Hi).
  apply list_lookup_insert_ne, Hne.
Qed.

Lemma SFltb_irrefl (a : spec_float) : SFltb a a = false.
Proof.
  unfold SFltb. destruct a as [s|s| |s m e]; cbn; try reflexivity;
    destruct s; cbn; try reflexivity;
    rewrite Z.compare_refl; change (Pos.compare_cont Eq) with Pos.compare;
    rewrite Pos.compare_refl; reflexivity.
Qed.

(** No number is below itself. *)
Lemma lt_irrefl (a : number) : lt a a = false.
Proof. unfold lt. rewrite FloatAxioms.ltb_spec. apply SFltb_irrefl. Qed.

(** *** EMA *)

Section EMA.
Variable data : list KlineData.
Variable p : Z.

Lemma ema_body_inv i st :
  (i < length data)%nat -> ema_inv data p i st ->
  exists st', ema_body data p i st = Ok st' /\ ema_inv data p (S i) st'.
Proof.
  intros Hi. destruct st as [ema arr].
  intros (Hlen & Hnull & Hdef & Hlast & Hrec).
  destruct (at_index_in_range data i Hi) as (c & Hc & Hat).
  assert (Hsnoc : forall x n, (n < i)%nat -> (arr ++ [x]) !! n = arr !! n).
  { intros x n Hn. apply lookup_app_l. lia. }
  assert (Hend : forall x, (arr ++ [x]) !! i = Some x).
  { intros x. rewrite lookup_app_r by lia.
    rewrite Hlen, Nat.sub_diag. reflexivity. }
  unfold ema_body.
  destruct (Z.ltb_spec (Z.of_nat i) (p - 1)).
  - rewrite Hat. cbn [mbind Exc_bind JS.bind]. eexists. split; [reflexivity|].
    cbn. rewrite length_app. cbn. repeat split.
    + lia.
    + intros n Hn Hnp. destruct (decide (n = i)) as [->|]; [apply Hend|].
      rewrite Hsnoc by lia. apply Hnull; lia.
    + intros n Hn Hnp. lia.
    + intros n [= <-] Hnp. lia.
    + intros n Hn Hnp. lia.
  - destruct (Z.eqb_spec (Z.of_nat i) (p - 1)) as [Heq|Hne].
    + rewrite ema_sum_loop by (cbn; lia). cbn [mbind Exc_bind JS.bind].
      eexists. split; [reflexivity|].
      cbn. rewrite length_app. cbn. repeat split.
      * lia.
      * intros n Hn Hnp. rewrite Hsnoc by lia. apply Hnull; lia.
      * intros n Hn Hnp. assert (n = i) as -> by lia. rewrite Hend. eauto.
      * intros n [= <-] Hnp. apply Hend.
      * intros n Hn Hnp. lia.
    + rewrite Hat. cbn [mbind Exc_bind JS.bind]. eexists.
      split; [reflexivity|].
      cbn. rewrite length_app. cbn. repeat split.
      * lia.
      * intros n Hn Hnp. rewrite Hsnoc by lia. apply Hnull; lia.
      * intros n Hn Hnp.
        destruct (decide (n = i)) as [->|]; [rewrite Hend; eauto|].
        rewrite Hsnoc by lia. apply Hdef; lia.
      * intros n [= <-] Hnp. apply Hend.
      * intros n Hn Hnp. destruct (decide (S n = i)) as [<-|].
        -- exists ema, c. rewrite Hsnoc by lia. rewrite Hend.
           split; [apply Hlast; [reflexivity | lia]|].
           split; [exact Hc | reflexivity].
        -- destruct (Hrec n) as (prev & c' & H1 & H2 & H3); [lia | lia |].
           exists prev, c'. rewrite !Hsnoc by lia. auto.
Qed.

Lemma calculateEMA_inv :
  data <> [] ->
  exists ema out,
    calculateEMA data p = Ok out
    /\ ema_inv data p (length data) (ema, out).
Proof.
  intros Hne. unfold calculateEMA.
  destruct (at_index_in_range data 0) as (c0 & _ & Hat).
  { destruct data; [contradiction | cbn; lia]. }
  rewrite Hat. cbn [mbind Exc_bind JS.bind].
  destruct (for_loop_total (ema_inv data p) (ema_body data p) (length data) 0
              (close c0, [])) as ([ema out] & Hloop & Hinv).
  - intros i s0 Hi Hinv. apply ema_body_inv; [lia | exact Hinv].
  - cbn. repeat split; intros; lia.
  - rewrite Hloop. cbn [JS.bind snd]. exists ema, out.
    split; [reflexivity | exact Hinv].
Qed.
End EMA.

(** X1: on a non-empty series [calculateEMA] returns one entry per candle:
    [null] at every index below [period - 1], a number at every index from
    [period - 1] on. *)
Theorem calculateEMA_warm_up (data : list KlineData) (p : Z) :
  data <> [] ->
  exists out,
    calculateEMA data p = Ok out
    /\ length out = length data
    /\ forall i, (i < length data)%nat ->
         ((Z.of_nat i < p - 1)%Z -> out !! i = Some None)
         /\ ((p - 1 <= Z.of_nat i)%Z -> exists v, out !! i = Some (Some v)).
Proof.
  intros Hne.
  destruct (calculateEMA_inv data p Hne)
    as (ema & out & Hout & Hlen & Hnull & Hdef & _).
  exists out. split; [exact Hout|]. split; [exact Hlen|].
  intros i Hi. split; intros Hp; [apply Hnull | apply Hdef]; assumption.
Qed.

Lemma calculateEMA_warm_up_witness :
  exists out,
    calculateEMA rise_then_fall 3 = Ok out
    /\ length out = length rise_then_fall
    /\ forall i, (i < length rise_then_fall)%nat ->
         ((Z.of_nat i < 3 - 1)%Z -> out !! i = Some None)
         /\ ((3 - 1 <= Z.of_nat i)%Z -> exists v, out !! i = Some (Some v)).
Proof. apply (calculateEMA_warm_up rise_then_fall 3). discriminate. Defined.

(** X2: past the seed, each EMA entry is the close of its candle times
    [k = 2 / (period + 1)] plus the entry before it times [1 - k]. *)
Theorem calculateEMA_recurrence (data : list KlineData) (p : Z) (i : nat) :
  (p - 1 <= Z.of_nat i)%Z ->
  (S i < length data)%nat ->
  exists out prev c,
    calculateEMA data p = Ok out
    /\ out !! i = Some (Some prev)
    /\ data !! S i = Some c
    /\ out !! S i =
       Some (Some (close c * ema_k p + prev * (PrimFloat.one - ema_k p))).
Proof.
  intros Hp Hi.
  destruct (calculateEMA_inv data p)
    as (ema & out & Hout & _ & _ & _ & _ & Hrec).
  { intros ->. cbn in Hi. lia. }
  destruct (Hrec i Hi Hp) as (prev & c & H1 & H2 & H3).
  exists out, prev, c. auto.
Qed.

Lemma calculateEMA_recurrence_witness :
  exists out prev c,
    calculateEMA rise_then_fall 3 = Ok out
    /\ out !! 2%nat = Some (Some prev)
    /\ rise_then_fall !! 3%nat = Some c
    /\ out !! 3%nat =
       Some (Some (close c * ema_k 3 + prev * (PrimFloat.one - ema_k 3))).
Proof. apply (calculateEMA_recurrence rise_then_fall 3 2); cbn; lia. Defined.

(** *** RSI *)

Section RSI.
Variable data : list KlineData.
Variable p : Z.

Lemma gain_sum_S n :
  gain_sum data (S n) = gain_sum data n + rsi_gain (close_diff data (S n)).
Proof. unfold gain_sum. rewrite seq_S, fold_left_app. reflexivity. Qed.

Lemma loss_sum_S n :
  loss_sum data (S n) = loss_sum data n + rsi_loss (close_diff data (S n)).
Proof. unfold loss_sum. rewrite seq_S, fold_left_app. reflexivity. Qed.

Lemma rsi_change_diff i :
  (1 <= i < length data)%nat -> rsi_change data i = Ok (close_diff data i).
Proof.
  intros Hi. unfold rsi_change, close_diff.
  destruct (at_index_in_range data i) as (c & Hc & Hat); [lia|].
  destruct (at_index_in_range data (i - 1)) as (c' & Hc' & Hat'); [lia|].
  rewrite Hat, Hat', Hc, Hc'. reflexivity.
Qed.

Lemma rsi_body_inv i st :
  (1 <= i < length data)%nat -> rsi_inv data p i st ->
  exists st', rsi_body data p i st = Ok st' /\ rsi_inv data p (S i) st'.
Proof.
  intros Hi. destruct st as [[g l] res].
  intros (Hlen & Hsum & Hdef & Hnull & Hseed).
  unfold rsi_body. rewrite rsi_change_diff by lia.
  cbn [mbind Exc_bind JS.bind].
  assert (Hset : forall v n, n <> i -> arr_set i v res !! n = res !! n).
  { intros v n Hn. apply arr_set_lookup_ne; [lia | congruence]. }
  assert (Hsetlen : forall v, length (arr_set i v res) = length data).
  { intros v. rewrite length_arr_set; lia. }
  assert (Hkeep : forall n, (n < length data)%nat ->
            (S i <= n)%nat \/ n = 0%nat \/ (Z.of_nat n < p)%Z ->
            res !! n = Some None).
  { intros n Hn Hc. apply Hnull; [exact Hn|].
    destruct Hc as [?|[?|?]]; [left | right; left | right; right]; lia. }
  destruct (Z.ltb_spec (Z.of_nat i) p).
  - eexists. split; [reflexivity|]. unfold rsi_inv. split; [exact Hlen|].
    split.
    { intros _. destruct (Hsum ltac:(lia)) as [-> ->].
      replace (S i - 1)%nat with (S (i - 1)) by lia.
      rewrite gain_sum_S, loss_sum_S.
      replace (S (i - 1)) with i by lia. split; reflexivity. }
    split; [intros n Hn Hnp; destruct (decide (n = i));
            [lia | apply Hdef; lia]|].
    split; [exact Hkeep|].
    intros n Hn Hnp.
    destruct (decide (n = i)); [lia | apply Hseed; [lia | exact Hnp]].
  - destruct (Z.eqb_spec (Z.of_nat i) p) as [Heq|Hne].
    + eexists. split; [reflexivity|]. unfold rsi_inv.
      split; [apply Hsetlen|].
      split; [intros; lia|].
      split.
      { intros n Hn Hnp. destruct (decide (n = i)) as [->|Hni].
        - rewrite arr_set_lookup_eq by lia. eauto.
        - rewrite Hset by exact Hni. apply Hdef; lia. }
      split.
      { intros n Hn Hc. rewrite Hset by lia. apply Hkeep; assumption. }
      intros n Hn Hnp. destruct (decide (n = i)) as [->|Hni].
      * rewrite arr_set_lookup_eq by lia.
        destruct (Hsum ltac:(lia)) as [-> ->]. reflexivity.
      * rewrite Hset by exact Hni. apply Hseed; [lia | exact Hnp].
    + eexists. split; [reflexivity|]. unfold rsi_inv.
      split; [apply Hsetlen|].
      split; [intros; lia|].
      split.
      { intros n Hn Hnp. destruct (decide (n = i)) as [->|Hni].
        - rewrite arr_set_lookup_eq by lia. eauto.
        - rewrite Hset by exact Hni. apply Hdef; lia. }
      split.
      { intros n Hn Hc. rewrite Hset by lia. apply Hkeep; assumption. }
      intros n Hn Hnp. destruct (decide (n = i)) as [->|Hni]; [lia|].
      rewrite Hset by exact Hni. apply Hseed; [lia | exact Hnp].
Qed.

Lemma rsi_first_loop_ok :
  exists st,
    for_loop (rsi_first_body data p) 0 (length data) (0, 0, []) = Ok st.
Proof.
  destruct (for_loop_total (fun _ _ => True) (rsi_first_body data p)
              (length data) 0 (0, 0, [])) as (s1 & H1 & _);
    [|exact I|eauto].
  intros i [[g l] arr] Hi _. unfold rsi_first_body.
  destruct (i =? 0)%nat eqn:Hi0; [eexists; split; [reflexivity | exact I]|].
  apply Nat.eqb_neq in Hi0.
  rewrite rsi_change_diff by lia.
  cbn [mbind Exc_bind JS.bind].
  destruct (Z.of_nat i <? p)%Z; [eexists; split; [reflexivity | exact I]|].
  destruct (Z.of_nat i =? p)%Z; eexists; split; try reflexivity; exact I.
Qed.

Lemma calculateRSI_inv :
  exists g l out,
    calculateRSI data p = Ok out
    /\ rsi_inv data p (1 + (length data - 1)) (g, l, out).
Proof.
  unfold calculateRSI.
  destruct rsi_first_loop_ok as [s1 H1]. rewrite H1.
  cbn [mbind Exc_bind JS.bind].
  destruct (for_loop_total (rsi_inv data p) (rsi_body data p)
              (length data - 1) 1 (0, 0, replicate (length data) None))
    as ([[g l] out] & Hloop & Hinv).
  - intros i s0 Hi Hinv. apply rsi_body_inv; [lia | exact Hinv].
  - unfold rsi_inv. split; [apply length_replicate|].
    split; [intros _; split; reflexivity|].
    split; [intros; lia|].
    split; [intros n Hn _; apply lookup_replicate_2; exact Hn|].
    intros; lia.
  - rewrite Hloop. cbn [JS.bind snd]. exists g, l, out.
    split; [reflexivity | exact Hinv].
Qed.
End RSI.

(** X3: [calculateRSI] returns, on every series and period, one entry per
    candle: [null] at index 0 and at every index below [period], a number
    at every other index. *)
Theorem calculateRSI_shape (data : list KlineData) (p : Z) :
  exists out,
    calculateRSI data p = Ok out
    /\ length out = length data
    /\ forall i, (i < length data)%nat ->
         (i = 0%nat \/ (Z.of_nat i < p)%Z -> out !! i = Some None)
         /\ ((1 <= i)%nat -> (p <= Z.of_nat i)%Z ->
             exists v, out !! i = Some (Some v)).
Proof.
  destruct (calculateRSI_inv data p)
    as (g & l & out & Hout & Hlen & _ & Hdef & Hnull & _).
  exists out. split; [exact Hout|]. split; [exact Hlen|].
  intros i Hi. split.
  - intros Hc. apply Hnull; [exact Hi | right; exact Hc].
  - intros H1 Hp. apply Hdef; [lia | exact Hp].
Qed.

(** X4: the first RSI value, at index [period], is computed from the sums of
    the gains and of the losses of the changes at indices
    [1 .. period - 1], each divided by [period]; the change at index
    [period] itself does not enter it. *)
Theorem calculateRSI_seed (data : list KlineData) (p : Z) :
  (1 <= p)%Z ->
  (p < Z.of_nat (length data))%Z ->
  exists out,
    calculateRSI data p = Ok out
    /\ out !! Z.to_nat p =
       Some (Some (rsi_value
                     (gain_sum data (Z.to_nat p - 1) / num_of_Z p)
                     (loss_sum data (Z.to_nat p - 1) / num_of_Z p))).
Proof.
  intros Hp Hlen.
  destruct (calculateRSI_inv data p)
    as (g & l & out & Hout & _ & _ & _ & _ & Hseed).
  exists out. split; [exact Hout|]. apply Hseed; lia.
Qed.

Lemma calculateRSI_seed_witness :
  exists out,
    calculateRSI rise_then_fall 3 = Ok out
    /\ out !! Z.to_nat 3 =
       Some (Some (rsi_value
                     (gain_sum rise_then_fall (Z.to_nat 3 - 1) / num_of_Z 3)
                     (loss_sum rise_then_fall (Z.to_nat 3 - 1) / num_of_Z 3))).
Proof. apply (calculateRSI_seed rise_then_fall 3); cbn; lia. Defined.

(** *** KDJ *)

Section KDJ.
Variable data : list KlineData.
Variable p : Z.

Lemma kdj_body_inv i st :
  (i < length data)%nat -> kdj_inv p i st ->
  exists st', kdj_body data p i st = Ok st' /\ kdj_inv p (S i) st'.
Proof.
  intros Hi (HK & HD & HJ & Hnull & Hdef & Hlast & Hseed).
  unfold cell in *.
  assert (Hsnoc : forall (arr : list (option number)) x n,
            length arr = i -> (n < i)%nat -> (arr ++ [x]) !! n = arr !! n).
  { intros arr x n Hl Hn. apply lookup_app_l. lia. }
  assert (Hend : forall (arr : list (option number)) x,
            length arr = i -> (arr ++ [x]) !! i = Some x).
  { intros arr x Hl. rewrite lookup_app_r by lia.
    rewrite Hl, Nat.sub_diag. reflexivity. }
  unfold kdj_body.
  destruct (Z.ltb_spec (Z.of_nat i) (p - 1)).
  - eexists. split; [reflexivity|]. unfold kdj_inv. cbn [K D J kValue dValue]. unfold cell in *.
    rewrite !length_app. cbn [length].
    split; [lia|]. split; [lia|]. split; [lia|].
    split.
    { intros n Hn Hnp. destruct (decide (n = i)) as [->|].
      - rewrite !Hend by assumption. auto.
      - rewrite !Hsnoc by (assumption || lia). apply Hnull; lia. }
    split; [intros n Hn Hnp; lia|].
    split; [intros m [= <-] Hm; lia|].
    intros Hall. apply Hseed. intros n Hn. apply Hall. lia.
  - destruct (at_index_in_range data i) as (c & _ & Hc); [lia|].
    rewrite Hc. cbn [mbind Exc_bind JS.bind].
    destruct (kdj_window_ok data p i (low c) (high c)) as [[lo hi] Hw];
      [lia | lia |].
    rewrite Hw. cbn [mbind Exc_bind JS.bind].
    eexists. split; [reflexivity|]. unfold kdj_inv. cbn [K D J kValue dValue]. unfold cell in *.
    rewrite !length_app. cbn [length].
    split; [lia|]. split; [lia|]. split; [lia|].
    split.
    { intros n Hn Hnp. rewrite !Hsnoc by (assumption || lia).
      apply Hnull; lia. }
    split.
    { intros n Hn Hnp. destruct (decide (n = i)) as [->|].
      - rewrite !Hend by assumption. eexists _, _.
        split; [reflexivity|]. split; [reflexivity|]. split; [reflexivity|].
        unfold kdj_prev_D.
        destruct i as [|m]; [f_equal; f_equal; apply Hseed; intros; lia|].
        destruct (Z.leb_spec (p - 1) (Z.of_nat m)).
        + unfold arr_num. rewrite Hsnoc by (assumption || lia).
          rewrite (Hlast m eq_refl) by lia. reflexivity.
        + f_equal. f_equal. apply Hseed. intros n Hn'. lia.
      - destruct (Hdef n) as (kv & dv & H1 & H2 & H3 & H4); [lia | lia |].
        exists kv, dv. rewrite !Hsnoc by (assumption || lia).
        split; [exact H1|]. split; [exact H2|]. split; [exact H3|].
        rewrite H4. unfold kdj_prev_D. destruct n as [|m]; [reflexivity|].
        destruct (p - 1 <=? Z.of_nat m)%Z; [|reflexivity].
        unfold arr_num. rewrite Hsnoc by (assumption || lia). reflexivity. }
    split; [intros m [= <-] Hm; apply Hend; assumption|].
    intros Hall. specialize (Hall i). lia.
Qed.

Lemma calculateKDJ_inv :
  exists st,
    calculateKDJ data p = Ok {| k := K st; d := D st; j := J st |}
    /\ kdj_inv p (length data) st.
Proof.
  unfold calculateKDJ.
  destruct (for_loop_total (kdj_inv p) (kdj_body data p) (length data) 0
              {| kValue := 50; dValue := 50; K := []; D := []; J := [] |})
    as (st & Hloop & Hinv).
  - intros i s0 Hi Hinv. apply kdj_body_inv; [lia | exact Hinv].
  - unfold kdj_inv. cbn. repeat split; intros; lia.
  - rewrite Hloop. cbn [mbind Exc_bind JS.bind]. exists st.
    split; [reflexivity | exact Hinv].
Qed.
End KDJ.

(** X5: [calculateKDJ] returns, on every series and period, three arrays
    with one entry per candle, [null] together at every index below
    [period - 1] and numbers together from there on, where
    [J = 3 * K - 2 * D] holds exactly. *)
Theorem calculateKDJ_shape_and_J (data : list KlineData) (p : Z) :
  exists r,
    calculateKDJ data p = Ok r
    /\ length (k r) = length data /\ length (d r) = length data
    /\ length (j r) = length data
    /\ forall i, (i < length data)%nat ->
         ((Z.of_nat i < p - 1)%Z ->
          k r !! i = Some None /\ d r !! i = Some None
          /\ j r !! i = Some None)
         /\ ((p - 1 <= Z.of_nat i)%Z ->
             exists kv dv,
               k r !! i = Some (Some kv) /\ d r !! i = Some (Some dv)
               /\ j r !! i = Some (Some (3 * kv - 2 * dv))).
Proof.
  destruct (calculateKDJ_inv data p)
    as (st & Hout & HK & HD & HJ & Hnull & Hdef & _).
  eexists. split; [exact Hout|]. cbn [k d j].
  split; [exact HK|]. split; [exact HD|]. split; [exact HJ|].
  intros i Hi. split; intros Hp.
  - apply Hnull; assumption.
  - destruct (Hdef i Hi Hp) as (kv & dv & H1 & H2 & H3 & _). eauto.
Qed.

(** X6: at every defined index [D] is two thirds of the [D] before it plus
    one third of the [K] of the index, the [D] before the first defined
    index being the seed 50. *)
Theorem calculateKDJ_D_smoothing (data : list KlineData) (p : Z) (i : nat) :
  (p - 1 <= Z.of_nat i)%Z ->
  (i < length data)%nat ->
  exists r kv dv,
    calculateKDJ data p = Ok r
    /\ k r !! i = Some (Some kv)
    /\ d r !! i = Some (Some dv)
    /\ dv = (2 / 3) * kdj_prev_D p (d r) i + (1 / 3) * kv.
Proof.
  intros Hp Hi.
  destruct (calculateKDJ_inv data p)
    as (st & Hout & _ & _ & _ & _ & Hdef & _).
  destruct (Hdef i Hi Hp) as (kv & dv & H1 & H2 & _ & H4).
  eexists _, kv, dv. split; [exact Hout|]. cbn [k d]. auto.
Qed.

Lemma calculateKDJ_D_smoothing_witness :
  exists r kv dv,
    calculateKDJ rise_then_fall 3 = Ok r
    /\ k r !! 3%nat = Some (Some kv)
    /\ d r !! 3%nat = Some (Some dv)
    /\ dv = (2 / 3) * kdj_prev_D 3 (d r) 3 + (1 / 3) * kv.
Proof. apply (calculateKDJ_D_smoothing rise_then_fall 3 3); cbn; lia. Defined.

(** *** Parabolic SAR *)

Section SAR.
Variable data : list KlineData.
Variables startAf maxAf : number.

(** What a tick does to the trend, the extreme point and the array. *)
Lemma sar_body_step i st :
  (1 <= i < length data)%nat ->
  exists newSar ci st',
    sar_clamped data i st = Ok newSar
    /\ data !! i = Some ci
    /\ sar_body data startAf maxAf i st = Ok st'
    /\ isUptrend st' =
         (if sar_breach ci newSar st then negb (isUptrend st)
          else isUptrend st)
    /\ ep st' =
         (if sar_breach ci newSar st
          then (if isUptrend st then low ci else high ci)
          else if sar_new_extreme ci st
               then (if isUptrend st then high ci else low ci)
               else ep st)
    /\ sar st' =
         arr_set i
           (Some (if sar_breach ci newSar st then ep st else newSar))
           (sar st).
Proof.
  intros Hi.
  destruct (sar_clamped_ok data i st Hi) as [newSar Hc].
  destruct (at_index_in_range data i) as (ci & Hci & Hat); [lia|].
  exists newSar, ci. unfold sar_body. rewrite Hc, Hat.
  cbn [mbind Exc_bind JS.bind].
  unfold sar_reversal, sar_breach, sar_new_extreme, sar_extreme.
  destruct (isUptrend st) eqn:Hup.
  - destruct (lt (low ci) newSar); cbn [negb].
    + eexists. repeat split; try eassumption; reflexivity.
    + rewrite Hup. destruct (gt (high ci) (ep st));
        eexists; repeat split; try eassumption; cbn; try rewrite Hup;
        reflexivity.
  - destruct (gt (high ci) newSar); cbn [negb].
    + eexists. repeat split; try eassumption; reflexivity.
    + rewrite Hup. destruct (lt (low ci) (ep st));
        eexists; repeat split; try eassumption; cbn; try rewrite Hup;
        reflexivity.
Qed.

(** The clamp: in an uptrend the stop is above neither of the two previous
    lows, in a downtrend below neither of the two previous highs. *)
Lemma sar_clamped_bounds i st newSar c1 c2 :
  sar_clamped data i st = Ok newSar ->
  data !! (i - 1)%nat = Some c1 ->
  data !! (i - 2)%nat = Some c2 ->
  if isUptrend st
  then gt newSar (low c1) = false /\ gt newSar (low c2) = false
  else lt newSar (high c1) = false /\ lt newSar (high c2) = false.
Proof.
  intros Hc H1 H2. unfold sar_clamped in Hc.
  rewrite (at_index_lookup _ _ _ H1) in Hc.
  assert (Hi2 : (1 <? i)%nat = false -> c2 = c1).
  { intros Hlt. apply Nat.ltb_ge in Hlt.
    replace (i - 2)%nat with (i - 1)%nat in H2 by lia. congruence. }
  destruct (isUptrend st); cbn [mbind Exc_bind JS.bind] in Hc.
  - set (raw := PrimFloat.add _ _) in Hc.
    assert (Hlow2 : exists low2,
               (low2 = low c2)
               /\ Ok (let n1 := if gt raw (low c1) then low c1 else raw in
                      if gt n1 low2 then low2 else n1) = Ok newSar).
    { destruct (1 <? i)%nat eqn:E.
      - rewrite (at_index_lookup _ _ _ H2) in Hc. eauto.
      - rewrite (Hi2 eq_refl). eauto. }
    destruct Hlow2 as (low2 & -> & [= <-]). cbn zeta.
    assert (Hn1 : gt (if gt raw (low c1) then low c1 else raw) (low c1)
                  = false).
    { destruct (gt raw (low c1)) eqn:E; [apply lt_irrefl | exact E]. }
    set (n1 := if gt raw (low c1) then low c1 else raw) in *.
    destruct (gt n1 (low c2)) eqn:E2.
    + split; [|apply lt_irrefl].
      unfold gt in *. destruct (PrimFloat.ltb (low c1) (low c2)) eqn:E3;
        [|reflexivity].
      pose proof (lt_trans _ _ _ E3 E2) as Hc'. unfold lt in Hc'. congruence.
    + split; assumption.
  - set (raw := PrimFloat.add _ _) in Hc.
    assert (Hhigh2 : exists high2,
               (high2 = high c2)
               /\ Ok (let n1 := if lt raw (high c1) then high c1 else raw in
                      if lt n1 high2 then high2 else n1) = Ok newSar).
    { destruct (1 <? i)%nat eqn:E.
      - rewrite (at_index_lookup _ _ _ H2) in Hc. eauto.
      - rewrite (Hi2 eq_refl). eauto. }
    destruct Hhigh2 as (high2 & -> & [= <-]). cbn zeta.
    assert (Hn1 : lt (if lt raw (high c1) then high c1 else raw) (high c1)
                  = false).
    { destruct (lt raw (high c1)) eqn:E; [apply lt_irrefl | exact E]. }
    set (n1 := if lt raw (high c1) then high c1 else raw) in *.
    destruct (lt n1 (high c2)) eqn:E2.
    + split; [|apply lt_irrefl].
      destruct (lt (high c2) (high c1)) eqn:E3; [|reflexivity].
      pose proof (lt_trans _ _ _ E2 E3) as Hc'. congruence.
    + split; assumption.
Qed.

Lemma sar_body_inv i st :
  (1 <= i < length data)%nat -> sar_inv data i st ->
  exists st',
    sar_body data startAf maxAf i st = Ok st' /\ sar_inv data (S i) st'.
Proof.
  intros Hi (Hlen & Hdef & Hnull).
  destruct (sar_body_step i st Hi)
    as (newSar & ci & st' & _ & _ & Hbody & _ & _ & Hsar).
  exists st'. split; [exact Hbody|]. unfold sar_inv. rewrite Hsar.
  split; [rewrite length_arr_set; lia|].
  split.
  - intros n Hn. destruct (decide (n = i)) as [->|].
    + rewrite arr_set_lookup_eq by lia. eauto.
    + rewrite arr_set_lookup_ne by lia. apply Hdef. lia.
  - intros n Hn. rewrite arr_set_lookup_ne by lia. apply Hnull. lia.
Qed.

(** Every prefix of the scan returns, with the array filled up to its last
    tick. *)
Lemma sar_scan_inv n :
  (n < length data)%nat ->
  exists st,
    sar_scan data startAf maxAf n = Ok st /\ sar_inv data (S n) st.
Proof.
  induction n as [|n IH]; intros Hn.
  - destruct (at_index_in_range data 0 Hn) as (c0 & _ & Hat).
    unfold sar_scan, sar_init. rewrite Hat. cbn [mbind Exc_bind JS.bind for_loop].
    eexists. split; [reflexivity|]. unfold sar_inv. cbn [sar].
    split; [rewrite length_arr_set; rewrite length_replicate; lia|].
    split.
    + intros m Hm. assert (m = 0%nat) as -> by lia.
      rewrite arr_set_lookup_eq by (rewrite length_replicate; lia). eauto.
    + intros m Hm.
      rewrite arr_set_lookup_ne by (rewrite ?length_replicate; lia).
      apply lookup_replicate_2. lia.
  - destruct IH as (st & Hscan & Hinv); [lia|].
    destruct (sar_body_inv (S n) st) as (st' & Hbody & Hinv');
      [lia | exact Hinv |].
    exists st'. rewrite sar_scan_succ, Hscan. cbn [JS.bind].
    split; [exact Hbody | exact Hinv'].
Qed.

(** A later tick leaves the entries of the earlier ones as they are. *)
Lemma sar_scan_keeps n m st st' :
  (n <= m < length data)%nat ->
  sar_scan data startAf maxAf n = Ok st ->
  sar_scan data startAf maxAf m = Ok st' ->
  forall i, (i <= n)%nat -> sar st' !! i = sar st !! i.
Proof.
  intros [Hnm Hm]. revert st'. induction m as [|m IH]; intros st' Hn Hm' i Hi.
  - assert (n = 0%nat) as -> by lia. congruence.
  - destruct (decide (n = S m)) as [->|Hne]; [congruence|].
    destruct (sar_scan_inv m) as (stm & Hscan & Hlen & _); [lia|].
    rewrite sar_scan_succ, Hscan in Hm'. cbn [JS.bind] in Hm'.
    destruct (sar_body_step (S m) stm)
      as (newSar & ci & st1 & _ & _ & Hbody & _ & _ & Hsar); [lia|].
    assert (st1 = st') as -> by congruence.
    rewrite Hsar, arr_set_lookup_ne by lia.
    apply (IH ltac:(lia) ltac:(lia) stm Hn Hscan i Hi).
Qed.
End SAR.

(** X7: [calculateSAR] returns, on every series, one entry per candle: all
    [null] when the series has fewer than five candles, and a number at
    every index when it has five or more. *)
Theorem calculateSAR_defined_from_five
    (data : list KlineData) (startAf maxAf : number) :
  exists out,
    calculateSAR data startAf maxAf = Ok out
    /\ length out = length data
    /\ ((length data < 5)%nat ->
        forall i, (i < length data)%nat -> out !! i = Some None)
    /\ ((5 <= length data)%nat ->
        forall i, (i < length data)%nat ->
                  exists v, out !! i = Some (Some v)).
Proof.
  destruct (Nat.lt_ge_cases (length data) 5) as [Hlt|Hge].
  - exists (replicate (length data) None).
    split.
    { unfold calculateSAR. destruct (length data =? 0)%nat eqn:E.
      - apply Nat.eqb_eq in E. rewrite E. reflexivity.
      - replace (length data <? 5)%nat with true
          by (symmetry; apply Nat.ltb_lt, Hlt).
        reflexivity. }
    split; [apply length_replicate|].
    split; [|intros; lia].
    intros _ i Hi. apply lookup_replicate_2, Hi.
  - destruct (sar_scan_inv data startAf maxAf (length data - 1))
      as (st & Hscan & Hlen & Hdef & _); [lia|].
    exists (sar st).
    split; [rewrite calculateSAR_is_scan, Hscan by exact Hge; reflexivity|].
    split; [exact Hlen|].
    split; [intros; lia|].
    intros _ i Hi. apply Hdef. lia.
Qed.

(** X8: on a series of five candles or more, tick [i] of the scan flips the
    trend exactly when the candle breaches the clamped stop; the entry
    [calculateSAR] returns at [i] is then the extreme point held before the
    tick, and the clamped stop otherwise; and the extreme point becomes the
    low (leaving an uptrend) or high (leaving a downtrend) of the candle on
    a breach, its high or low on a new extreme, and stays otherwise. *)
Theorem sar_flips_exactly_on_breach
    (data : list KlineData) (startAf maxAf : number) (i : nat) :
  (5 <= length data)%nat ->
  (1 <= i < length data)%nat ->
  exists st newSar ci st' out,
    sar_scan data startAf maxAf (i - 1) = Ok st
    /\ sar_clamped data i st = Ok newSar
    /\ data !! i = Some ci
    /\ sar_scan data startAf maxAf i = Ok st'
    /\ calculateSAR data startAf maxAf = Ok out
    /\ isUptrend st' =
         (if sar_breach ci newSar st then negb (isUptrend st)
          else isUptrend st)
    /\ out !! i =
         Some (Some (if sar_breach ci newSar st then ep st else newSar))
    /\ ep st' =
         (if sar_breach ci newSar st
          then (if isUptrend st then low ci else high ci)
          else if sar_new_extreme ci st
               then (if isUptrend st then high ci else low ci)
               else ep st).
Proof.
  intros Hlen Hi.
  destruct (sar_scan_inv data startAf maxAf (i - 1))
    as (st & Hscan & Hl & _); [lia|].
  destruct (sar_scan_inv data startAf maxAf (length data - 1))
    as (final & Hfinal & _); [lia|].
  destruct (sar_body_step data startAf maxAf i st Hi)
    as (newSar & ci & st' & Hc & Hci & Hbody & Hup & Hep & Hsar).
  assert (Hscan' : sar_scan data startAf maxAf i = Ok st').
  { replace i with (S (i - 1)) at 1 by lia.
    rewrite sar_scan_succ, Hscan. cbn [JS.bind].
    replace (S (i - 1)) with i by lia. exact Hbody. }
  exists st, newSar, ci, st', (sar final).
  split; [exact Hscan|]. split; [exact Hc|]. split; [exact Hci|].
  split; [exact Hscan'|].
  split; [rewrite calculateSAR_is_scan, Hfinal by exact Hlen; reflexivity|].
  split; [exact Hup|].
  split; [|exact Hep].
  rewrite (sar_scan_keeps data startAf maxAf i (length data - 1) st' final)
    by (assumption || lia).
  rewrite Hsar. apply arr_set_lookup_eq. lia.
Qed.

Lemma sar_flips_exactly_on_breach_witness :
  exists st newSar ci st' out,
    sar_scan rise_then_fall default_startAf default_maxAf (4 - 1) = Ok st
    /\ sar_clamped rise_then_fall 4 st = Ok newSar
    /\ rise_then_fall !! 4%nat = Some ci
    /\ sar_scan rise_then_fall default_startAf default_maxAf 4 = Ok st'
    /\ calculateSAR rise_then_fall default_startAf default_maxAf = Ok out
    /\ isUptrend st' =
         (if sar_breach ci newSar st then negb (isUptrend st)
          else isUptrend st)
    /\ out !! 4%nat =
         Some (Some (if sar_breach ci newSar st then ep st else newSar))
    /\ ep st' =
         (if sar_breach ci newSar st
          then (if isUptrend st then low ci else high ci)
          else if sar_new_extreme ci st
               then (if isUptrend st then high ci else low ci)
               else ep st).
Proof.
  apply (sar_flips_exactly_on_breach rise_then_fall
           default_startAf default_maxAf 4); cbn; lia.
Defined.

(** X9: at every tick of the scan the clamped stop is, in an uptrend, above
    neither of the lows of the two candles before it and, in a downtrend,
    below neither of their highs (for the first tick the two are the same
    candle). *)
Theorem sar_stop_clamped_by_two_candles
    (data : list KlineData) (startAf maxAf : number) (i : nat) :
  (1 <= i < length data)%nat ->
  exists st newSar c1 c2,
    sar_scan data startAf maxAf (i - 1) = Ok st
    /\ sar_clamped data i st = Ok newSar
    /\ data !! (i - 1)%nat = Some c1
    /\ data !! (i - 2)%nat = Some c2
    /\ (if isUptrend st
        then gt newSar (low c1) = false /\ gt newSar (low c2) = false
        else lt newSar (high c1) = false /\ lt newSar (high c2) = false).
Proof.
  intros Hi.
  destruct (sar_scan_inv data startAf maxAf (i - 1))
    as (st & Hscan & _); [lia|].
  destruct (sar_clamped_ok data i st Hi) as [newSar Hc].
  destruct (at_index_in_range data (i - 1)) as (c1 & H1 & _); [lia|].
  destruct (at_index_in_range data (i - 2)) as (c2 & H2 & _); [lia|].
  exists st, newSar, c1, c2.
  split; [exact Hscan|]. split; [exact Hc|].
  split; [exact H1|]. split; [exact H2|].
  exact (sar_clamped_bounds data i st newSar c1 c2 Hc H1 H2).
Qed.

Lemma sar_stop_clamped_by_two_candles_witness :
  exists st newSar c1 c2,
    sar_scan rise_then_fall default_startAf default_maxAf (3 - 1) = Ok st
    /\ sar_clamped rise_then_fall 3 st = Ok newSar
    /\ rise_then_fall !! (3 - 1)%nat = Some c1
    /\ rise_then_fall !! (3 - 2)%nat = Some c2
    /\ (if isUptrend st
        then gt newSar (low c1) = false /\ gt newSar (low c2) = false
        else lt newSar (high c1) = false /\ lt newSar (high c2) = false).
Proof.
  apply (sar_stop_clamped_by_two_candles rise_then_fall
           default_startAf default_maxAf 3); cbn; lia.
Defined.

End IndicatorExtras.

(** ** More on the candle series *)

Module CandleSeriesExtras.
Import CandleSeries Samples CandleSeriesFacts Indicators Trend LoopFacts
  IndicatorFacts IndicatorInvariants IndicatorExtras.

(** One merge never shortens the series and adds at most one candle. *)
Lemma mergeOne_length (s : list KlineData) (c : KlineData) :
  (length s <= length (mergeOne s c) <= S (length s))%nat
  /\ ((500 < length s)%nat -> length (mergeOne s c) = length s).
Proof.
  destruct s as [|x init _] using rev_ind; [cbn; lia|].
  rewrite mergeOne_snoc.
  destruct (strict_eq (time c) (time x)).
  - rewrite !length_app. cbn. lia.
  - destruct (500 <? length (init ++ [x]))%nat eqn:E.
    + apply Nat.ltb_lt in E. revert E.
      rewrite !length_app, length_drop, !length_app. cbn [length]. lia.
    + apply Nat.ltb_ge in E. revert E.
      rewrite !length_app. cbn [length]. lia.
Qed.

(** X10: whatever the stream delivers, a series of at most 501 candles
    stays within 501 (a history batch holds at most 500), it never gets
    shorter, and an empty series stays empty. *)
Theorem stream_keeps_series_within_501
    (s : list KlineData) (stream : list KlineData) :
  (length s <= 501)%nat ->
  (length s <= length (fold_left mergeOne stream s) <= 501)%nat
  /\ (s = [] -> fold_left mergeOne stream s = []).
Proof.
  revert s. induction stream as [|c stream IH]; intros s Hlen.
  - cbn. split; [lia | auto].
  - cbn [fold_left].
    destruct (mergeOne_length s c) as [[Hlo Hhi] Hfull].
    assert (Hnext : (length (mergeOne s c) <= 501)%nat).
    { destruct (Nat.lt_ge_cases 500 (length s)); [rewrite Hfull; lia | lia]. }
    destruct (IH (mergeOne s c) Hnext) as [[Hlo' Hhi'] Hempty].
    split; [lia|].
    intros ->. apply Hempty. reflexivity.
Qed.

Lemma stream_keeps_series_within_501_witness :
  (length (series 3)
   <= length (fold_left mergeOne [candle_at 2 7; candle_at 3 7] (series 3))
   <= 501)%nat
  /\ (series 3 = [] ->
      fold_left mergeOne [candle_at 2 7; candle_at 3 7] (series 3) = []).
Proof.
  apply (stream_keeps_series_within_501 (series 3)
           [candle_at 2 7; candle_at 3 7]).
  cbn. lia.
Defined.

(** X11: after a merge into a non-empty series the streamed candle is the
    last one, and the candles before it are the stored ones in their
    order, less at most the oldest and the latest. *)
Theorem mergeOne_puts_candle_last (s : list KlineData) (c : KlineData) :
  s <> [] ->
  exists oldest kept latest,
    mergeOne s c = kept ++ [c]
    /\ s = oldest ++ kept ++ latest
    /\ (length oldest <= 1)%nat /\ (length latest <= 1)%nat.
Proof.
  intros Hne. destruct s as [|x init _] using rev_ind; [contradiction|].
  rewrite mergeOne_snoc.
  destruct (strict_eq (time c) (time x)).
  - exists [], init, [x]. cbn. auto.
  - destruct (500 <? length (init ++ [x]))%nat.
    + exists (take 1 (init ++ [x])), (drop 1 (init ++ [x])), [].
      rewrite app_nil_r, take_drop.
      split; [reflexivity|]. split; [reflexivity|].
      split; [rewrite length_take; lia | cbn; lia].
    + exists [], (init ++ [x]), []. rewrite app_nil_r. cbn. auto.
Qed.

Lemma mergeOne_puts_candle_last_witness :
  exists oldest kept latest,
    mergeOne (series 3) (candle_at 3 7) = kept ++ [candle_at 3 7]
    /\ series 3 = oldest ++ kept ++ latest
    /\ (length oldest <= 1)%nat /\ (length latest <= 1)%nat.
Proof. apply (mergeOne_puts_candle_last (series 3) (candle_at 3 7)). discriminate. Defined.

(** X12: the trend effect never throws; it leaves the trend as it is while
    the series has fewer than five candles, and sets it to up or down once
    there are five. *)
Theorem trend_set_from_five_candles
    (klineData : list KlineData) (trend : option Trend) :
  exists trend',
    trend_effect klineData trend = Ok trend'
    /\ ((length klineData < 5)%nat -> trend' = trend)
    /\ ((5 <= length klineData)%nat ->
        trend' = Some Up \/ trend' = Some Down).
Proof.
  unfold trend_effect.
  destruct (0 <? length klineData)%nat eqn:E0.
  2:{ apply Nat.ltb_ge in E0. exists trend.
      split; [reflexivity|]. split; [auto | lia]. }
  apply Nat.ltb_lt in E0.
  destruct (at_index_in_range klineData (length klineData - 1))
    as (lastCandle & _ & Hat); [lia|].
  destruct (Nat.lt_ge_cases (length klineData) 5) as [Hlt|Hge].
  - assert (Hout : calculateSAR klineData default_startAf default_maxAf
                   = Ok (replicate (length klineData) None)).
    { unfold calculateSAR.
      replace (length klineData =? 0)%nat with false
        by (symmetry; apply Nat.eqb_neq; lia).
      replace (length klineData <? 5)%nat with true
        by (symmetry; apply Nat.ltb_lt, Hlt).
      reflexivity. }
    rewrite Hout. cbn [mbind Exc_bind JS.bind]. rewrite length_replicate.
    replace (0 <? length klineData)%nat with true
      by (symmetry; apply Nat.ltb_lt, E0).
    rewrite Hat. cbn [mbind Exc_bind JS.bind].
    rewrite lookup_replicate_2 by lia. exists trend.
    split; [reflexivity|]. split; [auto | lia].
  - destruct (sar_scan_inv klineData default_startAf default_maxAf
                (length klineData - 1)) as (st & Hscan & Hlen & Hdef & _);
      [lia|].
    rewrite calculateSAR_is_scan, Hscan by exact Hge.
    cbn [mbind Exc_bind JS.bind]. rewrite Hlen.
    replace (0 <? length klineData)%nat with true
      by (symmetry; apply Nat.ltb_lt, E0).
    rewrite Hat. cbn [mbind Exc_bind JS.bind].
    destruct (Hdef (length klineData - 1)%nat) as [v Hv]; [lia|].
    rewrite Hv. eexists. split; [reflexivity|]. split; [lia|].
    intros _. destruct (gt (close lastCandle) v); auto.
Qed.

End CandleSeriesExtras.

(** ** More on the exchange services *)

Module ServiceExtras.
Import Net Services Orchestrator TopCoins ServiceVocabulary Samples
  AsyncFacts ServiceFacts.

(** Case analysis on every [match] of the goal. *)
Ltac split_goal_matches :=
  repeat match goal with
         | |- context [match ?m with _ => _ end] => destruct m
         end.

(** Removing the first separator of [s ++ ch :: t] removes that [ch] when
    [s] holds none. *)
Lemma remove_first_separator (ch : ascii) (s t : string) :
  has_char ch s = false ->
  remove_first ch (s +:+ String ch t) = s +:+ t.
Proof.
  induction s as [|c s IH].
  - intros _. change (remove_first ch (String ch t) = t).
    cbn [remove_first]. rewrite Ascii.eqb_refl. reflexivity.
  - cbn [has_char]. intros H. apply orb_false_iff in H as [Hc Hs].
    change (remove_first ch (String c (s +:+ String ch t))
            = String c (s +:+ t)).
    cbn [remove_first]. rewrite Hc, (IH Hs). reflexivity.
Qed.

Section Facts.
Context {World : Type} {platform : Platform World}.

Lemma grows_trans a b c d (st st1 st2 : NetState World) :
  grows a b st st1 -> grows c d st1 st2 -> grows (a + c) (b + d) st st2.
Proof.
  intros (n1 & H1 & Hl1) (n2 & H2 & Hl2). exists (n1 ++ n2).
  rewrite H2, H1, <- app_assoc, length_app. split; [reflexivity | lia].
Qed.

Lemma fetchWithFallback_grows (url : string) (st : NetState World) :
  grows 1 2 st (fst (fetchWithFallback url st)).
Proof.
  destruct (direct_attempt_run url st) as (r1 & Hrun & _).
  unfold fetchWithFallback, net_try. rewrite Hrun.
  destruct r1 as [v|e]; cbn [fst].
  - exists [url]. cbn. split; [reflexivity | lia].
  - rewrite relay_attempt_run. cbn [world requests].
    destruct (relay_outcome _); cbn [fst throw];
      eexists; rewrite <- app_assoc; (split; [reflexivity | cbn; lia]).
Qed.

(** A ticker fetcher issues no request beyond those of its
    [fetchWithFallback]. *)
Ltac same_requests :=
  unfold_net_goal;
  match goal with
  | |- context [fetchWithFallback ?url ?st] =>
      exists url; destruct (fetchWithFallback url st) as [? [?|?]];
      [|reflexivity]
  end;
  cbn [fst]; split_goal_matches; reflexivity.

Lemma fetchBinanceTicker_requests sym (st : NetState World) :
  exists url,
    fst (fetchBinanceTicker sym st) = fst (fetchWithFallback url st).
Proof. unfold fetchBinanceTicker. same_requests. Qed.

Lemma fetchBybitTicker_requests sym (st : NetState World) :
  exists url, fst (fetchBybitTicker sym st) = fst (fetchWithFallback url st).
Proof. unfold fetchBybitTicker. same_requests. Qed.

Lemma fetchMexcTicker_requests sym (st : NetState World) :
  exists url, fst (fetchMexcTicker sym st) = fst (fetchWithFallback url st).
Proof. unfold fetchMexcTicker. same_requests. Qed.

Lemma fetchGateTicker_requests sym (st : NetState World) :
  exists url, fst (fetchGateTicker sym st) = fst (fetchWithFallback url st).
Proof. unfold fetchGateTicker. same_requests. Qed.

Lemma fetchOkxTicker_requests sym (st : NetState World) :
  exists url, fst (fetchOkxTicker sym st) = fst (fetchWithFallback url st).
Proof. unfold fetchOkxTicker. same_requests. Qed.

Lemma probe_grows (probe : string -> Net World TickerData) sym st :
  (exists url, fst (probe sym st) = fst (fetchWithFallback url st)) ->
  grows 1 2 st (fst (probe sym st)).
Proof. intros [url ->]. apply fetchWithFallback_grows. Qed.

(** X13: [fetchTicker] for one of the five exchanges returns, when it
    returns, a ticker tagged with that exchange; for any other name it
    throws "Unknown Exchange" without a request. *)
Theorem fetchTicker_tagged_with_exchange
    (sym : string) (st : NetState World) :
  (forall e st' t,
     fetchTicker sym (exchange_name e) st = (st', Ok t) -> exchange t = e)
  /\ (forall name,
        name ∉ map exchange_name [Binance; Bybit; MEXC; Gate; OKX] ->
        fetchTicker sym name st
        = (st, Throw (ErrorMsg "Unknown Exchange"))).
Proof.
  split.
  - intros e st' t. destruct e; cbn.
    + apply fetchBinanceTicker_exchange.
    + apply fetchBybitTicker_exchange.
    + apply fetchMexcTicker_exchange.
    + apply fetchGateTicker_exchange.
    + apply fetchOkxTicker_exchange.
  - intros name Hnot. unfold fetchTicker.
    repeat match goal with
           | |- context [String.eqb name ?known] =>
               destruct (String.eqb_spec name known) as [->|_];
               [exfalso; apply Hnot; cbn; repeat constructor|]
           end.
    reflexivity.
Qed.

(** The five probes: their direct requests first, then at most one relay
    request for each, in the order the answers arrive. *)
Lemma fetchAvailableTickers_run (schedule : list nat) (sym : string)
    (st : NetState World) :
  exists st' tickers new,
    fetchAvailableTickers schedule sym st = (st', Ok tickers)
    /\ (length tickers <= 5)%nat
    /\ requests st' = requests st ++ probe_urls sym ++ new
    /\ (length new <= 5)%nat.
Proof.
  destruct (allSettled_probes schedule sym st)
    as (st' & results & new & Hrun & Htag & Hreq & Hlen).
  exists st', (fulfilled results), new.
  unfold fetchAvailableTickers. unfold_net_goal. rewrite Hrun.
  split; [reflexivity|]. split; [|split; assumption].
  apply Forall2_length in Htag. cbn in Htag.
  assert (Hle : forall rs : list (Exc TickerData),
            (length (fulfilled rs) <= length rs)%nat).
  { induction rs as [|[t|e] rs IH]; cbn; lia. }
  specialize (Hle results). lia.
Qed.


(** A direct response with a success status and a JSON body is what
    [fetchWithFallback] returns, with the one request. *)
Lemma fetchWithFallback_direct (url : string) (st : NetState World) w res body :
  fetch_impl (world st) url = (w, Ok res) ->
  ok res = true ->
  json res = Ok body ->
  fetchWithFallback url st
  = ({| world := w; requests := requests st ++ [url] |}, Ok body).
Proof.
  intros Hf Hok Hj.
  destruct (direct_attempt_run url st) as (r1 & Hrun & _ & Hout).
  rewrite Hf in Hrun, Hout. cbn [fst snd] in Hrun, Hout.
  unfold fetchWithFallback, net_try. rewrite Hrun.
  rewrite Hout by (cbn; rewrite Hok, Hj; reflexivity).
  unfold direct_outcome. cbn. rewrite Hj. reflexivity.
Qed.

(** X15: when Binance answers the direct kline request with a JSON array,
    [fetchKlines] issues that one request and returns one candle per row,
    in the order of the rows, provided every row can be mapped; when a row
    cannot (a [null] row), it returns the empty list. *)
Theorem fetchKlines_binance_rows_in_order
    (sym interval : string) (limit : Z) (st : NetState World)
    (w : World) (res : Response) (rows : list value) :
  let url :=
    BINANCE_API +:+ "/klines?symbol=" +:+ getExchangeSymbol sym "Binance"
    +:+ "&interval=" +:+ interval +:+ "&limit=" +:+ pretty limit in
  fetch_impl (world st) url = (w, Ok res) ->
  ok res = true ->
  json res = Ok (VArr rows) ->
  exists klines,
    fetchKlines sym interval limit "Binance" st
    = ({| world := w; requests := requests st ++ [url] |}, Ok klines)
    /\ (Forall (fun row => succeeds (binance_row row) = true) rows ->
        Forall2 (fun row candle => binance_row row = Ok candle) rows klines)
    /\ (Exists (fun row => succeeds (binance_row row) = false) rows ->
        klines = []).
Proof.
  cbn zeta. intros Hf Hok Hj.
  unfold fetchKlines, fetchKlines_try. cbn [String.eqb Ascii.eqb Bool.eqb].
  unfold_net_goal.
  rewrite (fetchWithFallback_direct _ st w res (VArr rows) Hf Hok Hj).
  cbn [map_rows].
  destruct (mapM binance_row rows) as [klines|e] eqn:Hmap.
  - exists klines. split; [reflexivity|]. split.
    + intros _. apply mapM_Ok_Forall2, Hmap.
    + intros Hex. apply mapM_Exists_Throw in Hex as [e He]. congruence.
  - exists []. split; [reflexivity|]. split; [|reflexivity].
    intros Hall. apply mapM_Forall_Ok in Hall as (ks & Hks & _). congruence.
Qed.

(** X16: Bybit sends the newest candle first; when it answers the direct
    kline request with [result.list] an array, [fetchKlines] issues that
    one request and returns one candle per row in the reverse of the order
    received, provided every row can be mapped; when a row cannot, it
    returns the empty list. *)
Theorem fetchKlines_bybit_rows_reversed
    (sym interval : string) (limit : Z) (st : NetState World)
    (w : World) (res : Response) (data result : value)
    (rows : list value) :
  let url :=
    BYBIT_API +:+ "/kline?category=spot&symbol="
    +:+ getExchangeSymbol sym "Bybit"
    +:+ "&interval=" +:+ bybit_interval interval
    +:+ "&limit=" +:+ pretty limit in
  fetch_impl (world st) url = (w, Ok res) ->
  ok res = true ->
  json res = Ok data ->
  get_prop data "result" = Ok result ->
  get_prop result "list" = Ok (VArr rows) ->
  exists klines,
    fetchKlines sym interval limit "Bybit" st
    = ({| world := w; requests := requests st ++ [url] |}, Ok klines)
    /\ (Forall (fun row => succeeds (bybit_row row) = true) rows ->
        Forall2 (fun row candle => bybit_row row = Ok candle)
          (reverse rows) klines)
    /\ (Exists (fun row => succeeds (bybit_row row) = false) rows ->
        klines = []).
Proof.
  cbn zeta. intros Hf Hok Hj Hres Hlist.
  unfold fetchKlines, fetchKlines_try. cbn [String.eqb Ascii.eqb Bool.eqb].
  unfold_net_goal.
  rewrite (fetchWithFallback_direct _ st w res data Hf Hok Hj).
  rewrite Hres.
  assert (Hl : match result with
               | VUndefined | VNull => Ok VUndefined
               | _ => get_prop result "list"
               end = Ok (VArr rows)).
  { destruct result; try exact Hlist; discriminate. }
  rewrite Hl. cbn [map_rows].
  destruct (mapM bybit_row (reverse rows)) as [klines|e] eqn:Hmap.
  - exists klines. split; [reflexivity|]. split.
    + intros _. apply mapM_Ok_Forall2, Hmap.
    + intros Hex.
      assert (Hex' : Exists (fun row => succeeds (bybit_row row) = false)
                       (reverse rows)).
      { apply Exists_exists in Hex as (r & Hin & Hr).
        apply Exists_exists. exists r. split; [|exact Hr].
        apply elem_of_reverse, Hin. }
      apply mapM_Exists_Throw in Hex' as [e He]. congruence.
  - exists []. split; [reflexivity|]. split; [|reflexivity].
    intros Hall.
    assert (Hall' : Forall (fun row => succeeds (bybit_row row) = true)
                      (reverse rows)).
    { apply Forall_forall. intros r Hin. rewrite elem_of_reverse in Hin.
      exact (proj1 (Forall_forall _ _) Hall r Hin). }
    apply mapM_Forall_Ok in Hall' as (ks & Hks & _). congruence.
Qed.

(** X17: the Gate and OKX adapters bring the symbol back to the form of
    the other exchanges: on the pair the fetcher asked for, the ticker's
    symbol is the upper-case base symbol followed by [USDT], provided the
    base symbol itself holds no separator. *)
Theorem gate_okx_symbol_normalised (sym : string) (data : value)
    (t : TickerData) :
  (has_char "_" (toUpperCase sym) = false ->
   get_prop data "currency_pair" = Ok (VStr (getExchangeSymbol sym "Gate")) ->
   mapGateTicker data = Ok t ->
   symbol t = VStr (getExchangeSymbol sym "Binance"))
  /\ (forall row,
        has_char "-" (toUpperCase sym) = false ->
        get_prop data "data" = Ok (VArr [row]) ->
        get_prop row "instId" = Ok (VStr (getExchangeSymbol sym "OKX")) ->
        mapOkxTicker data = Ok t ->
        symbol t = VStr (getExchangeSymbol sym "Binance")).
Proof.
  split.
  - intros Hsep Hpair Hmap. unfold mapGateTicker in Hmap.
    rewrite Hpair in Hmap. cbn [mbind Exc_bind JS.bind] in Hmap.
    unfold getExchangeSymbol in Hmap.
    cbn [String.eqb Ascii.eqb Bool.eqb value_remove_first] in Hmap.
    change (toUpperCase sym +:+ "_USDT")
      with (toUpperCase sym +:+ String "_" "USDT") in Hmap.
    rewrite (remove_first_separator _ _ _ Hsep) in Hmap.
    cbn [JS.bind] in Hmap. unfold_net Hmap.
    split_matches Hmap; injection Hmap as <-; reflexivity.
  - intros row Hsep Hrows Hinst Hmap. unfold mapOkxTicker in Hmap.
    rewrite Hrows in Hmap. cbn [mbind Exc_bind JS.bind get_index] in Hmap.
    cbn in Hmap. unfold_net Hmap.
    destruct (get_prop row "last"); [|discriminate].
    destruct (get_prop row "open24h"); [|discriminate].
    rewrite Hinst in Hmap.
    unfold getExchangeSymbol in Hmap.
    cbn [String.eqb Ascii.eqb Bool.eqb value_remove_first] in Hmap.
    change (toUpperCase sym +:+ "-USDT")
      with (toUpperCase sym +:+ String "-" "USDT") in Hmap.
    rewrite (remove_first_separator _ _ _ Hsep) in Hmap.
    split_matches Hmap; injection Hmap as <-; reflexivity.
Qed.

End Facts.

Lemma fetchTicker_tagged_with_exchange_witness :
  (exists st' t,
     fetchTicker (platform := only_okx) "BTC" "OKX" fresh = (st', Ok t)
     /\ exchange t = OKX)
  /\ fetchTicker (platform := only_okx) "BTC" "Kraken" fresh
     = (fresh, Throw (ErrorMsg "Unknown Exchange")).
Proof.
  destruct (fetchTicker_tagged_with_exchange (platform := only_okx)
              "BTC" fresh) as [Htag Hunknown].
  split.
  - destruct (fetchTicker (platform := only_okx) "BTC" "OKX" fresh)
      as [st' [t|e]] eqn:E; [|vm_compute in E; discriminate].
    exists st', t. split; [reflexivity | exact (Htag OKX st' t E)].
  - apply Hunknown. apply (bool_decide_unpack _). vm_compute. exact I.
Defined.

Lemma fetchKlines_binance_rows_in_order_witness :
  exists first second,
    fetchKlines (platform := klines_world) "BTC" "1h" 2 "Binance" fresh
    = ({| world := tt;
          requests := [BINANCE_API
                       +:+ "/klines?symbol=BTCUSDT&interval=1h&limit=2"] |},
       Ok [first; second])
    /\ time first = 120000%float /\ time second = 60000%float.
Proof.
  destruct (fetchKlines_binance_rows_in_order (platform := klines_world)
              "BTC" "1h" 2 fresh tt
              (mkResponse true "OK" (Ok (VArr two_rows))) two_rows)
    as (klines & Hrun & Hall & _); [reflexivity .. |].
  specialize (Hall ltac:(repeat constructor)).
  inversion Hall as [|row1 first rows1 rest1 H1 Hrest1]; subst.
  inversion Hrest1 as [|row2 second rows2 rest2 H2 Hrest2]; subst.
  inversion Hrest2; subst.
  exists first, second. split; [exact Hrun|].
  vm_compute in H1, H2. injection H1 as <-. injection H2 as <-.
  split; reflexivity.
Defined.

Lemma fetchKlines_bybit_rows_reversed_witness :
  exists first second,
    fetchKlines (platform := klines_world) "BTC" "1h" 2 "Bybit" fresh
    = ({| world := tt;
          requests := [BYBIT_API
                       +:+ "/kline?category=spot&symbol=BTCUSDT"
                       +:+ "&interval=60&limit=2"] |},
       Ok [first; second])
    /\ time first = 60000%float /\ time second = 120000%float.
Proof.
  destruct (fetchKlines_bybit_rows_reversed (platform := klines_world)
              "BTC" "1h" 2 fresh tt
              (mkResponse true "OK"
                 (Ok (VObj [("result", VObj [("list", VArr two_rows)])])))
              (VObj [("result", VObj [("list", VArr two_rows)])])
              (VObj [("list", VArr two_rows)]) two_rows)
    as (klines & Hrun & Hall & _); [reflexivity .. |].
  specialize (Hall ltac:(repeat constructor)).
  unfold two_rows, reverse in Hall. cbn [rev_append] in Hall.
  inversion Hall as [|row1 first rows1 rest1 H1 Hrest1]; subst.
  inversion Hrest1 as [|row2 second rows2 rest2 H2 Hrest2]; subst.
  inversion Hrest2; subst.
  exists first, second. split; [exact Hrun|].
  vm_compute in H1, H2. injection H1 as <-. injection H2 as <-.
  split; reflexivity.
Defined.

Lemma gate_okx_symbol_normalised_witness :
  (exists t,
     mapGateTicker (platform := klines_world) gate_ticker = Ok t
     /\ symbol t = VStr "BTCUSDT")
  /\ (exists t,
        mapOkxTicker (platform := klines_world) okx_body = Ok t
        /\ symbol t = VStr "BTCUSDT").
Proof.
  split.
  - destruct (mapGateTicker (platform := klines_world) gate_ticker)
      as [t|e] eqn:E; [|vm_compute in E; discriminate].
    exists t. split; [reflexivity|].
    apply (proj1 (gate_okx_symbol_normalised (platform := klines_world)
                    "BTC" gate_ticker t)); [reflexivity | reflexivity | exact E].
  - destruct (mapOkxTicker (platform := klines_world) okx_body)
      as [t|e] eqn:E; [|vm_compute in E; discriminate].
    exists t. split; [reflexivity|].
    eapply (proj2 (gate_okx_symbol_normalised (platform := klines_world)
                     "BTC" okx_body t));
      [reflexivity | reflexivity | reflexivity | exact E].
Defined.

End ServiceExtras.

(** ** More on ticker resolution *)

Module OrchestratorExtras.
Import Net Services Orchestrator ServiceVocabulary Samples ServiceFacts
  ServiceExtras.

Section Facts.
Context {World : Type} {platform : Platform World}.

Lemma fetchTicker_exchange sym (e : ExchangeType) (st st' : NetState World) t :
  fetchTicker sym (exchange_name e) st = (st', Ok t) -> exchange t = e.
Proof.
  destruct e; cbn.
  - apply fetchBinanceTicker_exchange.
  - apply fetchBybitTicker_exchange.
  - apply fetchMexcTicker_exchange.
  - apply fetchGateTicker_exchange.
  - apply fetchOkxTicker_exchange.
Qed.

Lemma fetchTicker_grows sym (e : ExchangeType) (st : NetState World) :
  grows 1 2 st (fst (fetchTicker sym (exchange_name e) st)).
Proof.
  destruct e; cbn.
  - apply probe_grows, fetchBinanceTicker_requests.
  - apply probe_grows, fetchBybitTicker_requests.
  - apply probe_grows, fetchMexcTicker_requests.
  - apply probe_grows, fetchGateTicker_requests.
  - apply probe_grows, fetchOkxTicker_requests.
Qed.

(** X18: with an exchange forced, the choice of the ticker in [loadData]
    rests on that exchange alone: when the choice is made, only the one or
    two requests of that exchange's ticker fetch have been issued, and the
    load then either proceeds on the fast path with a ticker of that
    exchange, or stops because it was cancelled, or fails with the error of
    that fetch; the order in which answers would arrive on the slow path
    plays no part. *)
Theorem forced_exchange_never_falls_back
    (schedule : list nat) (symbol : string) (e : ExchangeType)
    (aborted : bool) (st : NetState World) :
  let probe := fetchTicker (toUpperCase symbol) (exchange_name e) st in
  let r := loadData_resolve schedule symbol (Some e) aborted st in
  fst r = fst probe
  /\ grows 1 2 st (fst r)
  /\ match snd r with
     | Ok (FastPath target t) =>
         target = e /\ exchange t = e /\ snd probe = Ok t /\ aborted = false
     | Ok Cancelled => aborted = true /\ succeeds (snd probe) = true
     | Ok (SlowPath _ _ _) => False
     | Throw err => snd probe = Throw err
     end.
Proof.
  cbn zeta.
  pose proof (fetchTicker_grows (toUpperCase symbol) e st) as Hg.
  pose proof (fetchTicker_exchange (toUpperCase symbol) e st) as He.
  unfold loadData_resolve. unfold_net_goal. cbv beta zeta.
  change (default Binance (Some e)) with e.
  destruct (fetchTicker (toUpperCase symbol) (exchange_name e) st)
    as [st1 [t|err]]; cbn [fst snd] in *.
  - destruct aborted; cbn.
    + split; [reflexivity|]. split; [exact Hg|]. auto.
    + split; [reflexivity|]. split; [exact Hg|].
      split; [reflexivity|]. split; [exact (He st1 t eq_refl)|]. auto.
  - cbn. split; [reflexivity|]. split; [exact Hg | reflexivity].
Qed.

(** X19: with no exchange forced, and in whatever order the answers arrive,
    [loadData] has issued between one and twelve requests when it chooses
    the ticker or gives up; a fast path is
    on Binance with a Binance ticker; a slow path targets the exchange of
    the ticker it selected, which is the first of the at most five
    exchanges it lists; and the only error is "Not found". *)
Theorem unforced_resolution_coherent
    (schedule : list nat) (symbol : string) (aborted : bool)
    (st : NetState World) :
  let r := loadData_resolve schedule symbol None aborted st in
  grows 1 12 st (fst r)
  /\ match snd r with
     | Ok (FastPath target t) => target = Binance /\ exchange t = Binance
     | Ok (SlowPath target t available) =>
         exchange t = target
         /\ head available = Some target
         /\ (length available <= 5)%nat
     | Ok Cancelled => aborted = true
     | Throw err => err = ErrorMsg "Not found"
     end.
Proof.
  cbn zeta.
  pose proof (fetchTicker_grows (toUpperCase symbol) Binance st) as Hg.
  pose proof (fetchTicker_exchange (toUpperCase symbol) Binance st) as He.
  unfold loadData_resolve. unfold_net_goal. cbv beta zeta.
  change (default Binance None) with Binance.
  destruct (fetchTicker (toUpperCase symbol) (exchange_name Binance) st)
    as [st1 [t|err]]; cbn [fst snd] in *.
  - assert (Hg' : grows 1 12 st st1).
    { destruct Hg as (new & Hn & Hl). exists new. split; [exact Hn | lia]. }
    destruct aborted; cbn.
    + split; [exact Hg' | reflexivity].
    + split; [exact Hg'|]. split; [reflexivity | exact (He st1 t eq_refl)].
  - cbv beta iota.
    destruct (fetchAvailableTickers_run schedule (toUpperCase symbol) st1)
      as (st2 & tickers & new2 & Hrun & Hlen & Hreq & Hnew).
    rewrite Hrun. cbv beta iota.
    assert (Hg' : grows 1 12 st st2).
    { destruct Hg as (new1 & Hn1 & Hl1).
      exists (new1 ++ probe_urls (toUpperCase symbol) ++ new2).
      rewrite Hreq, Hn1, <- app_assoc. split; [reflexivity|].
      rewrite !length_app. cbn [probe_urls length]. lia. }
    destruct aborted; cbn.
    + split; [exact Hg' | reflexivity].
    + destruct tickers as [|first rest]; cbn.
      * split; [exact Hg' | reflexivity].
      * split; [exact Hg'|]. split; [reflexivity|].
        split; [reflexivity|]. rewrite length_map. exact Hlen.
Qed.

End Facts.
End OrchestratorExtras.

(** ** Top coins and the kline stream *)

Module StreamExtras.
Import Net Services TopCoins Stream ServiceVocabulary ServiceFacts ServiceExtras.

Section TopCoinsFacts.
Context {World : Type} {platform : Platform World}.
Variable Array_sort :
  (value -> value -> Exc number) -> list value -> Exc (list value).

(** X20: [fetchTopCoins] never rejects: it returns at most fifty tickers,
    all tagged Binance, after one or two requests, and the empty list when
    the fetch fails or its result is not an array. *)
Theorem fetchTopCoins_at_most_fifty (st : NetState World) :
  exists st' tickers,
    fetchTopCoins Array_sort st = (st', Ok tickers)
    /\ (length tickers <= 50)%nat
    /\ Forall (fun t => exchange t = Binance) tickers
    /\ grows 1 2 st st'
    /\ (forall st1 outcome,
          fetchWithFallback (BINANCE_API +:+ "/ticker/24hr") st
          = (st1, outcome) ->
          match outcome with
          | Ok (VArr _) => True
          | _ => tickers = []
          end).
Proof.
  unfold fetchTopCoins. unfold_net_goal.
  pose proof (fetchWithFallback_grows (BINANCE_API +:+ "/ticker/24hr") st)
    as Hg.
  destruct (fetchWithFallback _ st) as [st1 [data|e]]; cbn [fst] in Hg.
  2:{ exists st1, []. split; [reflexivity|]. split; [cbn; lia|].
      split; [constructor|]. split; [exact Hg|].
      intros ? ? [= <- <-]. reflexivity. }
  assert (Hempty : exists st' tickers,
            (st1, Ok []) = (st', Ok tickers)
            /\ (length tickers <= 50)%nat
            /\ Forall (fun t : TickerData => exchange t = Binance) tickers
            /\ grows 1 2 st st'
            /\ tickers = []).
  { exists st1, []. split; [reflexivity|]. split; [cbn; lia|].
    split; [constructor|]. split; [exact Hg | reflexivity]. }
  destruct data as [| | | | |items|];
    try (destruct Hempty as (st' & tickers & H1 & H2 & H3 & H4 & H5);
         exists st', tickers;
         split; [exact H1|]; split; [exact H2|]; split; [exact H3|];
         split; [exact H4|]; intros ? ? [= <- <-]; exact H5).
  clear Hempty.
  destruct (filterM top_coin_filter items) as [filtered|e]; cbn.
  2:{ exists st1, []. split; [reflexivity|]. split; [cbn; lia|].
      split; [constructor|]. split; [exact Hg|].
      intros ? ? [= <- <-]. exact I. }
  destruct (Array_sort by_volume_desc filtered) as [sorted|e]; cbn.
  2:{ exists st1, []. split; [reflexivity|]. split; [cbn; lia|].
      split; [constructor|]. split; [exact Hg|].
      intros ? ? [= <- <-]. exact I. }
  destruct (mapM mapBinanceTicker (take 50 sorted)) as [tickers|e] eqn:Hmap.
  2:{ exists st1, []. split; [reflexivity|]. split; [cbn; lia|].
      split; [constructor|]. split; [exact Hg|].
      intros ? ? [= <- <-]. exact I. }
  apply mapM_Ok_Forall2 in Hmap.
  exists st1, tickers. split; [reflexivity|].
  split.
  { rewrite <- (Forall2_length _ _ _ Hmap), length_take. lia. }
  split.
  { clear Hg. induction Hmap as [|row t rows ts Hrow _ IH]; constructor.
    - eapply mapBinanceTicker_exchange, Hrow.
    - exact IH. }
  split; [exact Hg|].
  intros ? ? [= <- <-]. exact I.
Qed.
End TopCoinsFacts.

(** *** Stream intervals *)

(** X21: the interval tokens of the stream agree with those of the REST
    call for OKX on every interval, and for Bybit on every interval other
    than [4h], [1w] and [1M], which the stream passes on unmapped while the
    REST call sends [240], [W] and [M]. *)
Theorem stream_interval_vs_rest (interval : string) :
  okx_stream_interval interval = okx_interval interval
  /\ (interval ∉ ["4h"; "1w"; "1M"] ->
      bybit_stream_interval interval = bybit_interval interval)
  /\ (bybit_stream_interval "4h", bybit_interval "4h") = ("4h", "240")
  /\ (bybit_stream_interval "1w", bybit_interval "1w") = ("1w", "W")
  /\ (bybit_stream_interval "1M", bybit_interval "1M") = ("1M", "M").
Proof.
  split; [reflexivity|].
  split; [|repeat split].
  intros Hnot. unfold bybit_stream_interval, bybit_interval.
  destruct (String.eqb_spec interval "4h") as [->|_];
    [exfalso; apply Hnot; repeat constructor|].
  destruct (String.eqb_spec interval "1w") as [->|_];
    [exfalso; apply Hnot; repeat constructor|].
  destruct (String.eqb_spec interval "1M") as [->|_];
    [exfalso; apply Hnot; repeat constructor|].
  reflexivity.
Qed.

(** X22: the MEXC stream token is always one of seven; every interval
    other than [1m], [5m], [15m], [30m], [1h], [4h] and [1d] is subscribed
    as fifteen-minute candles. *)
Theorem mexc_stream_interval_defaults (interval : string) :
  mexc_stream_interval interval
    ∈ ["Min1"; "Min5"; "Min15"; "Min30"; "Min60"; "Min240"; "Day1"]
  /\ (interval ∉ ["1m"; "5m"; "15m"; "30m"; "1h"; "4h"; "1d"] ->
      mexc_stream_interval interval = "Min15").
Proof.
  unfold mexc_stream_interval. split.
  - repeat match goal with
           | |- context [String.eqb interval ?known] =>
               destruct (String.eqb interval known)
           end; repeat constructor.
  - intros Hnot.
    repeat match goal with
           | |- context [String.eqb interval ?known] =>
               destruct (String.eqb_spec interval known) as [->|_];
               [exfalso; apply Hnot; repeat constructor|]
           end.
    reflexivity.
Qed.

(** *** The socket and the timer *)

Section StreamFacts.
Context {World : Type} {platform : Platform World}.
Variable toLowerCase : string -> string.
Variable JSON_stringify : value -> string.
Variable ToNumber : value -> number.

#[local] Abbreviation step := (step toLowerCase JSON_stringify ToNumber).
#[local] Abbreviation run := (run toLowerCase JSON_stringify ToNumber).

Lemma filter_single_out {A} (id : nat) (a : A) :
  filter (fun e : nat * A => negb (Nat.eqb (fst e) id)) [(id, a)] = [].
Proof.
  unfold filter. cbn. rewrite Nat.eqb_refl. reflexivity.
Qed.

Lemma filter_single_id (id : nat) :
  filter (fun i : nat => negb (Nat.eqb i id)) [id] = [].
Proof.
  unfold filter. cbn. rewrite Nat.eqb_refl. reflexivity.
Qed.

Lemma existsb_single (id id' : nat) :
  existsb (Nat.eqb id) [id'] = Nat.eqb id id'.
Proof. cbn. apply orb_false_r. Qed.

Lemma lookup_id_single {A} (id id' : nat) (a a' : A) :
  lookup_id id [(id', a')] = Some a -> id = id' /\ a = a'.
Proof.
  unfold lookup_id. cbn. destruct (Nat.eqb_spec id' id); cbn.
  - intros [= <-]. auto.
  - discriminate.
Qed.

(** The effects recorded play no part in [consistent]. *)
Lemma consistent_effects (st : StreamState) (log : list Effect) :
  consistent st ->
  consistent {| ws := ws st; pingInterval := pingInterval st;
                sockets := sockets st; ready := ready st;
                timers := timers st; next_id := next_id st;
                effects := log |}.
Proof. intros Hc. exact Hc. Qed.

(** The socket [ws] names is connecting, open, or gone. *)
Lemma current_socket_cases (st : StreamState) (id : nat) :
  consistent st -> ws st = Some id ->
  (sockets st = [] \/ exists sub, sockets st = [(id, sub)])
  /\ (ready st = [] \/ ready st = [id]).
Proof.
  intros [Hws _] Ew. rewrite Ew in Hws.
  destruct Hws as [[[Hs Hr]|[[sub Hs] Hr]] _]; eauto.
Qed.

(** From a consistent state [closeWebSocket] leaves nothing behind. *)
Lemma closeWebSocket_consistent (st : StreamState) :
  consistent st ->
  let st' := closeWebSocket st in
  ws st' = None /\ pingInterval st' = None /\ sockets st' = []
  /\ ready st' = [] /\ timers st' = [].
Proof.
  intros Hc. pose proof Hc as [Hws Hping]. unfold closeWebSocket. cbn zeta.
  assert (Hcur : forall id, ws st = Some id ->
            filter (fun e => negb (Nat.eqb (fst e) id)) (sockets st) = []
            /\ filter (fun i => negb (Nat.eqb i id)) (ready st) = []).
  { intros id Ew.
    destruct (current_socket_cases st id Hc Ew) as [[Hs|[sub Hs]] [Hr|Hr]];
      rewrite Hs, Hr, ?filter_single_out, ?filter_single_id; auto. }
  destruct (pingInterval st) as [timer|] eqn:Ep.
  - destruct Hping as ([ex Ht] & [id Hid] & _).
    destruct (Hcur id Hid) as [Hs Hr].
    cbn [ws clear_timer]. rewrite Hid.
    cbn [ws pingInterval sockets ready timers close_socket clear_timer].
    rewrite Hs, Hr, Ht, filter_single_out. auto.
  - destruct (ws st) as [id|] eqn:Ew.
    + destruct (Hcur id eq_refl) as [Hs Hr].
      cbn [ws pingInterval sockets ready timers close_socket].
      rewrite Hs, Hr, Ep, Hping. auto.
    + destruct Hws as [Hs Hr]. rewrite Ew, Ep. auto.
Qed.

Lemma new_socket_consistent url sub (st : StreamState) :
  ws st = None -> pingInterval st = None -> sockets st = [] ->
  ready st = [] -> timers st = [] ->
  consistent (new_socket url sub st).
Proof.
  intros Hw Hp Hs Hr Ht. unfold consistent, new_socket.
  cbn [ws pingInterval sockets ready timers next_id].
  rewrite Hs, Hr, Hp, Ht. cbn. split; [|reflexivity].
  split; [right; eauto | lia].
Qed.

Lemma subscribeToKline_consistent symbol interval exchange st :
  consistent st ->
  consistent (subscribeToKline toLowerCase symbol interval exchange st).
Proof.
  intros Hc. unfold subscribeToKline.
  set (st0 := match ws st with Some _ => closeWebSocket st | None => st end).
  assert (H0 : ws st0 = None /\ pingInterval st0 = None /\ sockets st0 = []
               /\ ready st0 = [] /\ timers st0 = []).
  { subst st0. destruct (ws st) as [id|] eqn:Ew.
    - exact (closeWebSocket_consistent st Hc).
    - destruct Hc as [Hws Hping]. rewrite Ew in Hws.
      destruct Hws as [Hs Hr].
      destruct (pingInterval st) as [timer|] eqn:Ep.
      + destruct Hping as (_ & [id Hid] & _). congruence.
      + auto. }
  destruct H0 as (Hw & Hp & Hs & Hr & Ht).
  assert (Hidle : consistent st0).
  { unfold consistent. rewrite Hw, Hp. auto. }
  repeat match goal with
         | |- context [if ?b then _ else _] => destruct b
         end;
    try (apply new_socket_consistent; assumption); exact Hidle.
Qed.

Lemma step_consistent (st : StreamState) (ev : Event) :
  consistent st -> consistent (step st ev).
Proof.
  intros Hc.
  destruct ev as [symbol interval exchange| |id now|id|timer now|id data];
    cbn [Stream.step].
  - apply subscribeToKline_consistent, Hc.
  - unfold unsubscribeKline.
    destruct (closeWebSocket_consistent st Hc) as (Hw & Hp & Hs & Hr & Ht).
    unfold consistent. rewrite Hw, Hp. auto.
  - destruct (lookup_id id (sockets st)) as [sub|] eqn:El; [|exact Hc].
    destruct (existsb (Nat.eqb id) (ready st)) eqn:Er; [exact Hc|].
    pose proof Hc as [Hws Hping].
    destruct (ws st) as [cur|] eqn:Ew.
    2:{ destruct Hws as [Hs _]. rewrite Hs in El. discriminate. }
    destruct Hws as [[[Hs _]|[[sub' Hs] Hr]] Hlt].
    { rewrite Hs in El. discriminate. }
    rewrite Hs in El. apply lookup_id_single in El as [-> ->].
    assert (Hr0 : ready st = []).
    { destruct Hr as [Hr|Hr]; [exact Hr|].
      rewrite Hr, existsb_single, Nat.eqb_refl in Er. discriminate. }
    assert (Hp0 : pingInterval st = None /\ timers st = []).
    { destruct (pingInterval st) as [timer|]; [|auto].
      destruct Hping as (_ & _ & [Hgone|Hopen] & _); congruence. }
    destruct Hp0 as [Hp0 Ht0].
    unfold onopen_handler.
    destruct (String.eqb (sub_exchange sub') "Binance").
    + unfold consistent. cbn [ws pingInterval sockets ready timers next_id].
      rewrite ?Ew, Hs, Hr0, Hp0, Ht0. cbn. split; [|reflexivity].
      split; [right; eauto | exact Hlt].
    + unfold ws_send. cbn [ws ready]. rewrite ?Ew, Hr0. cbn [app].
      rewrite existsb_single, Nat.eqb_refl.
      unfold consistent, start_ping.
      cbn [ws pingInterval sockets ready timers next_id].
      rewrite ?Ew, Hs, Ht0. cbn. split.
      * split; [right; eauto | lia].
      * split; [eauto|]. split; [eauto|]. split; [right; discriminate | lia].
  - pose proof Hc as [Hws Hping]. unfold consistent.
    cbn [ws pingInterval sockets ready timers next_id].
    destruct (ws st) as [cur|] eqn:Ew.
    + destruct Hws as [[[Hs Hr]|[[sub Hs] Hr]] Hlt].
      * rewrite Hs, Hr. cbn. split; [split; [auto | exact Hlt]|].
        destruct (pingInterval st) as [timer|]; [|exact Hping].
        destruct Hping as (Ht & Hw & _ & Hl). auto.
      * rewrite Hs. unfold filter at 1. cbn.
        destruct (Nat.eqb_spec cur id) as [->|Hne]; cbn.
        -- assert (Hr' : filter (fun i => negb (Nat.eqb i id)) (ready st) = []).
           { destruct Hr as [Hr|Hr]; rewrite Hr, ?filter_single_id; auto. }
           rewrite Hr'. split; [split; [auto | exact Hlt]|].
           destruct (pingInterval st) as [timer|]; [|exact Hping].
           destruct Hping as (Ht & Hw & _ & Hl). auto.
        -- assert (Hr' : filter (fun i => negb (Nat.eqb i id)) (ready st)
                         = ready st).
           { destruct Hr as [Hr|Hr]; rewrite Hr; [reflexivity|].
             unfold filter. cbn. destruct (Nat.eqb_spec cur id); [lia|].
             reflexivity. }
           rewrite Hr'. split; [split; [right; eauto | exact Hlt]|].
           destruct (pingInterval st) as [timer|]; [|exact Hping].
           destruct Hping as (Ht & Hw & Hopen & Hl).
           rewrite Hs in Hopen. auto.
    + destruct Hws as [Hs Hr]. rewrite Hs, Hr. cbn. split; [auto|].
      destruct (pingInterval st) as [timer|]; [|exact Hping].
      destruct Hping as (Ht & Hw & _ & Hl). auto.
  - destruct (lookup_id timer (timers st)) as [exchange|]; [|exact Hc].
    unfold ping_tick. destruct (ws st) as [cur|] eqn:Ew; [|exact Hc].
    destruct (existsb (Nat.eqb cur) (ready st)) eqn:Er; [|exact Hc].
    unfold ws_send. rewrite ?Ew, ?Er. cbn [fst]. rewrite <- ?Ew.
    apply (consistent_effects st), Hc.
  - destruct (lookup_id id (sockets st)) as [sub|]; [|exact Hc].
    destruct (existsb (Nat.eqb id) (ready st)); [|exact Hc].
    unfold onmessage_handler.
    destruct (parse_message ToNumber (sub_exchange sub) data)
      as [[c|]|e]; exact Hc.
Qed.

Lemma run_consistent (events : list Event) (st : StreamState) :
  consistent st -> consistent (run events st).
Proof.
  revert st. induction events as [|ev events IH]; intros st Hc; [exact Hc|].
  cbn. apply IH, step_consistent, Hc.
Qed.

Lemma idle_consistent : consistent idle.
Proof. unfold consistent. cbn. auto. Qed.

(** X23: whatever the calls, the handler runs and the connections lost,
    the module leaks nothing: every socket still connected is the one [ws]
    names, every timer still set is the one [pingInterval] names, there is
    at most one of each, and a timer is set only while [ws] names a
    socket. *)
Theorem stream_leaks_no_socket_or_timer (events : list Event) :
  let st := run events idle in
  (forall id sub, (id, sub) ∈ sockets st -> ws st = Some id)
  /\ (length (sockets st) <= 1)%nat
  /\ (forall timer exchange,
        (timer, exchange) ∈ timers st -> pingInterval st = Some timer)
  /\ (length (timers st) <= 1)%nat
  /\ (timers st <> [] -> is_Some (ws st)).
Proof.
  cbn zeta.
  pose proof (run_consistent events idle idle_consistent) as [Hws Hping].
  set (st := Stream.run _ _ _ events idle) in *.
  assert (Hsock : (forall id sub, (id, sub) ∈ sockets st -> ws st = Some id)
                  /\ (length (sockets st) <= 1)%nat).
  { destruct (ws st) as [cur|].
    - destruct Hws as [[[Hs _]|[[sub' Hs] _]] _]; rewrite Hs.
      + split; [intros id sub Hin; inversion Hin | cbn; lia].
      + split; [|cbn; lia]. intros id sub Hin.
        apply list_elem_of_singleton in Hin. congruence.
    - destruct Hws as [Hs _]. rewrite Hs.
      split; [intros id sub Hin; inversion Hin | cbn; lia]. }
  destruct Hsock as [Hs1 Hs2].
  split; [exact Hs1|]. split; [exact Hs2|].
  destruct (pingInterval st) as [timer|].
  - destruct Hping as ([ex Ht] & Hw & _). rewrite Ht.
    split; [|split; [cbn; lia | intros _; exact Hw]].
    intros t e Hin. apply list_elem_of_singleton in Hin. congruence.
  - rewrite Hping.
    split; [intros t e Hin; inversion Hin|].
    split; [cbn; lia | contradiction].
Qed.

(** X24: after [unsubscribeKline], at the end of any run, there is no
    socket and no timer left, and unsubscribing again does nothing, not
    even a further [close] or [clearInterval]. *)
Theorem unsubscribe_leaves_nothing (events : list Event) :
  let st := run (events ++ [Unsubscribe]) idle in
  ws st = None /\ pingInterval st = None
  /\ sockets st = [] /\ timers st = []
  /\ step st Unsubscribe = st.
Proof.
  cbn zeta. unfold Stream.run. rewrite fold_left_app.
  cbn [fold_left Stream.step]. unfold unsubscribeKline.
  pose proof (run_consistent events idle idle_consistent) as Hc.
  unfold Stream.run in Hc.
  destruct (closeWebSocket_consistent _ Hc) as (Hw & Hp & Hs & Hr & Ht).
  split; [exact Hw|]. split; [exact Hp|]. split; [exact Hs|].
  split; [exact Ht|].
  unfold closeWebSocket at 1. rewrite Hp, Hw. reflexivity.
Qed.

(** X25: a message is handed to the callback only when it arrives on the
    socket [ws] names; it then adds at most one delivery, and in no case
    changes the socket or the timer.  A message for any other socket, such
    as one of an earlier subscription, changes nothing at all. *)
Theorem message_only_from_current_socket
    (events : list Event) (id : nat) (data : string) :
  let st := run events idle in
  let st' := step st (Message id data) in
  ws st' = ws st /\ pingInterval st' = pingInterval st
  /\ sockets st' = sockets st /\ timers st' = timers st
  /\ (effects st' = effects st
      \/ exists candle,
           effects st' = effects st ++ [Delivered candle]
           /\ ws st = Some id)
  /\ (ws st <> Some id -> st' = st).
Proof.
  cbn zeta.
  pose proof (run_consistent events idle idle_consistent) as [Hws _].
  cbn [Stream.step].
  set (st := Stream.run _ _ _ events idle) in *.
  destruct (lookup_id id (sockets st)) as [sub|] eqn:El.
  2:{ repeat split; auto. }
  destruct (ws st) as [cur|] eqn:Ew.
  2:{ destruct Hws as [Hs _]. rewrite Hs in El. discriminate. }
  destruct Hws as [[[Hs _]|[[sub' Hs] Hr]] _].
  { rewrite Hs in El. discriminate. }
  rewrite Hs in El. apply lookup_id_single in El as [-> ->].
  destruct (existsb (Nat.eqb cur) (ready st)) eqn:Er.
  2:{ repeat split; auto. }
  unfold onmessage_handler.
  destruct (parse_message ToNumber (sub_exchange sub') data)
    as [[c|]|e];
    cbn [ws pingInterval sockets timers effects].
  - split; [auto|]. split; [auto|]. split; [auto|]. split; [auto|].
    split; [right; exists c; auto|]. intros Hne. congruence.
  - repeat split; auto.
  - repeat split; auto.
Qed.

End StreamFacts.

End StreamExtras.
